(** * Tenge: a hook and query layer over a document store

    A shallow embedding of [index.js] (the [Tenge] base model built on
    mongojs, flowy and lodash) together with the properties proved about it.

    Layout:
    - [JS]      JavaScript values as trees, truthiness, property reads and the
                lodash helpers the model layer calls on plain values;
    - [Refs]    the same values as a store of objects held by reference, with
                lodash's [omit], [transform] and [merge] writing to it, and
                [_makeQuery] over that store;
    - [Hooks]   hook handlers and [_runHooks] (a flowy chain);
    - [Driver]  what the layer needs from the document store, and the cursor
                built on it;
    - [Tenge]   the model layer itself: [insert], [find], [count], [size],
                [remove], [updateOne], [updateAll];
    - [MemStore] a small executable store used to run the layer;
    - [Fixtures] the handlers, the collection and the calls of the tests;
    - the theorems. *)

From stdpp Require Import base list strings pretty.
From Stdlib Require Import ZArith.

#[global] Set Warnings "-register-all".
Open Scope string_scope.
Open Scope list_scope.
Open Scope Z_scope.

(** ** JavaScript values *)

Module JS.

(** A value as a tree.  Numbers are integers; an ObjectId is an opaque atom
    named by its hex string; objects keep their keys in insertion order. *)
Inductive value : Type :=
| VUndef
| VNull
| VBool (b : bool)
| VNum (n : Z)
| VStr (s : string)
| VOid (hex : string)
| VArr (items : list value)
| VObj (props : list (string * value)).

Definition object := list (string * value).

(** [if (v)]: the falsy values are undefined, null, false, 0 and the empty
    string. *)
Definition truthy (v : value) : bool :=
  match v with
  | VUndef | VNull => false
  | VBool b => b
  | VNum n => negb (n =? 0)
  | VStr s => negb (String.eqb s "")
  | VOid _ | VArr _ | VObj _ => true
  end.

(** A value that is neither undefined nor an object or array. *)
Definition is_scalar (v : value) : bool :=
  match v with
  | VNull | VBool _ | VNum _ | VStr _ | VOid _ => true
  | _ => false
  end.

(** Own property read on a property list: the first binding of [k]. *)
Fixpoint assoc {A} (k : string) (ps : list (string * A)) : option A :=
  match ps with
  | [] => None
  | (k', v) :: ps' => if String.eqb k k' then Some v else assoc k ps'
  end.

(** [o[k] = v]: overwrite in place when the key exists, append otherwise. *)
Fixpoint assign {A} (k : string) (v : A) (ps : list (string * A)) : list (string * A) :=
  match ps with
  | [] => [(k, v)]
  | (k', v') :: ps' =>
      if String.eqb k k' then (k', v) :: ps' else (k', v') :: assign k v ps'
  end.

(** [v.k] where [v] is known not to be undefined or null (as lodash's
    [baseProperty] and [_.get] read it): absent keys read as undefined. *)
Definition prop (v : value) (k : string) : value :=
  match v with
  | VObj ps => default VUndef (assoc k ps)
  | _ => VUndef
  end.

(** [_.pluck(collection, key)]: the property of every element of an array;
    nothing for a collection that is not one. *)
Definition pluck (coll : value) (k : string) : list value :=
  match coll with
  | VArr xs => map (fun d => prop d k) xs
  | _ => []
  end.

(** The characters of a string, each a one-character string. *)
Fixpoint chars (s : string) : list string :=
  match s with
  | EmptyString => []
  | String c s' => String c EmptyString :: chars s'
  end.

(** [[].concat(a)]: an array argument is spliced in, anything else becomes
    one element. *)
Definition spread (v : value) : list value :=
  match v with
  | VArr xs => xs
  | _ => [v]
  end.

(** [_.compact] on a list of elements. *)
Definition compact (xs : list value) : list value := List.filter truthy xs.

(** Structural equality of values. *)
Fixpoint value_eqb (a b : value) : bool :=
  match a, b with
  | VUndef, VUndef | VNull, VNull => true
  | VBool x, VBool y => Bool.eqb x y
  | VNum x, VNum y => x =? y
  | VStr x, VStr y | VOid x, VOid y => String.eqb x y
  | VArr xs, VArr ys =>
      (fix go (xs ys : list value) : bool :=
         match xs, ys with
         | [], [] => true
         | x :: xs', y :: ys' => value_eqb x y && go xs' ys'
         | _, _ => false
         end) xs ys
  | VObj ps, VObj qs =>
      (fix go (ps qs : list (string * value)) : bool :=
         match ps, qs with
         | [], [] => true
         | (k, x) :: ps', (l, y) :: qs' => String.eqb k l && value_eqb x y && go ps' qs'
         | _, _ => false
         end) ps qs
  | _, _ => false
  end.

(** The double quote, for messages that contain one. *)
Definition dquote : string := String (Ascii.ascii_of_nat 34) EmptyString.

(** What an operation can fail with: an exception ([new Error(message)], a
    [TypeError], a [RangeError] of a recursion too deep), or an error value
    handed to a callback by a hook's [next(err)] or by the store driver. *)
Inductive error : Type :=
| Error (message : string)
| TypeError (message : string)
| RangeError (message : string)
| HookError (e : value)
| StoreError (e : value).

Inductive result (A : Type) : Type :=
| Ok (a : A)
| Err (e : error).
Arguments Ok {A} a.
Arguments Err {A} e.

#[export] Instance result_ret : MRet result := fun A a => Ok a.
#[export] Instance result_bind : MBind result := fun A B f m =>
  match m with
  | Ok a => f a
  | Err e => Err e
  end.

(** [Tenge._assert(condition, message)]. *)
Definition _assert (condition : value) (message : string) : result unit :=
  if truthy condition then Ok tt else Err (Error ("Tenge: " +:+ message)).

End JS.

(** ** Objects held by reference *)

Module Refs.
Import JS.

(** A value as JavaScript holds it: a primitive, or a reference to an object
    or array in the store. *)
Inductive rvalue : Type :=
| RUndef
| RNull
| RBool (b : bool)
| RNum (n : Z)
| RStr (s : string)
| ROid (hex : string)
| RRef (l : nat).

Inductive cell : Type :=
| CObj (props : list (string * rvalue))
| CArr (items : list rvalue).

(** The object store: an address is a position, a new object goes at the end. *)
Definition heap := list cell.

Definition alloc (c : cell) (h : heap) : rvalue * heap :=
  (RRef (length h), h ++ [c]).

Definition rtruthy (v : rvalue) : bool :=
  match v with
  | RUndef | RNull => false
  | RBool b => b
  | RNum n => negb (n =? 0)
  | RStr s => negb (String.eqb s "")
  | ROid _ | RRef _ => true
  end.

Definition is_nullish (v : rvalue) : bool :=
  match v with
  | RUndef | RNull => true
  | _ => false
  end.

(** A value that is neither undefined nor an object: null, a boolean, a
    number, a string or an ObjectId. *)
Definition is_atom (v : rvalue) : bool :=
  match v with
  | RUndef | RRef _ => false
  | _ => true
  end.

(** A property key: a name, or the index of an array element. *)
Inductive key : Type :=
| KName (s : string)
| KIndex (i : nat).

Definition key_name (k : key) : string :=
  match k with
  | KName s => s
  | KIndex i => pretty i
  end.

(** The index a name denotes among the first [n]. *)
Definition index_of_name (s : string) (n : nat) : option nat :=
  List.find (fun i => String.eqb (pretty i) s) (seq 0 n).

(** [v[k]] for a [v] that is neither undefined nor null. *)
Definition rget (h : heap) (v : rvalue) (k : key) : rvalue :=
  match v with
  | RRef l =>
      match h !! l with
      | Some (CObj ps) => default RUndef (assoc (key_name k) ps)
      | Some (CArr xs) =>
          match k with
          | KIndex i => default RUndef (xs !! i)
          | KName s =>
              if String.eqb s "length" then RNum (Z.of_nat (length xs))
              else match index_of_name s (length xs) with
                   | Some i => default RUndef (xs !! i)
                   | None => RUndef
                   end
          end
      | None => RUndef
      end
  | RStr s =>
      let cs := chars s in
      match k with
      | KIndex i => default RUndef (RStr <$> cs !! i)
      | KName n =>
          if String.eqb n "length" then RNum (Z.of_nat (length cs))
          else match index_of_name n (length cs) with
               | Some i => default RUndef (RStr <$> cs !! i)
               | None => RUndef
               end
      end
  | _ => RUndef
  end.

(** [k in o]. *)
Definition rhas (h : heap) (v : rvalue) (k : key) : bool :=
  match v with
  | RRef l =>
      match h !! l with
      | Some (CObj ps) => bool_decide (is_Some (assoc (key_name k) ps))
      | Some (CArr xs) =>
          match k with
          | KIndex i => bool_decide (i < length xs)%nat
          | KName s => bool_decide (is_Some (index_of_name s (length xs)))
          end
      | None => false
      end
  | _ => false
  end.

(** Writing element [i] of an array: past the end the array grows, the gap
    reading as undefined. *)
Definition pad_set (i : nat) (v : rvalue) (xs : list rvalue) : list rvalue :=
  if decide (i < length xs)%nat then <[i := v]> xs
  else xs ++ replicate (i - length xs) RUndef ++ [v].

(** [o[k] = v], in place. *)
Definition rset (l : nat) (k : key) (v : rvalue) (h : heap) : heap :=
  match h !! l with
  | Some (CObj ps) => <[l := CObj (assign (key_name k) v ps)]> h
  | Some (CArr xs) =>
      match k with
      | KIndex i => <[l := CArr (pad_set i v xs)]> h
      | KName s =>
          match index_of_name s (length xs) with
          | Some i => <[l := CArr (pad_set i v xs)]> h
          | None => h
          end
      end
  | None => h
  end.

(** The enumerable keys of a value, in order ([_.keys], [for in]). *)
Definition keys_of (h : heap) (v : rvalue) : list key :=
  match v with
  | RRef l =>
      match h !! l with
      | Some (CObj ps) => KName <$> ps.*1
      | Some (CArr xs) => KIndex <$> seq 0 (length xs)
      | None => []
      end
  | RStr s => KIndex <$> seq 0 (String.length s)
  | _ => []
  end.

Definition is_array (h : heap) (v : rvalue) : bool :=
  match v with
  | RRef l => match h !! l with Some (CArr _) => true | _ => false end
  | _ => false
  end.

Definition is_plain_object (h : heap) (v : rvalue) : bool :=
  match v with
  | RRef l => match h !! l with Some (CObj _) => true | _ => false end
  | _ => false
  end.

(** The elements [v[0], ..., v[v.length - 1]] of an array-like [v]: an array,
    a string, or an object with a length. *)
Definition array_like (h : heap) (v : rvalue) : option (list rvalue) :=
  match v with
  | RRef l =>
      match h !! l with
      | Some (CArr xs) => Some xs
      | Some (CObj ps) =>
          match assoc "length" ps with
          | Some (RNum n) =>
              if 0 <=? n
              then Some ((fun i => default RUndef (assoc (pretty i) ps)) <$> seq 0 (Z.to_nat n))
              else None
          | _ => None
          end
      | None => None
      end
  | RStr s => Some (RStr <$> chars s)
  | _ => None
  end.

(** *** lodash over the object store *)

(** [baseGet]: follow a path, giving up at undefined or null. *)
Fixpoint baseGet (h : heap) (v : rvalue) (path : list string) : rvalue :=
  match path with
  | [] => v
  | k :: path' =>
      if is_nullish v then RUndef else baseGet h (rget h v (KName k)) path'
  end.

(** [_.get(object, path, defaultValue)]. *)
Definition get (h : heap) (v : rvalue) (path : list string) (dflt : rvalue) : rvalue :=
  match baseGet h v path with
  | RUndef => dflt
  | r => r
  end.

(** [_.omit(object, name)]: a new object with the other properties of
    [object], each holding the very value (the same reference) it held in
    [object]. *)
Definition omit (v : rvalue) (name : string) (h : heap) : rvalue * heap :=
  let entries := (fun k => (key_name k, rget h v k)) <$> keys_of h v in
  alloc (CObj (List.filter (fun kv => negb (String.eqb kv.1 name)) entries)) h.

(** [_.compact(array)]: a new array of the truthy elements. *)
Definition compact (v : rvalue) (h : heap) : rvalue * heap :=
  alloc (CArr (List.filter rtruthy (default [] (array_like h v)))) h.

(** [_.map(collection, iteratee)]: a new array.  An [iteratee] that is
    undefined stands for the identity ([baseCallback]). *)
Definition map_ (v : rvalue) (iteratee : option (rvalue -> rvalue)) (h : heap)
  : rvalue * heap :=
  let f := default id iteratee in
  let items :=
    match array_like h v with
    | Some xs => xs
    | None => rget h v <$> keys_of h v
    end in
  alloc (CArr (f <$> items)) h.

(** One step of [baseMerge]'s loop over the source: [baseMergeDeep] for a
    source value that is an array or an object, a plain write otherwise.
    [rec] is [baseMerge] itself. *)
Definition merge_key (rec : rvalue -> rvalue -> heap -> result heap)
    (isSrcArr : bool) (object : nat) (source : rvalue) (k : key) (h : heap)
  : result heap :=
  let srcValue := rget h source k in
  let value := rget h (RRef object) k in
  if is_array h srcValue then
    (* the destination's own array is merged into when there is one *)
    let '(dst, h1) :=
      if is_array h value then (value, h)
      else alloc (CArr (default [] (array_like h value))) h in
    h2 ← rec dst srcValue h1;
    Ok (rset object k dst h2)
  else if is_plain_object h srcValue then
    (* the destination's own object is merged into when there is one *)
    let '(dst, h1) :=
      if is_plain_object h value then (value, h)
      else alloc (CObj []) h in
    h2 ← rec dst srcValue h1;
    Ok (rset object k dst h2)
  else
    match srcValue with
    | RUndef =>
        if isSrcArr && negb (rhas h (RRef object) k)
        then Ok (rset object k RUndef h) else Ok h
    | _ => Ok (rset object k srcValue h)
    end.

(** [baseMerge(object, source)]: the recursion is bounded by [fuel], the
    depth of the call stack. *)
Fixpoint baseMerge (fuel : nat) (object source : rvalue) (h : heap) : result heap :=
  match fuel with
  | O => Err (RangeError "Maximum call stack size exceeded")
  | S fuel' =>
      match object with
      | RRef l =>
          fold_left
            (fun acc k => h' ← acc; merge_key (baseMerge fuel') (is_array h source) l source k h')
            (keys_of h source) (Ok h)
      | _ => Ok h
      end
  end.

(** [_.merge(object, source)].  Sources here are trees, so their depth is
    below the number of objects in the store. *)
Definition merge (object source : rvalue) (h : heap) : result heap :=
  baseMerge (S (length h)) object source h.

(** *** Query transformers *)

(** The properties of the constructor [Tenge] are [connect], [_db] and
    [_assert]; [makeOID] is defined on [Tenge.prototype] only, so the
    expression [Tenge.makeOID] reads as undefined. *)
Definition Tenge_makeOID : option (rvalue -> rvalue) := None.

(** [Tenge.prototype.makeOID]: [OID(id)]. *)
Definition makeOID (id : rvalue) : rvalue :=
  match id with
  | RStr s => ROid s
  | _ => id
  end.

(** A transformer gets [val], the query being built and the whole marker
    object, and returns the object to merge in. *)
Definition transformer := rvalue -> rvalue -> rvalue -> heap -> result (rvalue * heap).

(** [id: function(val) { return {id: val}; }] *)
Definition transform_id : transformer := fun val _ _ h =>
  Ok (alloc (CObj [("id", val)]) h).

(** [ids: function(val) { return {id: {$in: _.compact(val)}}; }] *)
Definition transform_ids : transformer := fun val _ _ h =>
  let '(arr, h1) := compact val h in
  let '(cond, h2) := alloc (CObj [("$in", arr)]) h1 in
  Ok (alloc (CObj [("id", cond)]) h2).

(** [_id: function(val) { return {_id: Tenge.makeOID(val)}; }] *)
Definition transform__id : transformer := fun val _ _ h =>
  match Tenge_makeOID with
  | Some f => Ok (alloc (CObj [("_id", f val)]) h)
  | None => Err (TypeError "Tenge.makeOID is not a function")
  end.

(** [_ids: function(val) {
       return {_id: {$in: _.compact(_.map(val, Tenge.makeOID))}}; }] *)
Definition transform__ids : transformer := fun val _ _ h =>
  let '(mapped, h1) := map_ val Tenge_makeOID h in
  let '(arr, h2) := compact mapped h1 in
  let '(cond, h3) := alloc (CObj [("$in", arr)]) h2 in
  Ok (alloc (CObj [("_id", cond)]) h3).

(** [Tenge.prototype._queryTransformers]. *)
Definition _queryTransformers : list (string * transformer) :=
  [ ("id", transform_id); ("ids", transform_ids);
    ("_id", transform__id); ("_ids", transform__ids) ].

(** The body of the function given to [_.transform] in [_makeQuery].  The
    marker's keys are taken to be names that objects do not inherit: for
    [constructor], [toString] and the like [_queryTransformers] reads as
    something truthy that is not a transformer of this table. *)
Definition transform_step (query mm : rvalue) (k : key) (h : heap) : result heap :=
  let name := key_name k in
  match assoc name _queryTransformers with
  | None =>
      Err (Error ("Tenge: " +:+ "No query transformer registered for "
                  +:+ dquote +:+ "$$." +:+ name +:+ dquote))
  | Some t =>
      '(fragment, h1) ← t (rget h mm k) query mm h;
      merge query fragment h1
  end.

(** [Tenge.prototype._makeQuery]:
<<
    var $$ = _.get(params, 'query.$$', {});
    var query = _.omit(_.get(params, 'query'), '$$');
    _.transform($$, function(query, $$val, $$key, $$) { ... }, query);
    return {query: query};
>> *)
Definition _makeQuery (params : rvalue) (h : heap) : result (rvalue * heap) :=
  let '(empty, h) := alloc (CObj []) h in
  let mm := get h params ["query"; "$$"] empty in
  let '(query, h) := omit (get h params ["query"] RUndef) "$$" h in
  h ← fold_left (fun acc k => h' ← acc; transform_step query mm k h')
        (keys_of h mm) (Ok h);
  Ok (alloc (CObj [("query", query)]) h).

(** *** Trees in and out of the store *)

Section StoreChildren.
Context (store_child : value -> heap -> rvalue * heap).

(** The elements of an array, left to right. *)
Fixpoint store_items (xs : list value) (h : heap) : list rvalue * heap :=
  match xs with
  | [] => ([], h)
  | x :: xs' =>
      let '(r, h1) := store_child x h in
      let '(rs, h2) := store_items xs' h1 in
      (r :: rs, h2)
  end.

(** The properties of an object, in order. *)
Fixpoint store_props (ps : list (string * value)) (h : heap)
  : list (string * rvalue) * heap :=
  match ps with
  | [] => ([], h)
  | kx :: ps' =>
      let '(r, h1) := store_child kx.2 h in
      let '(rs, h2) := store_props ps' h1 in
      ((kx.1, r) :: rs, h2)
  end.

End StoreChildren.

(** Build a tree in the store, children first. *)
Fixpoint store_value (v : value) (h : heap) : rvalue * heap :=
  match v with
  | VUndef => (RUndef, h)
  | VNull => (RNull, h)
  | VBool b => (RBool b, h)
  | VNum n => (RNum n, h)
  | VStr s => (RStr s, h)
  | VOid x => (ROid x, h)
  | VArr xs => let '(rs, h1) := store_items store_value xs h in alloc (CArr rs) h1
  | VObj ps => let '(rs, h1) := store_props store_value ps h in alloc (CObj rs) h1
  end.

(** Read a tree back, following references to depth [fuel]. *)
Fixpoint load_value (fuel : nat) (h : heap) (r : rvalue) : value :=
  match r with
  | RUndef => VUndef
  | RNull => VNull
  | RBool b => VBool b
  | RNum n => VNum n
  | RStr s => VStr s
  | ROid x => VOid x
  | RRef l =>
      match fuel with
      | O => VUndef
      | S fuel' =>
          match h !! l with
          | Some (CObj ps) => VObj ((fun kv => (kv.1, load_value fuel' h kv.2)) <$> ps)
          | Some (CArr xs) => VArr (load_value fuel' h <$> xs)
          | None => VUndef
          end
      end
  end.

(** The value an expression denotes, in full. *)
Definition snapshot (h : heap) (r : rvalue) : value := load_value (length h) h r.

End Refs.

(** ** Hooks *)

Module Hooks.
Import JS.

(** [shortid.generate()]: the [n]-th call returns the [n]-th identifier of
    the generator; the generator's state is the number of calls so far. *)
Definition makeID (seed : nat) : value * nat :=
  (VStr ("sid-" +:+ pretty seed), S seed).

(** A handler [function(params, next)], by what it does: it reads
    [params.docs], leaves documents there, may draw identifiers, and
    finishes with [next()] ([None]) or with [next(err)] or an exception
    ([Some]).  [h_run] gives the documents [params.docs] holds when the
    handler is done.  [h_same] tells whose they are: the very objects the
    handler was given, position by position, written to in place (as the
    handlers of the tests do), or other objects, the ones given being left
    as they were.  The name tells the handlers apart in traces.  A handler
    is taken not to call the store itself. *)
Record handler : Type := Handler {
  h_name : string;
  h_same : bool;
  h_run : list value -> nat -> list value * nat * option error
}.

(** What a chain works on: the shared [params] object (its [docs]), the
    identifier generator, and the record of the calls made so far, each with
    the [params.docs] the handler was given. *)
Record chain_state : Type := ChainState {
  cs_docs : list value;
  cs_seed : nat;
  cs_trace : list (string * list value)
}.

(** A flowy chain: run from a state, it ends in a state and maybe an error. *)
Definition chain := chain_state -> chain_state * option error.

(** [F.when(null)]: a chain that has already succeeded. *)
Definition when_null : chain := fun s => (s, None).

(** [chain.then(step)]: [step] runs once [chain] has succeeded and is
    skipped when it has failed. *)
Definition then_ (c : chain) (step : chain) : chain := fun s =>
  match c s with
  | (s', None) => step s'
  | (s', Some e) => (s', Some e)
  end.

(** [function() { hook(params, this.slot()); }] *)
Definition call (hook : handler) : chain := fun s =>
  let '(docs', seed', e) := h_run hook (cs_docs s) (cs_seed s) in
  ({| cs_docs := docs'; cs_seed := seed';
      cs_trace := cs_trace s ++ [(h_name hook, cs_docs s)] |}, e).

(** [Tenge.prototype._runHooks]:
<<
    var params = {docs: docs};
    var chain = F.when(null);
    _.each(hooks, function(hook) {
        chain = chain.then(function() { hook(params, this.slot()); });
    });
    chain.anyway(function(err) { cb(err, params.docs) });
>>
    The result holds [err] and [params.docs] as the callback gets them. *)
Definition _runHooks (hooks : list handler) (docs : list value) (seed : nat)
  : chain_state * option error :=
  let chain := fold_left (fun chain hook => then_ chain (call hook)) hooks when_null in
  chain {| cs_docs := docs; cs_seed := seed; cs_trace := [] |}.

(** What has become of one of the objects given to a chain, the first of
    [params.docs], when the chain is done: [doc] is that object as it was,
    [docs] the documents the chain starts from, and [same] tells whether the
    first of them is still that object.  A handler that leaves the objects
    it was given in [params.docs] has written what [h_run] shows; after a
    handler that leaves other objects there, or none, the object is out of
    the handlers' reach. *)
Fixpoint edited (hooks : list handler) (doc : value) (docs : list value) (seed : nat)
    (same : bool) : value :=
  match hooks with
  | [] => doc
  | hook :: hooks' =>
      let '(docs', seed', e) := h_run hook docs seed in
      let same' := same && h_same hook in
      let doc' := if same' then default doc (head docs') else doc in
      match e with
      | Some _ => doc'
      | None =>
          edited hooks' doc' docs' seed' (same' && match docs' with [] => false | _ => true end)
      end
  end.

(** The handler [_initCollection] registers before insert:
<<
    _.each(params.docs, function(doc) { doc.id = doc.id || self.makeID(); });
    next();
>>
    A document is an object.  For the other values an array can hold: the
    write throws on a primitive (strict mode), after [makeID] has run; the
    read throws on undefined and null; an array takes the property without
    showing it among its elements; an ObjectId has an [id] already. *)
Fixpoint assign_ids (docs : list value) (seed : nat) : list value * nat * option error :=
  match docs with
  | [] => ([], seed, None)
  | VObj ps :: rest =>
      let '(d, seed1) :=
        if truthy (prop (VObj ps) "id") then (VObj ps, seed)
        else let '(i, s) := makeID seed in (VObj (assign "id" i ps), s) in
      let '(rest', seed2, e) := assign_ids rest seed1 in
      (d :: rest', seed2, e)
  | VArr xs :: rest =>
      let '(rest', seed2, e) := assign_ids rest (S seed) in
      (VArr xs :: rest', seed2, e)
  | VOid x :: rest =>
      let '(rest', seed2, e) := assign_ids rest seed in
      (VOid x :: rest', seed2, e)
  | VUndef :: rest => (VUndef :: rest, seed, Some (TypeError "Cannot read property 'id' of undefined"))
  | VNull :: rest => (VNull :: rest, seed, Some (TypeError "Cannot read property 'id' of null"))
  | d :: rest => (d :: rest, S seed, Some (TypeError "Cannot create property 'id'"))
  end.

Definition default_id_hook : handler :=
  {| h_name := "makeID"; h_same := true; h_run := assign_ids |}.

(** [this._hooks]. *)
Record registry : Type := Registry {
  before_insert : list handler;
  before_remove : list handler;
  after_insert : list handler;
  after_update : list handler;
  after_upsert : list handler;
  after_remove : list handler
}.

(** The registry a new [Tenge] starts with. *)
Definition no_hooks : registry :=
  {| before_insert := []; before_remove := []; after_insert := [];
     after_update := []; after_upsert := []; after_remove := [] |}.

End Hooks.

(** ** The document store *)

Module Driver.
Import JS.

(** [col.findAndModify(params)] is handed the whole params object. *)
Record fam_params : Type := FamParams {
  fam_query : value;
  fam_update : value;
  fam_fields : value;
  fam_sort : value;
  fam_upsert : value;
  fam_new : bool
}.

(** What the layer needs from a mongojs collection, as functions of the
    collection's state [db]:
    - [col_ensureIndex]: [col.ensureIndex({id: 1}, {unique: true}, cb)];
    - [col_insert]: [col.insert(docs, cb)], answering the stored documents;
    - [col_select query sort]: the stored documents [col.find(query)]
      matches, in the order [sort] asks for (the store's own when there is
      none);
    - [col_project fields doc]: the part of a document a projection keeps;
    - [col_remove], [col_update]: [col.remove(query, cb)] and
      [col.update(query, update, options, cb)], answering the driver's
      report;
    - [col_findAndModify]: the document and the [lastErrorObject]. *)
Record store : Type := Store {
  db : Type;
  col_ensureIndex : db -> result unit * db;
  col_insert : list value -> db -> result (list value) * db;
  col_select : value -> option value -> db -> result (list value);
  col_project : value -> value -> value;
  col_remove : value -> db -> result value * db;
  col_update : value -> value -> value -> db -> result value * db;
  col_findAndModify : fam_params -> db -> result (value * value) * db
}.

(** A cursor as [_findCursor] sets it up: [col.find(query, fields)], then
    [sort] and [skip] when given, then [limit] (null for none). *)
Record cursor : Type := Cursor {
  c_query : value;
  c_fields : value;
  c_sort : option value;
  c_skip : option value;
  c_limit : value
}.

(** A number of documents. *)
Definition as_count (v : value) : option nat :=
  match v with
  | VNum n => if 0 <=? n then Some (Z.to_nat n) else None
  | _ => None
  end.

Definition bad_argument (what : string) : error :=
  StoreError (VStr (what +:+ " must be a non-negative number")).

Section Cursor.
Context (st : store).

(** The cursor of the store driver (mongojs), which is not part of the
    repository.  Each of its operations below is modelled from the spec,
    and from the docstrings of [find], [count] and [size] in [index.js]:
    "[count] reports the total number of documents matching the filter with
    skip/limit not applied"; "[size] reports the number of documents the
    cursor would actually yield after skip/limit are applied"; "a
    falsy/absent limit means unbounded". *)

(** Modelled from the spec: [cursor.skip(n)]. *)
Definition skipped (c : cursor) (xs : list value) : result (list value) :=
  match c_skip c with
  | None => Ok xs
  | Some v =>
      match as_count v with
      | Some n => Ok (drop n xs)
      | None => Err (bad_argument "skip")
      end
  end.

(** Modelled from the spec: [cursor.limit(n)], none for null and for 0. *)
Definition limited (c : cursor) (xs : list value) : result (list value) :=
  match c_limit c with
  | VNull => Ok xs
  | v =>
      match as_count v with
      | Some O => Ok xs
      | Some n => Ok (take n xs)
      | None => Err (bad_argument "limit")
      end
  end.

(** Modelled from the spec: the documents the cursor yields, before
    projection. *)
Definition yield (c : cursor) (d : db st) : result (list value) :=
  xs ← col_select st (c_query c) (c_sort c) d;
  ys ← skipped c xs;
  limited c ys.

(** Modelled from the spec: [cursor.toArray(cb)]. *)
Definition toArray (c : cursor) (d : db st) : result (list value) :=
  xs ← yield c d;
  Ok (map (col_project st (c_fields c)) xs).

(** Modelled from the spec: [cursor.next(cb)], the first document or null. *)
Definition next (c : cursor) (d : db st) : result value :=
  xs ← toArray c d;
  Ok (default VNull (head xs)).

(** Modelled from the spec: [cursor.count(cb)]. *)
Definition count (c : cursor) (d : db st) : result value :=
  xs ← col_select st (c_query c) (c_sort c) d;
  Ok (VNum (Z.of_nat (length xs))).

(** Modelled from the spec: [cursor.size(cb)]. *)
Definition size (c : cursor) (d : db st) : result value :=
  xs ← yield c d;
  Ok (VNum (Z.of_nat (length xs))).

End Cursor.

End Driver.

(** ** The model layer *)

Module Tenge.
Import JS Hooks Driver.

(** *** Parameters of the operations *)

(** [find], [findOne], [count], [size] and [remove]. *)
Record find_params : Type := FindParams {
  query : value;
  fields : value;
  sort : value;
  skip : value;
  limit : value
}.

(** [insert]. *)
Record insert_params : Type := InsertParams {
  doc : value;
  docs : value
}.

(** [updateOne] and [updateAll].  [skip] and [limit] are not among the
    documented parameters of an update, but [updateAll] hands the caller's
    whole params object on to [find], which reads them. *)
Record update_params : Type := UpdateParams {
  u_query : value;
  u_update : value;
  u_fields : value;
  u_sort : value;
  u_upsert : value;
  u_skip : value;
  u_limit : value
}.

(** [this._makeQuery(params).query] for a params object whose [query] is the
    tree [q]: the params object is built in an empty object store,
    [_makeQuery] runs on it, and the query it returns is read back. *)
Definition makeQuery (q : value) : result value :=
  let '(r, h0) := Refs.store_value q [] in
  let '(params, h1) := Refs.alloc (Refs.CObj [("query", r)]) h0 in
  '(out, h2) ← Refs._makeQuery params h1;
  Ok (Refs.snapshot h2 (Refs.rget h2 out (Refs.KName "query"))).

(** [{_id: {$in: ids}}] *)
Definition by_ids (ids : list value) : value :=
  VObj [("_id", VObj [("$in", VArr ids)])].

(** [{_id: true}], [{_id: 1}], [{multi: true}], [{upsert: true, multi: true}] *)
Definition key_only : value := VObj [("_id", VBool true)].
Definition by_key : value := VObj [("_id", VNum 1)].
Definition multi : value := VObj [("multi", VBool true)].
Definition upsert_multi : value := VObj [("upsert", VBool true); ("multi", VBool true)].

(** [xs.length] as a condition. *)
Definition nonempty {A} (xs : list A) : bool :=
  match xs with
  | [] => false
  | _ => true
  end.

(** [v.k] in an expression: a [TypeError] when [v] is undefined or null. *)
Definition member (v : value) (k : string) : result value :=
  match v with
  | VUndef | VNull => Err (TypeError ("Cannot read property '" +:+ k +:+ "'"))
  | _ => Ok (prop v k)
  end.

(** *** What the layer does to the outside *)

Inductive terminal : Type := ToArray | Next | Count | Size.

(** A call to the store, or a call of a hook handler with the [params.docs]
    it was given. *)
Inductive event : Type :=
| EnsureIndex
| Insert (ds : list value)
| Find (c : cursor) (t : terminal)
| Remove (filter : value)
| Update (filter upd options : value)
| FindAndModify (p : fam_params)
| Hook (name : string) (payload : list value).

Definition is_hook (e : event) : bool :=
  match e with Hook _ _ => true | _ => false end.

(** A call that changes the collection. *)
Definition is_write (e : event) : bool :=
  match e with
  | Insert _ | Remove _ | Update _ _ _ | FindAndModify _ => true
  | _ => false
  end.

(** *** The instance *)

(** [this._params.collection], [this._hooks] and whether [this._col] is set. *)
Record tenge : Type := TengeObj {
  collection : value;
  hooks : registry;
  col : bool
}.

(** [new Tenge({collection: name})]. *)
Definition new (name : value) : tenge :=
  {| collection := name; hooks := no_hooks; col := false |}.

Definition set_hooks (r : registry) (t : tenge) : tenge :=
  {| collection := collection t; hooks := r; col := col t |}.

Definition push_before_insert (h : handler) (r : registry) : registry :=
  {| before_insert := before_insert r ++ [h]; before_remove := before_remove r;
     after_insert := after_insert r; after_update := after_update r;
     after_upsert := after_upsert r; after_remove := after_remove r |}.
Definition push_before_remove (h : handler) (r : registry) : registry :=
  {| before_insert := before_insert r; before_remove := before_remove r ++ [h];
     after_insert := after_insert r; after_update := after_update r;
     after_upsert := after_upsert r; after_remove := after_remove r |}.
Definition push_after_insert (h : handler) (r : registry) : registry :=
  {| before_insert := before_insert r; before_remove := before_remove r;
     after_insert := after_insert r ++ [h]; after_update := after_update r;
     after_upsert := after_upsert r; after_remove := after_remove r |}.
Definition push_after_update (h : handler) (r : registry) : registry :=
  {| before_insert := before_insert r; before_remove := before_remove r;
     after_insert := after_insert r; after_update := after_update r ++ [h];
     after_upsert := after_upsert r; after_remove := after_remove r |}.
Definition push_after_upsert (h : handler) (r : registry) : registry :=
  {| before_insert := before_insert r; before_remove := before_remove r;
     after_insert := after_insert r; after_update := after_update r;
     after_upsert := after_upsert r ++ [h]; after_remove := after_remove r |}.
Definition push_after_remove (h : handler) (r : registry) : registry :=
  {| before_insert := before_insert r; before_remove := before_remove r;
     after_insert := after_insert r; after_update := after_update r;
     after_upsert := after_upsert r; after_remove := after_remove r ++ [h] |}.

(** The names every object inherits from [Object.prototype]. *)
Definition inherited : list string :=
  [ "constructor"; "hasOwnProperty"; "isPrototypeOf"; "propertyIsEnumerable";
    "toLocaleString"; "toString"; "valueOf"; "__proto__";
    "__defineGetter__"; "__defineSetter__"; "__lookupGetter__"; "__lookupSetter__" ].

Section WithStore.
Context (st : store).

(** Everything an operation can read and change: the instance, the
    collection in the store, the identifier generator, and the record of
    the calls made. *)
Record world : Type := World {
  self : tenge;
  data : db st;
  seed : nat;
  log : list event
}.

(** An operation: it ends with a result or an error, in a new world. *)
Definition M (A : Type) : Type := world -> result A * world.

#[local] Instance M_ret : MRet M := fun A a w => (Ok a, w).
#[local] Instance M_bind : MBind M := fun A B f m w =>
  match m w with
  | (Ok a, w') => f a w'
  | (Err e, w') => (Err e, w')
  end.

(** A result already at hand. *)
Definition lift {A} (r : result A) : M A := fun w => (r, w).

(** An asynchronous call started in a flowy step: it runs, and its error, if
    any, waits in its slot. *)
Definition attempt {A} (m : M A) : M (result A) := fun w =>
  let '(r, w') := m w in (Ok r, w').

Definition gets {A} (f : world -> A) : M A := fun w => (Ok (f w), w).

Definition emit (e : event) : M unit := fun w =>
  (Ok tt, {| self := self w; data := data w; seed := seed w; log := log w ++ [e] |}).

Definition set_self (t : tenge) : M unit := fun w =>
  (Ok tt, {| self := t; data := data w; seed := seed w; log := log w |}).

(** A call that may change the collection. *)
Definition call_store {A} (e : event) (op : db st -> result A * db st) : M A := fun w =>
  let '(r, d) := op (data w) in
  (r, {| self := self w; data := d; seed := seed w; log := log w ++ [e] |}).

(** A call that reads the collection. *)
Definition read_store {A} (e : event) (op : db st -> result A) : M A :=
  call_store e (fun d => (op d, d)).

(** [this.slot()] given to [_runHooks]: the step fails with [err], or goes on
    with the documents. *)
Definition slot {A} (r : A * option error) : M A :=
  match r with
  | (a, None) => mret a
  | (_, Some e) => lift (Err e)
  end.

(** [self._runHooks(hooks, docs, cb)]: what [cb] is called with. *)
Definition runHooks (hs : list handler) (ds : list value) : M (list value * option error) := fun w =>
  let '(s, e) := _runHooks hs ds (seed w) in
  (Ok (cs_docs s, e),
   {| self := self w; data := data w; seed := cs_seed s;
      log := log w ++ map (fun c => Hook c.1 c.2) (cs_trace s) |}).

(** [Tenge.prototype.before] and [Tenge.prototype.after]:
<<
    var hooks = this._hooks.before[action];
    this._assert(hooks, 'Before-hook for action not supported: ' + action);
    hooks.push(handler);
>>
    [this._hooks.before] has the lists [insert] and [remove] and
    [this._hooks.after] the lists [insert], [update], [upsert] and [remove].
    A name that [Object.prototype] has reads as something truthy that is
    not a list, and [push] is missing there. *)
Definition before (action : string) (h : handler) : M unit :=
  t ← gets self;
  if String.eqb action "insert" then set_self (set_hooks (push_before_insert h (hooks t)) t)
  else if String.eqb action "remove" then set_self (set_hooks (push_before_remove h (hooks t)) t)
  else if existsb (String.eqb action) inherited
  then lift (Err (TypeError "hooks.push is not a function"))
  else lift (Err (Error ("Tenge: " +:+ "Before-hook for action not supported: " +:+ action))).

Definition after (action : string) (h : handler) : M unit :=
  t ← gets self;
  if String.eqb action "insert" then set_self (set_hooks (push_after_insert h (hooks t)) t)
  else if String.eqb action "update" then set_self (set_hooks (push_after_update h (hooks t)) t)
  else if String.eqb action "upsert" then set_self (set_hooks (push_after_upsert h (hooks t)) t)
  else if String.eqb action "remove" then set_self (set_hooks (push_after_remove h (hooks t)) t)
  else if existsb (String.eqb action) inherited
  then lift (Err (TypeError "hooks.push is not a function"))
  else lift (Err (Error ("Tenge: " +:+ "After-hook for action not supported: " +:+ action))).

(** *** The collection *)

(** [_collection] answers at once when [this._col] is set.  Otherwise
    [_initCollection] calls [col.ensureIndex], and only when the store has
    answered is the default handler registered and [this._col] set.  What a
    caller does in the same flowy step runs in between, so the two halves are
    kept apart.  The database is taken to be connected: [Tenge.connect] has
    replaced [Tenge._db], so that [this._db()] hands out the database and
    does not throw. *)
Inductive pending : Type :=
| Ready
| Initialising (reply : result unit).

Definition _collection_begin : M pending :=
  t ← gets self;
  _ ← lift (_assert (collection t) "No collection name provided");
  if col t then mret Ready
  else r ← attempt (call_store EnsureIndex (col_ensureIndex st)); mret (Initialising r).

(** The two parts of [_collection_begin], for a step that calls handlers
    after it has called [_collection]: the name is asserted at once; the
    request for the index goes out when the step is over, after the
    handlers, which are called as the step runs. *)
Definition _collection_named : M unit :=
  t ← gets self;
  lift (_assert (collection t) "No collection name provided").

Definition _collection_send : M pending :=
  t ← gets self;
  if col t then mret Ready
  else r ← attempt (call_store EnsureIndex (col_ensureIndex st)); mret (Initialising r).

Definition _collection_end (p : pending) : M unit :=
  match p with
  | Ready => mret tt
  | Initialising r =>
      _ ← lift r;
      _ ← before "insert" default_id_hook;
      t ← gets self;
      set_self {| collection := collection t; hooks := hooks t; col := true |}
  end.

(** [Tenge.prototype._collection], awaited on its own. *)
Definition _collection : M unit :=
  p ← _collection_begin;
  _collection_end p.

(** *** Reading *)

(** The cursor of [_findCursor], for the query [q] that [_makeQuery] made:
<<
    params = _.defaults(this._makeQuery(params), params, {fields: {}});
    ...
    var cursor = col.find(params.query, params.fields);
    if (params.sort) cursor.sort(params.sort);
    if (params.skip) cursor.skip(params.skip);
    cursor.limit(params.limit ? params.limit : null);
>> *)
Definition cursor_of (q : value) (p : find_params) : cursor :=
  {| c_query := q;
     c_fields := match fields p with VUndef => VObj [] | f => f end;
     c_sort := if truthy (sort p) then Some (sort p) else None;
     c_skip := if truthy (skip p) then Some (skip p) else None;
     c_limit := if truthy (limit p) then limit p else VNull |}.

(** [Tenge.prototype._findCursor]. *)
Definition _findCursor (p : find_params) : M cursor :=
  q ← lift (makeQuery (query p));
  _ ← _collection;
  mret (cursor_of q p).

(** [Tenge.prototype.find]. *)
Definition find (p : find_params) : M (list value) :=
  c ← _findCursor p;
  read_store (Find c ToArray) (toArray st c).

(** [Tenge.prototype.findOne]. *)
Definition findOne (p : find_params) : M value :=
  c ← _findCursor p;
  read_store (Find c Next) (next st c).

(** [Tenge.prototype.count]. *)
Definition count (p : find_params) : M value :=
  c ← _findCursor p;
  read_store (Find c Count) (Driver.count st c).

(** [Tenge.prototype.size]. *)
Definition size (p : find_params) : M value :=
  c ← _findCursor p;
  read_store (Find c Size) (Driver.size st c).

(** *** Writing *)

(** [Tenge.prototype.insert]:
<<
    F(function() {
        self._collection(this.slot());
        var docs = _.compact([].concat(params.doc, params.docs));
        self._assert(docs, 'no doc or docs specified for insert operation');
        self._runHooks(self._hooks.before.insert, docs, this.slot());
    }, function(err, col, docs) {
        col.insert(docs, this.slot());
    }, function(err, docs) {
        self._runHooks(self._hooks.after.insert, docs, this.slot());
    }, cb);
>>
    In the first step [_runHooks] reads the handlers and calls them while
    the collection may still be initialising: on an instance's first use the
    handlers before insert are called before the index is asked for, and the
    handler that gives out [id]s is registered after them. *)
Definition insert (p : insert_params) : M (list value) :=
  _ ← _collection_named;
  let ds := compact (spread (doc p) ++ spread (docs p)) in
  _ ← lift (_assert (VArr ds) "no doc or docs specified for insert operation");
  hs ← gets (fun w => before_insert (hooks (self w)));
  out ← runHooks hs ds;
  pend ← _collection_send;
  fin ← attempt (_collection_end pend);
  ds ← slot out;
  _ ← lift fin;
  ds ← call_store (Insert ds) (col_insert st ds);
  hs ← gets (fun w => after_insert (hooks (self w)));
  out ← runHooks hs ds;
  slot out.

(** [Tenge.prototype.remove]:
<<
    params = _.defaults(this._makeQuery(params), params);
    F(function() {
        self.find(params, this.slot());
    }, function(err, docs) {
        self._collection(this.slot());
        self._runHooks(self._hooks.before.remove, docs, this.slot());
    }, function(err, col, docs) {
        this.pass(docs);
        if (docs.length) {
            var ids = _.pluck(docs, '_id');
            col.remove({_id: {$in: ids}}, this.slot());
        }
    }, function(err, docs, result) {
        self._runHooks(self._hooks.after.remove, docs, this.slot());
    }, cb);
>> *)
Definition remove (p : find_params) : M (list value) :=
  q ← lift (makeQuery (query p));
  let p := {| query := q; fields := fields p; sort := sort p;
              skip := skip p; limit := limit p |} in
  ds ← find p;
  _ ← _collection_named;
  hs ← gets (fun w => before_remove (hooks (self w)));
  out ← runHooks hs ds;
  pend ← _collection_send;
  fin ← attempt (_collection_end pend);
  ds ← slot out;
  _ ← lift fin;
  _ ← (if nonempty ds
       then let ids := pluck (VArr ds) "_id" in
            call_store (Remove (by_ids ids)) (col_remove st (by_ids ids))
       else mret VUndef);
  hs ← gets (fun w => after_remove (hooks (self w)));
  out ← runHooks hs ds;
  slot out.

(** [Tenge.prototype.updateOne]:
<<
    params = _.defaults(this._makeQuery(params), params);
    params = _.extend(params, {new: true});
    F(function() {
        self._collection(this.slot());
    }, function(err, col) {
        col.findAndModify(params, this.slot('multi'));
    }, function(err, result) {
        var doc = result[0];
        var lastErrorObject = result[1];
        self._assert(
            doc, params.upsert ? 'Upsert failed' : 'Document does not exist');
        this.pass(doc);
        if (lastErrorObject.upserted) {
            self._runHooks(self._hooks.after.upsert, [doc], this.slot());
        } else {
            self._runHooks(self._hooks.after.update, [doc], this.slot());
        }
    }, cb);
>>
    The callback gets the document and, after it, the [params.docs] the
    handlers left.  The handlers were given that very document, so what they
    wrote into it shows in the document the callback gets. *)
Definition updateOne (p : update_params) : M (value * list value) :=
  q ← lift (makeQuery (u_query p));
  let params := {| fam_query := q; fam_update := u_update p; fam_fields := u_fields p;
                   fam_sort := u_sort p; fam_upsert := u_upsert p; fam_new := true |} in
  _ ← _collection;
  '(doc, lastErrorObject) ← call_store (FindAndModify params) (col_findAndModify st params);
  _ ← lift (_assert doc (if truthy (u_upsert p) then "Upsert failed"
                         else "Document does not exist"));
  upserted ← lift (member lastErrorObject "upserted");
  hs ← gets (fun w => if truthy upserted then after_upsert (hooks (self w))
                      else after_update (hooks (self w)));
  n ← gets seed;
  out ← runHooks hs [doc];
  ds ← slot out;
  mret (edited hs doc [doc] n true, ds).

(** The first step of [updateAll], below: the collection and, at the same
    time, the keys of the documents the query yields now. *)
Definition updateAll_snapshot (q srt sk li : value) : M (list value) :=
  pend ← _collection_begin;
  found ← attempt (find {| query := q; fields := key_only; sort := srt;
                           skip := sk; limit := li |});
  fin ← attempt (_collection_end pend);
  _ ← lift fin;
  lift found.

(** [Tenge.prototype.updateAll]:
<<
    params = _.defaults(this._makeQuery(params), params, {sort: {_id: 1}});
    F(function() {
        self._collection(this.slot());
        self.find(_.extend({}, params, {fields: {_id: true}}), this.slot());
    }, function(err, col, docsToUpdate) {
        var ids = _.pluck(docsToUpdate, '_id');
        this.pass(ids);
        if (!ids.length && params.upsert) {
            col.update(params.query, params.update,
                {upsert: true, multi: true}, this.slot());
        } else {
            col.update({_id: {$in: ids}}, params.update,
                {multi: true}, this.slot());
        }
    }, function(err, updatedIds, result) {
        this.pass(updatedIds.length);
        var ids = updatedIds.length ? updatedIds : _.pluck(result.upserted, '_id');
        if (ids.length) {
            self.find(_.extend({}, params, {query: {_id: {$in: ids}}}),
                this.slot());
        } else {
            this.pass([]);
        }
    }, function(err, updated, docs) {
       if (!docs.length) {
           this.pass([]);
       } else if (updated) {
           self._runHooks(self._hooks.after.update, docs, this.slot());
       } else {
           self._runHooks(self._hooks.after.upsert, docs, this.slot());
       }
    }, cb);
>>
    In the first step [find] asks for the collection on its own while the
    step's [_collection] is still waiting.  Both calls of [find] are given
    the caller's params, [skip] and [limit] included. *)
Definition updateAll (p : update_params) : M (list value) :=
  q ← lift (makeQuery (u_query p));
  let srt := match u_sort p with VUndef => by_key | s => s end in
  docsToUpdate ← updateAll_snapshot q srt (u_skip p) (u_limit p);
  let ids := pluck (VArr docsToUpdate) "_id" in
  result ← (if negb (nonempty ids) && truthy (u_upsert p)
            then call_store (Update q (u_update p) upsert_multi)
                            (col_update st q (u_update p) upsert_multi)
            else call_store (Update (by_ids ids) (u_update p) multi)
                            (col_update st (by_ids ids) (u_update p) multi));
  let updated := nonempty ids in
  ids' ← (if nonempty ids then mret ids
          else upserted ← lift (member result "upserted"); mret (pluck upserted "_id"));
  ds ← (if nonempty ids'
        then find {| query := by_ids ids'; fields := u_fields p; sort := srt;
                     skip := u_skip p; limit := u_limit p |}
        else mret []);
  if negb (nonempty ds) then mret []
  else if updated then
    hs ← gets (fun w => after_update (hooks (self w)));
    out ← runHooks hs ds;
    slot out
  else
    hs ← gets (fun w => after_upsert (hooks (self w)));
    out ← runHooks hs ds;
    slot out.

End WithStore.

Arguments World {st} self data seed log.
Arguments self {st} w.
Arguments data {st} w.
Arguments seed {st} w.
Arguments log {st} w.

(** The same params with other [skip] and [limit]. *)
Definition with_window (p : find_params) (sk li : value) : find_params :=
  {| query := query p; fields := fields p; sort := sort p; skip := sk; limit := li |}.

(** The same params with another query. *)
Definition with_query (p : find_params) (q : value) : find_params :=
  {| query := q; fields := fields p; sort := sort p; skip := skip p; limit := limit p |}.

(** A [skip] or [limit] parameter read as a number: a positive number
    stands for itself, a falsy value (absent, null, 0) for none. *)
Definition reads_as (v : value) (k : Z) : Prop :=
  (v = VNum k ∧ 0 < k) ∨ (truthy v = false ∧ k = 0).

(** What a window of [skip] [s] and [limit] [l] lets through of a list: the
    first [s] are left out, and of the others the first [l] are kept, all of
    them when [l] is 0. *)
Definition window (s l : Z) (xs : list value) : list value :=
  let ys := drop (Z.to_nat s) xs in
  if l =? 0 then ys else take (Z.to_nat l) ys.

(** The world after more calls were recorded. *)
Definition logged {st} (w : world st) (es : list event) : world st :=
  World (self w) (data w) (seed w) (log w ++ es).

(** The events a chain leaves in the log. *)
Definition hook_events (s : chain_state) : list event :=
  map (fun c => Hook c.1 c.2) (cs_trace s).

(** The collection is set up: it has a name and [this._col] is set. *)
Definition ready {st} (w : world st) : Prop :=
  col (self w) = true ∧ truthy (collection (self w)) = true.

(** From [w] to [w1] nothing was written to the store and no handler was
    called; and when the collection was set up already, neither the instance
    nor the collection has changed. *)
Definition silent {st} (w w1 : world st) : Prop :=
  List.filter is_write (log w1) = List.filter is_write (log w)
  ∧ List.filter is_hook (log w1) = List.filter is_hook (log w)
  ∧ (col (self w) = true → self w1 = self w ∧ data w1 = data w).

(** *** What the layer assumes of the store

    The store's contract, for the statements that need one: documents have
    distinct keys; a find yields stored documents, each once; a find by
    [{_id: {$in: ids}}] yields the stored documents with those keys; a
    multi-update without upsert neither adds nor drops documents nor rewrites
    a key, and reports no upserted key; a projection on [{_id: true}] keeps
    the key. *)
Record lawful (st : store) : Type := Lawful {
  valid : db st -> Prop;
  keys : db st -> list value;
  ensureIndex_valid : forall d r d',
    col_ensureIndex st d = (r, d') -> valid d -> valid d';
  select_keys : forall q srt d xs,
    valid d -> col_select st q srt d = Ok xs ->
    NoDup (pluck (VArr xs) "_id") /\
    forall k, k ∈ pluck (VArr xs) "_id" -> k ∈ keys d;
  select_by_ids : forall ids srt d xs,
    valid d -> col_select st (by_ids ids) srt d = Ok xs ->
    forall k, k ∈ pluck (VArr xs) "_id" <-> k ∈ ids /\ k ∈ keys d;
  update_keys : forall f u d r d',
    valid d -> col_update st f u multi d = (Ok r, d') ->
    valid d' /\ forall k, k ∈ keys d' <-> k ∈ keys d;
  update_report : forall f u d r d',
    col_update st f u multi d = (Ok r, d') ->
    exists ups, member r "upserted" = Ok ups /\ pluck ups "_id" = [];
  project_key : forall d,
    prop (col_project st key_only d) "_id" = prop d "_id"
}.

End Tenge.

(** ** A store to run the layer on *)

Module MemStore.
Import JS Driver.

(** The collection: its documents in insertion order, the number of
    ObjectIds handed out, and whether the unique index on [id] exists. *)
Record state : Type := State {
  items : list value;
  next_oid : nat;
  unique_id : bool
}.

Definition empty : state := {| items := []; next_oid := 0; unique_id := false |}.

Definition oid (n : nat) : value := VOid ("oid-" +:+ pretty n).

(** *** Matching *)

Definition is_operator (k : string) : bool :=
  match k with
  | String c _ => Ascii.eqb c (Ascii.ascii_of_nat 36)
  | EmptyString => false
  end.

(** One operator of a condition such as [{$in: [...]}]. *)
Definition operator_holds (op : string * value) (v : value) : bool :=
  let '(name, arg) := op in
  if String.eqb name "$in" then
    match arg with VArr xs => existsb (value_eqb v) xs | _ => false end
  else if String.eqb name "$ne" then negb (value_eqb v arg)
  else if String.eqb name "$lt" then
    match v, arg with VNum a, VNum b => a <? b | _, _ => false end
  else if String.eqb name "$gt" then
    match v, arg with VNum a, VNum b => b <? a | _, _ => false end
  else false.

(** A field's condition: operators, or equality with a value. *)
Definition condition_holds (c v : value) : bool :=
  match c with
  | VObj ((k, a) :: ops) =>
      if is_operator k then forallb (fun op => operator_holds op v) ((k, a) :: ops)
      else value_eqb c v
  | _ => value_eqb c v
  end.

Definition matches (q d : value) : bool :=
  match q with
  | VObj ps => forallb (fun kc => condition_holds kc.2 (prop d kc.1)) ps
  | _ => true
  end.

(** *** Sorting by the first key of the sort specification *)

Definition value_leb (a b : value) : bool :=
  match a, b with
  | VNum x, VNum y => x <=? y
  | VStr x, VStr y | VOid x, VOid y =>
      match String.compare x y with Gt => false | _ => true end
  | _, _ => true
  end.

Fixpoint place (leb : value -> value -> bool) (d : value) (ds : list value) : list value :=
  match ds with
  | [] => [d]
  | e :: ds' => if leb d e then d :: e :: ds' else e :: place leb d ds'
  end.

Definition sorted_by (srt : option value) (ds : list value) : list value :=
  match srt with
  | Some (VObj ((k, VNum dir) :: _)) =>
      let leb a b := if 0 <=? dir then value_leb (prop a k) (prop b k)
                     else value_leb (prop b k) (prop a k) in
      foldr (place leb) [] ds
  | _ => ds
  end.

(** *** Projection *)

Definition project (fields d : value) : value :=
  match fields, d with
  | VObj [], _ => d
  | VObj fs, VObj ps =>
      let asked k := truthy (default VUndef (assoc k fs)) in
      if existsb (fun f => truthy f.2) fs then
        VObj (List.filter
                (fun kv => if String.eqb kv.1 "_id"
                           then match assoc "_id" fs with Some f => truthy f | None => true end
                           else asked kv.1) ps)
      else VObj (List.filter (fun kv => negb (bool_decide (is_Some (assoc kv.1 fs)))) ps)
  | _, _ => d
  end.

(** *** Updates: [{$set: {...}}] *)

Definition set_fields (u : value) : list (string * value) :=
  match prop u "$set" with
  | VObj fs => fs
  | _ => []
  end.

Definition apply_update (u d : value) : value :=
  match d with
  | VObj ps => VObj (foldl (fun acc f => assign f.1 f.2 acc) ps (set_fields u))
  | _ => d
  end.

(** The key of a document cannot be rewritten. *)
Definition rewrites_key (u : value) : bool :=
  bool_decide (is_Some (assoc "_id" (set_fields u))).

(** The document an upsert creates: the equalities of the query, then the
    update, under a new key. *)
Definition seed_document (q u : value) (n : nat) : value :=
  let eqs := match q with
             | VObj ps =>
                 List.filter (fun kc => negb (is_operator kc.1) &&
                                match kc.2 with
                                | VObj ((k, _) :: _) => negb (is_operator k)
                                | _ => true
                                end) ps
             | _ => []
             end in
  apply_update u (VObj (assign "_id" (oid n) eqs)).

(** *** The collection's operations *)

Definition ensureIndex (s : state) : result unit * state :=
  (Ok tt, {| items := items s; next_oid := next_oid s; unique_id := true |}).

Definition duplicate (s : state) (d : value) : bool :=
  existsb (fun e => value_eqb (prop e "_id") (prop d "_id")
                    || (unique_id s && value_eqb (prop e "id") (prop d "id")))
          (items s).

(** Documents go in one by one; the first that breaks an index stops the
    batch, the ones before it stay. *)
Fixpoint insert (ds : list value) (s : state) : result (list value) * state :=
  match ds with
  | [] => (Ok [], s)
  | VObj ps :: rest =>
      let '(d, n) := match assoc "_id" ps with
                     | Some _ => (VObj ps, next_oid s)
                     | None => (VObj (assign "_id" (oid (next_oid s)) ps), S (next_oid s))
                     end in
      if duplicate s d then (Err (StoreError (VStr "E11000 duplicate key error")), s)
      else
        match insert rest {| items := items s ++ [d]; next_oid := n; unique_id := unique_id s |} with
        | (Ok rest', s') => (Ok (d :: rest'), s')
        | (Err e, s') => (Err e, s')
        end
  | _ :: _ => (Err (StoreError (VStr "document must be an object")), s)
  end.

Definition select (q : value) (srt : option value) (s : state) : result (list value) :=
  Ok (sorted_by srt (List.filter (matches q) (items s))).

Definition remove (q : value) (s : state) : result value * state :=
  let gone := List.filter (matches q) (items s) in
  (Ok (VObj [("n", VNum (Z.of_nat (length gone)))]),
   {| items := List.filter (fun d => negb (matches q d)) (items s);
      next_oid := next_oid s; unique_id := unique_id s |}).

Definition update (q u options : value) (s : state) : result value * state :=
  if rewrites_key u then (Err (StoreError (VStr "Mod on _id not allowed")), s)
  else
    let hit := List.filter (matches q) (items s) in
    match hit with
    | [] =>
        if truthy (prop options "upsert") then
          let d := seed_document q u (next_oid s) in
          (Ok (VObj [("n", VNum 1);
                     ("upserted", VArr [VObj [("index", VNum 0); ("_id", prop d "_id")]])]),
           {| items := items s ++ [d]; next_oid := S (next_oid s); unique_id := unique_id s |})
        else (Ok (VObj [("n", VNum 0)]), s)
    | first :: _ =>
        let touched d :=
          if truthy (prop options "multi") then matches q d
          else matches q d && value_eqb (prop d "_id") (prop first "_id") in
        (Ok (VObj [("n", VNum (Z.of_nat (length (List.filter touched (items s)))))]),
         {| items := map (fun d => if touched d then apply_update u d else d) (items s);
            next_oid := next_oid s; unique_id := unique_id s |})
    end.

Definition findAndModify (p : fam_params) (s : state) : result (value * value) * state :=
  if rewrites_key (fam_update p) then (Err (StoreError (VStr "Mod on _id not allowed")), s)
  else
    let srt := if truthy (fam_sort p) then Some (fam_sort p) else None in
    let flds := match fam_fields p with VUndef => VObj [] | f => f end in
    match sorted_by srt (List.filter (matches (fam_query p)) (items s)) with
    | [] =>
        if truthy (fam_upsert p) then
          let d := seed_document (fam_query p) (fam_update p) (next_oid s) in
          (Ok (if fam_new p then project flds d else VNull,
               VObj [("updatedExisting", VBool false); ("n", VNum 1);
                     ("upserted", prop d "_id")]),
           {| items := items s ++ [d]; next_oid := S (next_oid s); unique_id := unique_id s |})
        else (Ok (VNull, VObj [("updatedExisting", VBool false); ("n", VNum 0)]), s)
    | first :: _ =>
        let d := apply_update (fam_update p) first in
        (Ok (project flds (if fam_new p then d else first),
             VObj [("updatedExisting", VBool true); ("n", VNum 1)]),
         {| items := map (fun e => if value_eqb (prop e "_id") (prop first "_id")
                                   then d else e) (items s);
            next_oid := next_oid s; unique_id := unique_id s |})
    end.

Definition mem : store :=
  {| db := state;
     col_ensureIndex := ensureIndex;
     col_insert := insert;
     col_select := select;
     col_project := project;
     col_remove := remove;
     col_update := update;
     col_findAndModify := findAndModify |}.

End MemStore.

(** ** Fixtures *)

(** The handlers, the collection and the calls of the repository's tests. *)
Module Fixtures.
Import JS Hooks Driver Tenge.



(** Two handlers: the first refuses a batch that holds a document named
    "bad", the second stamps every document it is given. *)
Definition named (name : string) : value := VObj [("name", VStr name)].

Definition validate : handler :=
  {| h_name := "validate";
     h_same := true;
     h_run := fun ds n =>
       (ds, n,
        if existsb (fun d => value_eqb (prop d "name") (VStr "bad")) ds
        then Some (HookError (VStr "invalid")) else None) |}.

Definition stamp : handler :=
  {| h_name := "stamp";
     h_same := true;
     h_run := fun ds n =>
       ((fun d => match d with
                  | VObj ps => VObj (assign "stamped" (VBool true) ps)
                  | _ => d
                  end) <$> ds, n, None) |}.

(** Bob and his friends. *)
Definition person (name : string) (age : Z) (id key : string) : value :=
  VObj [("name", VStr name); ("age", VNum age); ("id", VStr id); ("_id", VOid key)].

Definition friends : MemStore.state :=
  {| MemStore.items :=
       [ person "Bob" 17 "sid-0" "oid-0"; person "Alice" 17 "sid-1" "oid-1";
         person "Chris" 17 "sid-2" "oid-2"; person "Paul" 16 "sid-3" "oid-3";
         person "Waldo" 20 "sid-4" "oid-4" ];
     MemStore.next_oid := 5;
     MemStore.unique_id := true |}.

Definition mark (name field : string) : handler :=
  {| h_name := name;
     h_same := true;
     h_run := fun ds n =>
       ((fun d => match d with
                  | VObj ps => VObj (assign field (VBool true) ps)
                  | _ => d
                  end) <$> ds, n, None) |}.

Definition model : tenge :=
  {| collection := VStr "unittests";
     hooks := {| before_insert := [default_id_hook];
                 before_remove := [];
                 after_insert := [];
                 after_update := [mark "after update" "updated"];
                 after_upsert := [mark "after upsert" "upserted"];
                 after_remove := [] |};
     col := true |}.

Definition world0 : world MemStore.mem := @World MemStore.mem model friends 5 [].

Definition set_hobby (h : string) : value := VObj [("$set", VObj [("hobby", VStr h)])].

Definition update_where (q u ups : value) : update_params :=
  {| u_query := q; u_update := u; u_fields := VUndef; u_sort := VUndef; u_upsert := ups;
     u_skip := VUndef; u_limit := VUndef |}.

(** A handler before remove that keeps the first two documents only, as in
    the repository's test. *)
Definition keep_two : handler :=
  {| h_name := "keep two"; h_same := true; h_run := fun ds n => (take 2 ds, n, None) |}.

Definition guarded_model : tenge :=
  {| collection := VStr "unittests";
     hooks := {| before_insert := [default_id_hook];
                 before_remove := [keep_two];
                 after_insert := [];
                 after_update := [];
                 after_upsert := [];
                 after_remove := [mark "after remove" "removed"] |};
     col := true |}.

Definition guarded_world : world MemStore.mem := @World MemStore.mem guarded_model friends 5 [].

Definition find_where (q : value) : find_params :=
  {| query := q; fields := VUndef; sort := VUndef; skip := VUndef; limit := VUndef |}.


(** A model that has not reached its collection yet, over an empty store. *)
Definition fresh : world MemStore.mem :=
  @World MemStore.mem (new (VStr "unittests")) MemStore.empty 0 [].

(** A model that was given no collection name. *)
Definition nameless : world MemStore.mem :=
  @World MemStore.mem (new VUndef) friends 5 [].

Definition nothing : insert_params := {| doc := VUndef; docs := VUndef |}.

Definition levitate : update_params :=
  update_where (VObj [("age", VNum 150)]) (set_hobby "levitate") VUndef.

Definition levitate_or_create : update_params :=
  update_where (VObj [("age", VNum 150)]) (set_hobby "levitate") (VBool true).

Definition minors : value := VObj [("age", VObj [("$lt", VNum 20)])].
Definition chess : update_params := update_where minors (set_hobby "chess") VUndef.

(** The same update with [skip: 1]. *)
Definition chess_after_one : update_params :=
  {| u_query := minors; u_update := set_hobby "chess"; u_fields := VUndef;
     u_sort := VUndef; u_upsert := VUndef; u_skip := VNum 1; u_limit := VUndef |}.

Definition levitate_or_create_after_one : update_params :=
  {| u_query := VObj [("age", VNum 150)]; u_update := set_hobby "levitate";
     u_fields := VUndef; u_sort := VUndef; u_upsert := VBool true;
     u_skip := VNum 1; u_limit := VUndef |}.

(** The friends under 20 by name, the first left out and three taken. *)
Definition minors_by_name : find_params :=
  {| query := minors; fields := VUndef; sort := VObj [("name", VNum 1)];
     skip := VNum 1; limit := VNum 3 |}.

Definition keyed (k : string) : value := VObj [("_id", VOid k)].

Definition player (name : string) (age : Z) (id key : string) : value :=
  VObj [("name", VStr name); ("age", VNum age); ("id", VStr id); ("_id", VOid key);
        ("hobby", VStr "chess"); ("updated", VBool true)].

Definition seventeen : find_params := find_where (VObj [("age", VNum 17)]).

Definition sports : update_params :=
  update_where (VObj [("age", VNum 16)]) (set_hobby "sports") VUndef.

(** A query whose [id] condition is an object of the caller's, and whose
    marker asks for a condition on [id] as well. *)
Definition shared_query : value :=
  VObj [("id", VObj [("$ne", VStr "x")]); ("$$", VObj [("ids", VArr [VStr "a"])])].

(** [params] as the caller holds it before the call of [_makeQuery], and
    what the call returns together with [params] as the caller holds it
    afterwards. *)
Definition around_makeQuery (q : value) : value * result (value * value) :=
  let '(params, h0) := Refs.store_value (VObj [("query", q)]) [] in
  (Refs.snapshot h0 params,
   '(out, h1) ← Refs._makeQuery params h0;
   Ok (Refs.snapshot h1 out, Refs.snapshot h1 params)).

End Fixtures.

(** * Properties *)

(** ** Hook chains *)

Section HookChains.
Import JS Hooks.

(** A chain, handler by handler. *)
Fixpoint run_from (hs : list handler) (s : chain_state) : chain_state * option error :=
  match hs with
  | [] => (s, None)
  | h :: hs' =>
      match call h s with
      | (s', None) => run_from hs' s'
      | (s', Some e) => (s', Some e)
      end
  end.

Definition link (c : chain) (hook : handler) : chain := then_ c (call hook).

Lemma fold_then (hs : list handler) (c : chain) (s : chain_state) :
  fold_left link hs c s =
  match c s with
  | (s', None) => run_from hs s'
  | (s', Some e) => (s', Some e)
  end.
Proof.
  revert c s. induction hs as [|h hs IH]; intros c s; simpl.
  - destruct (c s) as [s' [e|]]; reflexivity.
  - rewrite IH. unfold link, then_.
    destruct (c s) as [s' [e|]]; [reflexivity|].
    destruct (call h s') as [s'' [e|]]; reflexivity.
Qed.

Lemma runHooks_run_from (hs : list handler) (ds : list value) (n : nat) :
  _runHooks hs ds n = run_from hs {| cs_docs := ds; cs_seed := n; cs_trace := [] |}.
Proof. unfold _runHooks. apply (fold_then hs when_null). Qed.

Lemma run_from_app (hs1 hs2 : list handler) (s : chain_state) :
  run_from (hs1 ++ hs2) s =
  match run_from hs1 s with
  | (s', None) => run_from hs2 s'
  | (s', Some e) => (s', Some e)
  end.
Proof.
  revert s. induction hs1 as [|h hs1 IH]; intros s; simpl; [reflexivity|].
  destruct (call h s) as [s' [e|]]; [reflexivity|]. apply IH.
Qed.

(** What a run adds to the trace: calls of the first [k] handlers, in order,
    the first of them with the documents the run started from. *)
Lemma run_from_trace (hs : list handler) (s : chain_state) :
  ∃ t k, cs_trace (run_from hs s).1 = cs_trace s ++ t
         ∧ t.*1 = take k (h_name <$> hs)
         ∧ ((run_from hs s).2 = None → k = length hs)
         ∧ head t = (fun h => (h_name h, cs_docs s)) <$> head hs.
Proof.
  revert s. induction hs as [|h hs IH]; intros s; simpl.
  - exists [], 0%nat. rewrite app_nil_r. done.
  - destruct (call h s) as [s' [e|]] eqn:C; unfold call in C;
      destruct (h_run h (cs_docs s) (cs_seed s)) as [[d sd] o]; simplify_eq; simpl.
    + exists [(h_name h, cs_docs s)], 1%nat. repeat split; try done.
    + destruct (IH {| cs_docs := d; cs_seed := sd;
                      cs_trace := cs_trace s ++ [(h_name h, cs_docs s)] |})
        as (t & k & Ht & Hk & Hn & _).
      exists ((h_name h, cs_docs s) :: t), (S k). simpl in *.
      rewrite Ht, <- app_assoc. repeat split; try done.
      * f_equal. exact Hk.
      * intros E. rewrite (Hn E). done.
Qed.

Lemma run_from_shift (hs : list handler) (s : chain_state) :
  run_from hs s =
  let r := run_from hs {| cs_docs := cs_docs s; cs_seed := cs_seed s; cs_trace := [] |} in
  ({| cs_docs := cs_docs r.1; cs_seed := cs_seed r.1;
      cs_trace := cs_trace s ++ cs_trace r.1 |}, r.2).
Proof.
  revert s. induction hs as [|h hs IH]; intros [ds n t]; simpl.
  - by rewrite app_nil_r.
  - unfold call. simpl. destruct (h_run h ds n) as [[d sd] [e|]]; simpl; [done|].
    rewrite (IH {| cs_docs := d; cs_seed := sd; cs_trace := t ++ [(h_name h, ds)] |}).
    rewrite (IH {| cs_docs := d; cs_seed := sd; cs_trace := [(h_name h, ds)] |}).
    simpl. by rewrite <- app_assoc.
Qed.

(** X13.  The chain over handlers registered in two batches is the chain over the
    first batch followed, when that one succeeds, by the chain over the
    second batch on the documents and the identifier generator the first
    left; when the first batch fails, the second is not run. *)
Theorem runHooks_of_two_lists (hs1 hs2 : list handler) (ds : list value) (n : nat) :
  let r1 := _runHooks hs1 ds n in
  let r2 := _runHooks hs2 (cs_docs r1.1) (cs_seed r1.1) in
  _runHooks (hs1 ++ hs2) ds n =
    match r1.2 with
    | Some e => r1
    | None => ({| cs_docs := cs_docs r2.1; cs_seed := cs_seed r2.1;
                  cs_trace := cs_trace r1.1 ++ cs_trace r2.1 |}, r2.2)
    end.
Proof.
  intros r1 r2. subst r1 r2. rewrite !runHooks_run_from, run_from_app.
  destruct (run_from hs1 _) as [s1 [e|]]; simpl; [done|].
  by rewrite run_from_shift.
Qed.

End HookChains.



(** ** One chain per run, not one per document *)

(** C7 does not hold of the code.  Over the two documents "bad" and "good"
    the code calls [Fixtures.validate] once, with both documents as its
    target, and stops with its error: [Fixtures.stamp] is not called and
    "good" is not stamped.  Run on "good" alone the same handlers succeed
    and stamp it: it is the other document's failure that has kept "good"
    from its handlers. *)
Lemma runHooks_is_one_chain_for_all_documents :
  let hs := [Fixtures.validate; Fixtures.stamp] in
  let r := Hooks._runHooks hs [Fixtures.named "bad"; Fixtures.named "good"] 0 in
  let alone := Hooks._runHooks hs [Fixtures.named "good"] 0 in
  Hooks.cs_trace r.1 = [("validate", [Fixtures.named "bad"; Fixtures.named "good"])]
  ∧ Hooks.cs_docs r.1 = [Fixtures.named "bad"; Fixtures.named "good"]
  ∧ r.2 = Some (JS.HookError (JS.VStr "invalid"))
  ∧ alone.2 = None
  ∧ Hooks.cs_trace alone.1 =
      [("validate", [Fixtures.named "good"]); ("stamp", [Fixtures.named "good"])]
  ∧ Hooks.cs_docs alone.1 =
      [JS.VObj [("name", JS.VStr "good"); ("stamped", JS.VBool true)]].
Proof. vm_compute. repeat split. Qed.

Lemma run_from_trace_length (hs : list Hooks.handler) (s : Hooks.chain_state) :
  ∃ t, Hooks.cs_trace (run_from hs s).1 = Hooks.cs_trace s ++ t
       ∧ (length t ≤ length hs)%nat
       ∧ ((run_from hs s).2 = None → length t = length hs).
Proof.
  destruct (run_from_trace hs s) as (t & k & Ht & Hk & Hn & _).
  exists t. split; [exact Ht|].
  assert (E : length t = length (take k (Hooks.h_name <$> hs))).
  { by rewrite <- Hk, length_fmap. }
  rewrite length_take, length_fmap in E. split; [lia|].
  intros H. rewrite (Hn H) in E. lia.
Qed.

(** C7, as it holds.  A hook run over a sequence of documents is a single
    chain whose target is the whole sequence, not one chain per document.
    The handlers are called in the order they were registered, each at most
    once and with all the documents at a time: the first is given the
    entire sequence, and the handler at position [i] is called exactly when
    the handlers before it have all succeeded, with the documents they have
    left.  After the first failure no handler is called any more, whichever
    document the failure was about, and the chain ends with that error. *)
Theorem runHooks_runs_one_chain_over_the_sequence
    (hs : list Hooks.handler) (ds : list JS.value) (n : nat) :
  let r := Hooks._runHooks hs ds n in
  let before i := Hooks._runHooks (take i hs) ds n in
  (length (Hooks.cs_trace r.1) ≤ length hs)%nat
  ∧ head (Hooks.cs_trace r.1) = (fun h => (Hooks.h_name h, ds)) <$> head hs
  ∧ (∀ i h, hs !! i = Some h → (before i).2 = None →
       Hooks.cs_trace r.1 !! i = Some (Hooks.h_name h, Hooks.cs_docs (before i).1))
  ∧ (∀ i e, (before i).2 = Some e →
       Hooks.cs_trace r.1 !! i = None ∧ r = before i)
  ∧ (r.2 = None → length (Hooks.cs_trace r.1) = length hs).
Proof.
  intros r before. subst r before. cbv beta. rewrite runHooks_run_from.
  set (s0 := {| Hooks.cs_docs := ds; Hooks.cs_seed := n; Hooks.cs_trace := [] |}).
  destruct (run_from_trace_length hs s0) as (t & Ht & Hlen & Hnone).
  destruct (run_from_trace hs s0) as (t' & k & Ht' & _ & _ & Hh).
  simpl in Ht, Ht'. rewrite Ht' in Ht. subst t'.
  split_and!.
  - by rewrite Ht'.
  - by rewrite Ht'.
  - intros i h Hi Hb. rewrite runHooks_run_from in *. fold s0 in Hb |- *.
    rewrite <- (take_drop i hs) at 1. rewrite run_from_app.
    destruct (run_from_trace_length (take i hs) s0) as (ti & Hti & _ & Hni).
    destruct (run_from (take i hs) s0) as [si [e|]] eqn:Ri; [discriminate|].
    simpl in Hti, Hni |- *. specialize (Hni eq_refl).
    rewrite length_take in Hni.
    assert (Hlt : (i < length hs)%nat) by (by eapply lookup_lt_Some).
    rewrite (drop_S _ _ _ Hi). cbn [run_from].
    unfold Hooks.call at 1.
    destruct (Hooks.h_run h (Hooks.cs_docs si) (Hooks.cs_seed si)) as [[d sd] o].
    set (s' := {| Hooks.cs_docs := d; Hooks.cs_seed := sd;
                  Hooks.cs_trace := Hooks.cs_trace si ++ [(Hooks.h_name h, Hooks.cs_docs si)] |}).
    assert (Hs' : Hooks.cs_trace s' !! i = Some (Hooks.h_name h, Hooks.cs_docs si)).
    { unfold s'. simpl. rewrite Hti. simpl.
      replace i with (length ti) at 1 by lia. by apply list_lookup_middle. }
    destruct o as [e|]; [exact Hs'|].
    destruct (run_from_trace_length (drop (S i) hs) s') as (tr & Htr & _).
    rewrite Htr. by apply lookup_app_l_Some.
  - intros i e Hb. rewrite runHooks_run_from in *. fold s0 in Hb |- *.
    destruct (decide (i ≤ length hs)%nat) as [Hle|Hgt].
    2: { rewrite take_ge in Hb |- * by lia. split; [|done].
         apply lookup_ge_None_2. rewrite Ht'. simpl. lia. }
    assert (E : run_from hs s0 = run_from (take i hs ++ drop i hs) s0)
      by (by rewrite take_drop).
    rewrite E, run_from_app.
    destruct (run_from_trace_length (take i hs) s0) as (ti & Hti & Hli & _).
    destruct (run_from (take i hs) s0) as [si [e'|]] eqn:Ri; [|discriminate].
    simpl in *. split; [|done]. rewrite Hti. apply lookup_ge_None_2.
    rewrite length_take in Hli. lia.
  - intros Hn. rewrite Ht'. by apply Hnone.
Qed.

(** ** Trees in and out of the object store *)

Section Trees.
Import JS Refs.

Lemma value_ind' (P : value → Prop) :
  P VUndef → P VNull → (∀ b, P (VBool b)) → (∀ n, P (VNum n)) →
  (∀ s, P (VStr s)) → (∀ x, P (VOid x)) →
  (∀ xs, Forall P xs → P (VArr xs)) →
  (∀ ps, Forall (fun kv => P kv.2) ps → P (VObj ps)) →
  ∀ v, P v.
Proof.
  intros Hu Hn Hb Hz Hs Ho Ha Hp. fix IH 1.
  intros [| |b|n|s|x|xs|ps]; [exact Hu|exact Hn|apply Hb|apply Hz|apply Hs|apply Ho| |].
  - apply Ha. induction xs as [|x xs IHxs]; constructor; [apply IH|exact IHxs].
  - apply Hp. induction ps as [|[k x] ps IHps]; constructor; [apply IH|exact IHps].
Qed.

(** A tree stored at the end of [h] is read back from any store that
    extends the result, given fuel for the objects it added. *)
Definition stored_ok (v : value) : Prop :=
  ∀ h, ∃ r ext, store_value v h = (r, h ++ ext) ∧
    ∀ h2 fuel, (length ext ≤ fuel)%nat → load_value fuel (h ++ ext ++ h2) r = v.

Lemma store_items_ok xs :
  Forall stored_ok xs →
  ∀ h, ∃ rs ext, store_items store_value xs h = (rs, h ++ ext) ∧
    ∀ h2 fuel, (length ext ≤ fuel)%nat → load_value fuel (h ++ ext ++ h2) <$> rs = xs.
Proof.
  induction 1 as [|x xs Hx _ IH]; intros h; simpl.
  - exists [], []. rewrite app_nil_r. done.
  - destruct (Hx h) as (r & e1 & -> & Hr).
    destruct (IH (h ++ e1)) as (rs & e2 & -> & Hrs).
    exists (r :: rs), (e1 ++ e2). rewrite <- app_assoc. split; [done|].
    intros h2 fuel Hf. rewrite length_app in Hf. simpl. f_equal.
    + rewrite <- app_assoc. apply Hr. lia.
    + specialize (Hrs h2 fuel). rewrite <- !app_assoc in *. apply Hrs. lia.
Qed.

Lemma store_props_ok ps :
  Forall (fun kv => stored_ok kv.2) ps →
  ∀ h, ∃ rs ext, store_props store_value ps h = (rs, h ++ ext) ∧ rs.*1 = ps.*1 ∧
    ∀ h2 fuel, (length ext ≤ fuel)%nat →
      (fun kv => (kv.1, load_value fuel (h ++ ext ++ h2) kv.2)) <$> rs = ps.
Proof.
  induction 1 as [|[k x] ps Hx _ IH]; intros h; simpl.
  - exists [], []. rewrite app_nil_r. done.
  - simpl in Hx. destruct (Hx h) as (r & e1 & -> & Hr).
    destruct (IH (h ++ e1)) as (rs & e2 & -> & Hk & Hrs).
    exists ((k, r) :: rs), (e1 ++ e2). rewrite <- app_assoc. split; [done|].
    split; [simpl; f_equal; exact Hk|].
    intros h2 fuel Hf. rewrite length_app in Hf. simpl. f_equal.
    + f_equal. rewrite <- app_assoc. apply Hr. lia.
    + specialize (Hrs h2 fuel). rewrite <- !app_assoc in *. apply Hrs. lia.
Qed.

Lemma lookup_allocated (h e h2 : heap) (c : cell) :
  (h ++ (e ++ [c]) ++ h2) !! length (h ++ e) = Some c.
Proof.
  replace (h ++ (e ++ [c]) ++ h2) with ((h ++ e) ++ c :: h2)
    by (rewrite <- !app_assoc; done).
  by apply list_lookup_middle.
Qed.

Lemma store_value_ok v : stored_ok v.
Proof.
  induction v as [| | | | | |xs IH|ps IH] using value_ind'; intros h;
    try (eexists _, []; rewrite app_nil_r; split; [reflexivity|]; intros h2 [|f] _; reflexivity).
  - destruct (store_items_ok xs IH h) as (rs & e & Hs & Hl).
    exists (RRef (length (h ++ e))), (e ++ [CArr rs]). simpl. rewrite Hs.
    unfold alloc. rewrite <- app_assoc. split; [done|].
    intros h2 [|fuel] Hf; rewrite length_app in Hf; simpl in Hf; [lia|]. simpl.
    rewrite lookup_allocated.
    f_equal. specialize (Hl ([CArr rs] ++ h2) fuel).
    rewrite <- !app_assoc in *. apply Hl. lia.
  - destruct (store_props_ok ps IH h) as (rs & e & Hs & Hk & Hl).
    exists (RRef (length (h ++ e))), (e ++ [CObj rs]). simpl. rewrite Hs.
    unfold alloc. rewrite <- app_assoc. split; [done|].
    intros h2 [|fuel] Hf; rewrite length_app in Hf; simpl in Hf; [lia|]. simpl.
    rewrite lookup_allocated.
    f_equal. specialize (Hl ([CObj rs] ++ h2) fuel).
    rewrite <- !app_assoc in *. apply Hl. lia.
Qed.

Lemma assoc_absent {A} (k : string) (ps : list (string * A)) :
  k ∉ ps.*1 → assoc k ps = None.
Proof.
  induction ps as [|[k' v] ps IH]; simpl; [done|]. intros Hn.
  apply not_elem_of_cons in Hn as [Hne Hn].
  destruct (String.eqb_spec k k'); [done|]. by apply IH.
Qed.

Lemma assoc_present {A} (k : string) (v : A) (ps : list (string * A)) :
  NoDup ps.*1 → (k, v) ∈ ps → assoc k ps = Some v.
Proof.
  induction ps as [|[k' v'] ps IH]; simpl; intros Hd Hin.
  - by apply elem_of_nil in Hin.
  - apply NoDup_cons in Hd as [Hk Hd].
    apply elem_of_cons in Hin as [Heq|Hin].
    + simplify_eq. by rewrite String.eqb_refl.
    + destruct (String.eqb_spec k k') as [->|_]; [|by apply IH].
      exfalso. apply Hk. by apply (list_elem_of_fmap_2 fst _ (k', v)).
Qed.

Lemma entries_of_props {A} (d : A) (ps : list (string * A)) :
  NoDup ps.*1 → (fun k => (k, default d (assoc k ps))) <$> ps.*1 = ps.
Proof.
  intros Hd.
  assert (H : ∀ qs, (∀ kv, kv ∈ qs → kv ∈ ps) →
            (fun k => (k, default d (assoc k ps))) <$> qs.*1 = qs).
  { induction qs as [|[k v] qs IH]; intros Hsub; simpl; [done|].
    rewrite (assoc_present k v ps Hd) by (apply Hsub; left). simpl. f_equal.
    apply IH. intros kv Hkv. apply Hsub. by right. }
  by apply H.
Qed.

Lemma filter_all {A} (f : A → bool) (xs : list A) :
  Forall (fun x => f x = true) xs → List.filter f xs = xs.
Proof. induction 1 as [|x xs Hx _ IH]; simpl; [done|]. by rewrite Hx, IH. Qed.


Lemma lookup_at (e rest : heap) (c : cell) : (e ++ c :: rest) !! length e = Some c.
Proof. by apply list_lookup_middle. Qed.

Lemma lookup_after (e rest : heap) (c : cell) (i : nat) :
  (e ++ c :: rest) !! (S (length e + i)) = rest !! i.
Proof.
  rewrite lookup_app_r by lia. replace (S (length e + i) - length e)%nat with (S i) by lia.
  done.
Qed.


Section PlainQuery.
Context (e : heap) (rs : list (string * rvalue)).
Context (Hd : NoDup rs.*1) (Hm : "$$" ∉ rs.*1).

(** The store once the params object [{query: q}] is built, [q] being the
    object at [length e], whatever comes after it. *)
Definition built (rest : heap) : heap :=
  e ++ CObj rs :: CObj [("query", RRef (length e))] :: rest.

Lemma built_query rest : (built rest) !! length e = Some (CObj rs).
Proof. apply lookup_at. Qed.

Lemma built_params rest :
  (built rest) !! S (length e) = Some (CObj [("query", RRef (length e))]).
Proof.
  unfold built. replace (S (length e)) with (S (length e + 0)) by lia.
  by rewrite lookup_after.
Qed.

Lemma built_rest rest i : (built rest) !! (length e + 2 + i)%nat = rest !! i.
Proof.
  unfold built. replace (length e + 2 + i)%nat with (S (length e + S i)) by lia.
  by rewrite lookup_after.
Qed.

Lemma built_length rest : length (built rest) = (length e + 2 + length rest)%nat.
Proof. unfold built. rewrite length_app. simpl. lia. Qed.

Lemma get_query rest d :
  get (built rest) (RRef (S (length e))) ["query"] d = RRef (length e).
Proof. unfold get, baseGet, is_nullish, rget. by rewrite built_params. Qed.

Lemma get_marker rest d :
  get (built rest) (RRef (S (length e))) ["query"; "$$"] d = d.
Proof.
  unfold get, baseGet, is_nullish, rget. rewrite built_params. simpl.
  rewrite built_query. simpl. by rewrite (assoc_absent _ _ Hm).
Qed.

Lemma omit_marker rest :
  omit (RRef (length e)) "$$" (built rest) =
  (RRef (length (built rest)), built rest ++ [CObj rs]).
Proof.
  unfold omit, alloc, keys_of, rget. rewrite built_query. do 3 f_equal.
  rewrite <- list_fmap_compose.
  replace ((fun k => (key_name k, default RUndef (assoc (key_name k) rs))) ∘ KName)
    with (fun k => (k, default RUndef (assoc k rs))) by done.
  rewrite (entries_of_props _ _ Hd). f_equal. apply filter_all.
  apply Forall_forall. intros [k v] Hkv. simpl.
  destruct (String.eqb_spec k "$$") as [->|]; [|done].
  exfalso. apply Hm. by apply (list_elem_of_fmap_2 fst _ ("$$", v)).
Qed.

Lemma makeQuery_refs_plain :
  _makeQuery (RRef (S (length e))) (built []) =
  Ok (RRef (length e + 4),
      built [CObj []; CObj rs; CObj [("query", RRef (length e + 3))]]).
Proof.
  unfold _makeQuery, alloc.
  replace (built [] ++ [CObj []]) with (built [CObj []])
    by (unfold built; rewrite <- !app_assoc; done).
  rewrite get_marker, get_query, omit_marker.
  unfold keys_of. rewrite built_length. simpl length.
  replace (built [CObj []] ++ [CObj rs]) with (built [CObj []; CObj rs])
    by (unfold built; rewrite <- !app_assoc; done).
  rewrite (built_length []). simpl length.
  rewrite (built_rest [CObj []; CObj rs] 0). simpl.
  rewrite built_length. simpl length. do 2 f_equal; [f_equal; lia|].
  unfold built. rewrite <- !app_assoc. simpl.
  by replace (length e + 2 + 1)%nat with (length e + 3)%nat by lia.
Qed.

End PlainQuery.

Lemma makeQuery_plain (ps : list (string * value)) :
  NoDup ps.*1 → "$$" ∉ ps.*1 → Tenge.makeQuery (VObj ps) = Ok (VObj ps).
Proof.
  intros Hd Hm. unfold Tenge.makeQuery. simpl.
  assert (Hps : Forall (fun kv => stored_ok kv.2) ps).
  { apply Forall_forall. intros; apply store_value_ok. }
  destruct (store_props_ok ps Hps []) as (rs & e & Hs & Hk & Hl).
  rewrite Hs. simpl. unfold alloc.
  rewrite <- Hk in Hd, Hm.
  replace ((e ++ [CObj rs]) ++ [CObj [("query", RRef (length e))]]) with (built e rs [])
    by (unfold built; rewrite <- app_assoc; done).
  replace (length (e ++ [CObj rs])) with (S (length e)) by (rewrite length_app; simpl; lia).
  rewrite (makeQuery_refs_plain e rs Hd Hm). simpl.
  unfold rget, snapshot. rewrite built_length. simpl length.
  replace (length e + 4)%nat with (length e + 2 + 2)%nat by lia.
  rewrite built_rest. simpl.
  replace (length e + 2 + 3)%nat with (S (length e + 2 + 2)) by lia. simpl.
  replace (length e + 3)%nat with (length e + 2 + 1)%nat by lia.
  rewrite built_rest. simpl. do 2 f_equal.
  unfold built.
  specialize (Hl (CObj rs :: CObj [("query", RRef (length e))] ::
                  [CObj []; CObj rs; CObj [("query", RRef (length e + 2 + 1))]])
                 (length e + 2 + 2)%nat).
  simpl in Hl. apply Hl. lia.
Qed.

(** X1.  A query without the marker [$$] and with distinct keys is its own
    normal form. *)
Theorem makeQuery_keeps_a_query_without_marker (ps : list (string * value)) :
  NoDup ps.*1 → "$$" ∉ ps.*1 → Tenge.makeQuery (VObj ps) = Ok (VObj ps).
Proof. exact (makeQuery_plain ps). Qed.

(** *** Queries with a marker *)

Section Params.
Context (h : heap) (lp lq lm : nat).
Context (pps qs ms : list (string * rvalue)).
Context (Hp : h !! lp = Some (CObj pps)) (Hpq : assoc "query" pps = Some (RRef lq)).
Context (Hq : h !! lq = Some (CObj qs)) (Hqm : assoc "$$" qs = Some (RRef lm)).
Context (Hm : h !! lm = Some (CObj ms)).

Lemma old_cell ext l c : h !! l = Some c → (h ++ ext) !! l = Some c.
Proof. intros H. by apply lookup_app_l_Some. Qed.

Lemma new_cell ext i : (h ++ ext) !! (length h + i)%nat = ext !! i.
Proof. rewrite lookup_app_r by lia. f_equal. lia. Qed.

Lemma marker_of ext d : get (h ++ ext) (RRef lp) ["query"; "$$"] d = RRef lm.
Proof.
  unfold get, baseGet, is_nullish, rget.
  rewrite (old_cell _ _ _ Hp). simpl. rewrite Hpq. simpl.
  rewrite (old_cell _ _ _ Hq). simpl. by rewrite Hqm.
Qed.

Lemma query_of ext d : get (h ++ ext) (RRef lp) ["query"] d = RRef lq.
Proof.
  unfold get, baseGet, is_nullish, rget.
  rewrite (old_cell _ _ _ Hp). simpl. by rewrite Hpq.
Qed.

Lemma omit_query ext :
  NoDup qs.*1 →
  omit (RRef lq) "$$" (h ++ ext) =
  (RRef (length (h ++ ext)),
   (h ++ ext) ++ [CObj (List.filter (fun kv => negb (String.eqb kv.1 "$$")) qs)]).
Proof.
  intros Hd. unfold omit, alloc, keys_of, rget. rewrite (old_cell _ _ _ Hq).
  do 3 f_equal. rewrite <- list_fmap_compose.
  replace ((fun k => (key_name k, default RUndef (assoc (key_name k) qs))) ∘ KName)
    with (fun k => (k, default RUndef (assoc k qs))) by done.
  by rewrite (entries_of_props _ _ Hd).
Qed.

Lemma steps_stay_failed query mm ks e :
  fold_left (fun acc k => h' ← acc; transform_step query mm k h') ks (Err e) = Err e.
Proof. induction ks as [|k ks IH]; simpl; [done|exact IH]. Qed.

Lemma steps_fail_at query mm ks k acc :
  k ∈ ks → assoc (key_name k) _queryTransformers = None →
  ∃ e, fold_left (fun acc k => h' ← acc; transform_step query mm k h') ks acc = Err e.
Proof.
  intros Hin Hk. revert acc. induction ks as [|k' ks IH]; intros acc.
  - by apply elem_of_nil in Hin.
  - simpl. destruct acc as [h'|e]; [|exists e; apply steps_stay_failed].
    apply elem_of_cons in Hin as [<-|Hin]; [|by apply IH].
    simpl. unfold transform_step at 2. rewrite Hk. eexists. apply steps_stay_failed.
Qed.

(** X10.  When [params.query.$$] has a key for which no transformer is
    registered, [_makeQuery] throws; when that key is the first of the
    marker, what it throws is "No query transformer registered for" with
    the key.  The key is not one of the names every object inherits:
    [_queryTransformers] reads such a name as something truthy, and the
    assertion lets it through. *)
Theorem makeQuery_rejects_an_unregistered_marker_key (k : string) :
  k ∈ ms.*1 → k ∉ _queryTransformers.*1 → k ∉ Tenge.inherited →
  (∃ e, _makeQuery (RRef lp) h = Err e)
  ∧ (head ms.*1 = Some k →
     _makeQuery (RRef lp) h =
       Err (Error ("Tenge: No query transformer registered for "
                   +:+ dquote +:+ "$$." +:+ k +:+ dquote))).
Proof.
  intros Hin Hk _. apply assoc_absent in Hk.
  unfold _makeQuery, alloc. rewrite marker_of, query_of.
  destruct (omit (RRef lq) "$$" (h ++ [CObj []])) as [query h1] eqn:Ho.
  assert (Hks : keys_of h1 (RRef lm) = KName <$> ms.*1).
  { unfold omit, alloc in Ho. injection Ho as _ <-. unfold keys_of.
    rewrite <- app_assoc. by rewrite (old_cell _ _ _ Hm). }
  rewrite Hks. split.
  - destruct (steps_fail_at query (RRef lm) (KName <$> ms.*1) (KName k) (Ok h1)) as [e He].
    + by apply list_elem_of_fmap_2.
    + exact Hk.
    + exists e. by rewrite He.
  - intros Hh. destruct (ms.*1) as [|k0 ks]; [done|]. injection Hh as ->.
    simpl. unfold transform_step at 2. simpl key_name. rewrite Hk.
    simpl. by rewrite steps_stay_failed.
Qed.

Lemma merge_atom (g : heap) (l lf : nat) (fs : list (string * rvalue)) (k : string) (v : rvalue) :
  g !! l = Some (CObj fs) → g !! lf = Some (CObj [(k, v)]) → is_atom v = true →
  merge (RRef l) (RRef lf) g = Ok (<[l := CObj (assign k v fs)]> g).
Proof.
  intros Hl Hf Hv. unfold merge. cbn [baseMerge]. unfold keys_of. rewrite Hf. simpl.
  unfold merge_key, rget. rewrite Hf. simpl. rewrite String.eqb_refl. simpl.
  destruct v; try discriminate; simpl; unfold rset; rewrite Hl; reflexivity.
Qed.

(** For a marker [{id: v}] with [v] null, a boolean, a number, a string or
    an ObjectId, [_makeQuery] returns a new params object whose query is a
    new object: the properties of [params.query] other than [$$], with [id]
    set to [v].  Every object the caller holds is left as it was (the store
    of objects only grows). *)
Theorem makeQuery_id_adds_an_equality (v : rvalue) :
  NoDup qs.*1 → ms = [("id", v)] → is_atom v = true →
  _makeQuery (RRef lp) h =
    Ok (RRef (length h + 3),
        h ++ [ CObj [];
               CObj (assign "id" v (List.filter (fun kv => negb (String.eqb kv.1 "$$")) qs));
               CObj [("id", v)];
               CObj [("query", RRef (length h + 1))] ]).
Proof.
  intros Hd Hms Hv.
  unfold _makeQuery, alloc. rewrite marker_of, query_of, (omit_query _ Hd).
  rewrite <- !app_assoc. simpl app.
  unfold keys_of at 1. rewrite (old_cell _ _ _ Hm). subst ms. simpl.
  unfold transform_step. simpl. rewrite (old_cell _ _ _ Hm). simpl.
  rewrite <- !app_assoc. simpl app. rewrite !length_app. simpl length.
  rewrite (merge_atom _ _ _ (List.filter (fun kv => negb (String.eqb kv.1 "$$")) qs) "id" v);
    [|by rewrite (new_cell _ 1)|by rewrite (new_cell _ 2)|exact Hv].
  simpl. unfold heap in *. rewrite insert_app_r_alt by lia.
  replace (length h + 1 - length h)%nat with 1%nat by lia.
  simpl. rewrite !length_app. simpl length. rewrite <- !app_assoc. simpl.
  repeat f_equal; lia.
Qed.

Lemma merge_key_atom (rec : rvalue → rvalue → heap → result heap) (b : bool)
    (g : heap) (la : nat) (src : rvalue) (k : key) :
  is_atom (rget g src k) = true →
  merge_key rec b la src k g = Ok (rset la k (rget g src k) g).
Proof.
  intros Hx. unfold merge_key.
  destruct (rget g src k) eqn:E; try discriminate Hx; reflexivity.
Qed.

Lemma merge_into_empty_array (rec : rvalue → rvalue → heap → result heap)
    (g : heap) (la ls : nat) (cx : list rvalue) :
  g !! la = Some (CArr []) → g !! ls = Some (CArr cx) → la ≠ ls →
  Forall (fun x => is_atom x = true) cx →
  fold_left (fun acc k => h' ← acc; merge_key rec true la (RRef ls) k h')
            (KIndex <$> seq 0 (length cx)) (Ok g)
  = Ok (<[la := CArr cx]> g).
Proof.
  unfold heap in *. intros Hla Hls Hne Hcx.
  assert (Hlt : (la < length g)%nat) by (by eapply lookup_lt_Some).
  assert (G : ∀ m i, (i + m = length cx)%nat →
    fold_left (fun acc k => h' ← acc; merge_key rec true la (RRef ls) k h')
              (KIndex <$> seq i m) (Ok (<[la := CArr (take i cx)]> g))
    = Ok (<[la := CArr cx]> g)).
  { induction m as [|m IH]; intros i Hi.
    - simpl. replace i with (length cx) by lia. by rewrite firstn_all.
    - simpl.
      assert (Hi' : (i < length cx)%nat) by lia.
      destruct (lookup_lt_is_Some_2 cx i Hi') as [x Hx].
      assert (Hax : is_atom x = true).
      { rewrite Forall_forall in Hcx. apply Hcx. by eapply list_elem_of_lookup_2. }
      assert (Hr : rget (<[la:=CArr (take i cx)]> g) (RRef ls) (KIndex i) = x).
      { unfold rget. unfold heap in *. rewrite list_lookup_insert_ne by done. rewrite Hls.
        by rewrite Hx. }
      rewrite merge_key_atom by (by rewrite Hr). rewrite Hr.
      replace (rset la (KIndex i) x (<[la:=CArr (take i cx)]> g))
        with (<[la := CArr (take (S i) cx)]> g); [apply IH; lia|].
      unfold rset. unfold heap in *. rewrite list_lookup_insert_eq by done.
      rewrite list_insert_insert_eq.
      unfold pad_set. rewrite length_take.
      destruct (decide (i < i `min` length cx)%nat); [lia|].
      replace (i - i `min` length cx)%nat with 0%nat by lia. simpl.
      by rewrite (take_S_r _ _ _ Hx). }
  specialize (G (length cx) 0%nat eq_refl). simpl take in G.
  rewrite <- G. f_equal. f_equal. symmetry. by apply list_insert_id.
Qed.


Lemma set_new_cell ext i c : <[(length h + i)%nat := c]> (h ++ ext) = h ++ <[i := c]> ext.
Proof. unfold heap in *. by rewrite insert_app_r. Qed.

Lemma assign_absent {A} k (x : A) ps : k ∉ ps.*1 → assign k x ps = ps ++ [(k, x)].
Proof.
  induction ps as [|[k' y] ps IH]; simpl; [done|]. intros Hn.
  apply not_elem_of_cons in Hn as [Hne Hn].
  destruct (String.eqb_spec k k'); [done|]. by rewrite IH.
Qed.

Lemma rset_new ext i fs k v :
  ext !! i = Some (CObj fs) →
  rset (length h + i) (KName k) v (h ++ ext) = h ++ <[i := CObj (assign k v fs)]> ext.
Proof. intros He. unfold rset. rewrite new_cell, He. simpl. apply set_new_cell. Qed.

Ltac norm := rewrite <- ?app_assoc; simpl app; rewrite ?length_app; simpl length.

Lemma baseMerge_S f l src (g : heap) :
  baseMerge (S f) (RRef l) src g =
  fold_left (fun acc k => h' ← acc; merge_key (baseMerge f) (is_array g src) l src k h')
            (keys_of g src) (Ok g).
Proof. reflexivity. Qed.

Lemma merge_key_object rec b (g : heap) l src k ls fs :
  rget g src k = RRef ls → g !! ls = Some (CObj fs) → rget g (RRef l) k = RUndef →
  merge_key rec b l src k g =
  (h2 ← rec (RRef (length g)) (RRef ls) (g ++ [CObj []]); Ok (rset l k (RRef (length g)) h2)).
Proof.
  intros Hs Hc Hv. unfold merge_key. rewrite Hs, Hv. unfold is_array, is_plain_object.
  unfold heap in *. by rewrite Hc.
Qed.

Lemma merge_key_array rec b (g : heap) l src k ls xs :
  rget g src k = RRef ls → g !! ls = Some (CArr xs) → rget g (RRef l) k = RUndef →
  merge_key rec b l src k g =
  (h2 ← rec (RRef (length g)) (RRef ls) (g ++ [CArr []]); Ok (rset l k (RRef (length g)) h2)).
Proof.
  intros Hs Hc Hv. unfold merge_key. rewrite Hs, Hv. unfold is_array.
  unfold heap in *. by rewrite Hc.
Qed.

Lemma merge_ids_fragment (fs : list (string * rvalue)) (cx : list rvalue) (c0 : cell) :
  "id" ∉ fs.*1 → Forall (fun x => is_atom x = true) cx →
  let n := length h in
  merge (RRef (n + 1)) (RRef (n + 4))
        (h ++ [c0; CObj fs; CArr cx; CObj [("$in", RRef (n + 2))]; CObj [("id", RRef (n + 3))]])
  = Ok (h ++ [c0; CObj (fs ++ [("id", RRef (n + 5))]); CArr cx;
              CObj [("$in", RRef (n + 2))]; CObj [("id", RRef (n + 3))];
              CObj [("$in", RRef (n + 6))]; CArr cx]).
Proof.
  intros Hid Hcx n. subst n. unfold merge. norm.
  set (H4 := h ++ [c0; CObj fs; CArr cx; CObj [("$in", RRef (length h + 2))];
                   CObj [("id", RRef (length h + 3))]]).
  assert (E4 : length H4 = (length h + 5)%nat) by (unfold H4; norm; lia).
  rewrite baseMerge_S.
  assert (K4 : keys_of H4 (RRef (length h + 4)) = [KName "id"]).
  { unfold keys_of, H4. by rewrite (new_cell _ 4). }
  rewrite K4. cbn [fold_left mbind result_bind].
  rewrite (merge_key_object _ _ H4 _ _ _ (length h + 3) [("$in", RRef (length h + 2))]).
  2: { unfold rget, H4. by rewrite (new_cell _ 4). }
  2: { unfold H4. by rewrite (new_cell _ 3). }
  2: { unfold rget, H4. rewrite (new_cell _ 1). simpl. by rewrite (assoc_absent _ _ Hid). }
  rewrite E4. replace (length h + 5)%nat with (S (length h + 4)) at 1 by lia.
  set (H5 := H4 ++ [CObj []]).
  assert (X5 : H5 = h ++ [c0; CObj fs; CArr cx; CObj [("$in", RRef (length h + 2))];
                   CObj [("id", RRef (length h + 3))]; CObj []]).
  { unfold H5, H4. by norm. }
  rewrite baseMerge_S.
  assert (K5 : keys_of H5 (RRef (length h + 3)) = [KName "$in"]).
  { unfold keys_of. rewrite X5. by rewrite (new_cell _ 3). }
  rewrite K5. cbn [fold_left mbind result_bind].
  rewrite (merge_key_array _ _ H5 _ _ _ (length h + 2) cx).
  2: { unfold rget. rewrite X5. by rewrite (new_cell _ 3). }
  2: { rewrite X5. by rewrite (new_cell _ 2). }
  2: { unfold rget. rewrite X5. by rewrite (new_cell _ 5). }
  assert (E5 : length H5 = (length h + 6)%nat) by (rewrite X5; norm; lia).
  rewrite E5.
  set (H6 := H5 ++ [CArr []]).
  assert (X6 : H6 = h ++ [c0; CObj fs; CArr cx; CObj [("$in", RRef (length h + 2))];
                   CObj [("id", RRef (length h + 3))]; CObj []; CArr []]).
  { unfold H6. rewrite X5. by norm. }
  replace (length h + 4)%nat with (S (length h + 3)) at 1 by lia.
  rewrite baseMerge_S.
  assert (K6 : keys_of H6 (RRef (length h + 2)) = KIndex <$> seq 0 (length cx)).
  { unfold keys_of. rewrite X6. by rewrite (new_cell _ 2). }
  assert (A6 : is_array H6 (RRef (length h + 2)) = true).
  { unfold is_array. rewrite X6. by rewrite (new_cell _ 2). }
  rewrite K6, A6.
  rewrite (merge_into_empty_array _ H6 (length h + 6) (length h + 2) cx);
    [|rewrite X6; by rewrite (new_cell _ 6)|rewrite X6; by rewrite (new_cell _ 2)|lia|exact Hcx].
  cbn [mbind result_bind].
  rewrite X6. rewrite (set_new_cell _ 6). simpl.
  rewrite (rset_new _ 5 [] "$in") by done. simpl.
  rewrite (rset_new _ 1 fs "id") by done. simpl.
  by rewrite (assign_absent _ _ _ Hid).
Qed.

Lemma makeQuery_ids_adds_a_membership (la : nat) (xs : list rvalue) :
  NoDup qs.*1 → "id" ∉ qs.*1 → ms = [("ids", RRef la)] → h !! la = Some (CArr xs) →
  Forall (fun x => is_atom x = true) (List.filter rtruthy xs) →
  let cx := List.filter rtruthy xs in
  let n := length h in
  let fs := List.filter (fun kv => negb (String.eqb kv.1 "$$")) qs in
  _makeQuery (RRef lp) h =
    Ok (RRef (n + 7),
        h ++ [ CObj []; CObj (fs ++ [("id", RRef (n + 5))]);
               CArr cx; CObj [("$in", RRef (n + 2))]; CObj [("id", RRef (n + 3))];
               CObj [("$in", RRef (n + 6))]; CArr cx;
               CObj [("query", RRef (n + 1))] ]).
Proof.
  intros Hd Hid Hms Hla Hcx cx n fs.
  assert (Hfs : "id" ∉ fs.*1).
  { intros Hin. apply Hid. apply list_elem_of_fmap in Hin as ([k x] & -> & Hin).
    apply list_elem_of_In, List.filter_In in Hin as [Hin _]. apply list_elem_of_In in Hin.
    by apply (list_elem_of_fmap_2 fst _ (k, x)). }
  unfold _makeQuery, alloc. rewrite marker_of, query_of, (omit_query _ Hd). fold fs.
  norm.
  unfold keys_of at 1. rewrite (old_cell _ _ _ Hm). subst ms. simpl.
  unfold transform_step. simpl. rewrite (old_cell _ _ _ Hm). simpl.
  unfold transform_ids, compact, alloc, array_like. rewrite (old_cell _ _ _ Hla). simpl.
  fold cx. norm.
  replace (length h + 1 + 1)%nat with (length h + 2)%nat by lia.
  replace (length h + 1 + 1 + 1)%nat with (length h + 3)%nat by lia.
  replace (length h + 1 + 1 + 1 + 1)%nat with (length h + 4)%nat by lia.
  rewrite (merge_ids_fragment fs cx (CObj []) Hfs Hcx).
  cbn [mbind result_bind]. norm. subst n. repeat f_equal; lia.
Qed.

End Params.

Lemma store_props_app (ps qs : list (string * value)) (h : heap) :
  store_props store_value (ps ++ qs) h =
  let '(r1, h1) := store_props store_value ps h in
  let '(r2, h2) := store_props store_value qs h1 in
  (r1 ++ r2, h2).
Proof.
  revert h. induction ps as [|[k x] ps IH]; intros h; simpl.
  - by destruct (store_props store_value qs h).
  - destruct (store_value x h) as [r h1]. rewrite IH.
    destruct (store_props store_value ps h1) as [r1 h2].
    by destruct (store_props store_value qs h2).
Qed.

Lemma store_scalar v h :
  is_scalar v = true →
  ∃ r, store_value v h = (r, h) ∧ is_atom r = true ∧ ∀ fuel g, load_value fuel g r = v.
Proof.
  destruct v; try discriminate; intros _; eexists; (split; [reflexivity|]); split; try done;
    intros [|f] g; reflexivity.
Qed.

Lemma assoc_app_absent {A} k (ps qs : list (string * A)) :
  k ∉ ps.*1 → assoc k (ps ++ qs) = assoc k qs.
Proof.
  induction ps as [|[k' v] ps IH]; simpl; [done|]. intros Hn.
  apply not_elem_of_cons in Hn as [Hne Hn].
  destruct (String.eqb_spec k k'); [done|]. by apply IH.
Qed.

Lemma map_assign {A B} (g : A → B) k x (l : list (string * A)) :
  (fun kv => (kv.1, g kv.2)) <$> assign k x l = assign k (g x) ((fun kv => (kv.1, g kv.2)) <$> l).
Proof.
  induction l as [|[k' y] l IH]; simpl; [done|].
  destruct (String.eqb k k'); simpl; [done|]. f_equal. exact IH.
Qed.

Lemma makeQuery_from_params (q : value) :
  Tenge.makeQuery q =
  (let '(params, h1) := store_value (VObj [("query", q)]) [] in
   '(out, h2) ← _makeQuery params h1;
   Ok (snapshot h2 (rget h2 out (KName "query")))).
Proof.
  unfold Tenge.makeQuery. cbn [store_value store_props fst snd].
  by destruct (store_value q []) as [r h0].
Qed.

Lemma filter_marker (rs1 rs2 : list (string * rvalue)) (m : rvalue) :
  "$$" ∉ (rs1 ++ rs2).*1 →
  List.filter (fun kv : string * rvalue => negb (String.eqb kv.1 "$$"))
    (rs1 ++ ("$$", m) :: rs2) = rs1 ++ rs2.
Proof.
  intros Hm. rewrite List.filter_app. simpl. rewrite <- List.filter_app. apply filter_all.
  apply Forall_forall. intros [k x] Hkx. simpl.
  destruct (String.eqb_spec k "$$") as [->|]; [|done].
  exfalso. apply Hm. by apply (list_elem_of_fmap_2 fst _ ("$$", x)).
Qed.

Lemma assoc_marker (rs1 rs2 : list (string * rvalue)) (m : rvalue) :
  "$$" ∉ (rs1 ++ rs2).*1 → assoc "$$" (rs1 ++ ("$$", m) :: rs2) = Some m.
Proof.
  intros Hm. rewrite fmap_app in Hm. apply not_elem_of_app in Hm as [Hm _].
  by rewrite assoc_app_absent by exact Hm.
Qed.

Lemma NoDup_marker (rs1 rs2 : list (string * rvalue)) (m : rvalue) :
  NoDup (rs1 ++ rs2).*1 → "$$" ∉ (rs1 ++ rs2).*1 →
  NoDup (rs1 ++ ("$$", m) :: rs2).*1.
Proof.
  intros Hd Hm. rewrite fmap_app in *. simpl.
  apply NoDup_app in Hd as (H1 & H12 & H2).
  apply not_elem_of_app in Hm as [Hm1 Hm2].
  apply NoDup_app. split; [exact H1|]. split.
  - intros k Hk1 Hk2. apply elem_of_cons in Hk2 as [->|Hk2]; [done|]. by apply (H12 k).
  - apply NoDup_cons. by split.
Qed.

(** X11.  A query with distinct keys one of which is the marker [{id: v}],
    [v] being null, a boolean, a number, a string or an ObjectId, is
    normalised to the same query without the marker and with [id] set to
    [v] (in place when the query has an [id] already, at the end otherwise);
    and the caller's params object reads after the call as it read
    before. *)
Theorem makeQuery_of_an_id_marker (ps1 ps2 : list (string * value)) (v : value) :
  NoDup (ps1 ++ ps2).*1 → "$$" ∉ (ps1 ++ ps2).*1 → is_scalar v = true →
  let q := VObj (ps1 ++ ("$$", VObj [("id", v)]) :: ps2) in
  Tenge.makeQuery q = Ok (VObj (assign "id" v (ps1 ++ ps2)))
  ∧ Fixtures.around_makeQuery q =
      (VObj [("query", q)],
       Ok (VObj [("query", VObj (assign "id" v (ps1 ++ ps2)))], VObj [("query", q)])).
Proof.
  intros Hd Hm Hv q.
  rewrite makeQuery_from_params. unfold Fixtures.around_makeQuery.
  destruct (store_value_ok (VObj [("query", q)]) []) as (r0 & ext & S0 & Hl0).
  rewrite S0. simpl app in *.
  (* the shape of the store *)
  assert (Hps1 : Forall (fun kv => stored_ok kv.2) ps1).
  { apply Forall_forall. intros; apply store_value_ok. }
  assert (Hps2 : Forall (fun kv => stored_ok kv.2) ps2).
  { apply Forall_forall. intros; apply store_value_ok. }
  destruct (store_props_ok ps1 Hps1 []) as (rs1 & e1 & Hs1 & Hk1 & Hl1).
  destruct (store_scalar v e1 Hv) as (rv & Hsv & Hrv & Hlv).
  set (M := CObj [("id", rv)]).
  destruct (store_props_ok ps2 Hps2 (e1 ++ [M])) as (rs2 & e2 & Hs2 & Hk2 & Hl2).
  set (e := e1 ++ [M] ++ e2).
  set (Q := CObj (rs1 ++ ("$$", RRef (length e1)) :: rs2)).
  set (P := CObj [("query", RRef (length e))]).
  assert (S1 : r0 = RRef (S (length e)) ∧ ext = e ++ [Q; P]).
  { revert S0. subst q. cbn [store_value store_props fst snd].
    rewrite store_props_app, Hs1. simpl app at 1.
    cbn [store_props store_value fst snd]. rewrite Hsv. unfold alloc. fold M.
    rewrite Hs2. unfold alloc.
    rewrite <- !app_assoc. simpl app. fold e.
    intros [= <- <-]. split.
    - f_equal. unfold e. repeat (rewrite ?length_app; simpl). lia.
    - subst Q P. unfold e. by rewrite <- !app_assoc. }
  destruct S1 as [-> ->].
  assert (Hd' : NoDup (rs1 ++ rs2).*1) by (by rewrite fmap_app, Hk1, Hk2, <- fmap_app).
  assert (Hm' : "$$" ∉ (rs1 ++ rs2).*1) by (by rewrite fmap_app, Hk1, Hk2, <- fmap_app).
  assert (L0 : (e ++ [Q; P]) !! length e1 = Some M).
  { unfold e. rewrite <- !app_assoc. by apply list_lookup_middle. }
  assert (L1 : (e ++ [Q; P]) !! length e = Some Q) by (by apply list_lookup_middle).
  assert (L2 : (e ++ [Q; P]) !! S (length e) = Some P).
  { rewrite lookup_app_r by lia. by replace (S (length e) - length e)%nat with 1%nat by lia. }
  rewrite (makeQuery_id_adds_an_equality (e ++ [Q; P]) (S (length e)) (length e)
             (length e1) [("query", RRef (length e))]
             (rs1 ++ ("$$", RRef (length e1)) :: rs2) [("id", rv)] L2 eq_refl L1
             (assoc_marker _ _ _ Hm') L0 rv (NoDup_marker _ _ _ Hd' Hm') eq_refl Hrv).
  cbn [mbind result_bind]. rewrite (filter_marker _ _ _ Hm').
  assert (E3 : length (e ++ [Q; P]) = (length e + 2)%nat) by (rewrite length_app; simpl; lia).
  assert (Ee : length e = (length e1 + 1 + length e2)%nat).
  { unfold e. rewrite !length_app. simpl. lia. }
  rewrite E3.
  set (N4 := [CObj []; CObj (assign "id" rv (rs1 ++ rs2)); CObj [("id", rv)];
              CObj [("query", RRef (length e + 2 + 1))]]).
  assert (L : ∀ i, ((e ++ [Q; P]) ++ N4) !! (length e + 2 + i)%nat = N4 !! i).
  { intros i. rewrite lookup_app_r by lia. f_equal. lia. }
  assert (E4 : length ((e ++ [Q; P]) ++ N4) = S (length e + 5)).
  { rewrite length_app, E3. simpl. lia. }
  assert (Hq : ∀ fuel, (length e ≤ fuel)%nat →
            load_value (S fuel) ((e ++ [Q; P]) ++ N4) (RRef (length e + 2 + 1)) =
            VObj (assign "id" v (ps1 ++ ps2))).
  { intros fuel Hf. simpl. unfold heap in *. rewrite (L 1%nat). simpl. f_equal.
    rewrite map_assign, Hlv. f_equal. rewrite fmap_app. f_equal.
    - specialize (Hl1 (([M] ++ e2) ++ [Q; P] ++ N4) fuel). simpl in Hl1.
      unfold e. rewrite <- !app_assoc. simpl. apply Hl1. lia.
    - specialize (Hl2 ([Q; P] ++ N4) fuel).
      unfold e. rewrite <- !app_assoc in *. apply Hl2. lia. }
  split.
  - unfold rget. unfold heap in *. rewrite (L 3%nat). simpl.
    unfold snapshot. rewrite E4. apply f_equal, Hq. lia.
  - f_equal; [|f_equal; f_equal].
    + unfold snapshot. specialize (Hl0 [] (length (e ++ [Q; P]))).
      rewrite app_nil_r in Hl0. apply Hl0. lia.
    + unfold snapshot. rewrite E4. simpl. unfold heap in *. rewrite (L 3%nat). simpl.
      do 3 f_equal. replace (length e + 5)%nat with (S (length e + 4)) by lia. apply Hq. lia.
    + unfold snapshot. apply Hl0. rewrite E4, E3. lia.
Qed.

Lemma load_obj fuel (g : heap) l ps :
  g !! l = Some (CObj ps) →
  load_value (S fuel) g (RRef l) = VObj ((fun kv => (kv.1, load_value fuel g kv.2)) <$> ps).
Proof. intros Hg. simpl. unfold heap in *. by rewrite Hg. Qed.

Lemma load_arr fuel (g : heap) l xs :
  g !! l = Some (CArr xs) →
  load_value (S fuel) g (RRef l) = VArr (load_value fuel g <$> xs).
Proof. intros Hg. simpl. unfold heap in *. by rewrite Hg. Qed.

Lemma store_flat_items (xs : list value) (g : heap) :
  Forall (fun x => is_scalar x = true ∨ x = VUndef) xs →
  ∃ rxs, store_items store_value xs g = (rxs, g)
    ∧ Forall (fun x => is_atom x = true) (List.filter rtruthy rxs)
    ∧ ∀ fuel g', load_value fuel g' <$> List.filter rtruthy rxs = JS.compact xs.
Proof.
  induction 1 as [|x xs Hx _ (rxs & Hs & Ha & Hl)].
  - exists []. by repeat split.
  - assert (∃ r, store_value x g = (r, g) ∧ rtruthy r = truthy x
                 ∧ (rtruthy r = true → is_atom r = true)
                 ∧ ∀ fuel g', load_value fuel g' r = x) as (r & Hr & Ht & Hat & Hlr).
    { destruct Hx as [Hx| ->].
      - destruct x; try discriminate; (eexists; split; [reflexivity|]); repeat split;
          intros [|f] g'; reflexivity.
      - exists RUndef. repeat split; try done. intros [|f] g'; reflexivity. }
    exists (r :: rxs). simpl. rewrite Hr, Hs. split; [done|].
    unfold JS.compact in *. simpl. rewrite Ht.
    destruct (truthy x) eqn:Hx'.
    + split; [constructor; [apply Hat; congruence|exact Ha]|].
      intros fuel g'. simpl. by rewrite Hlr, Hl.
    + split; [exact Ha|]. exact Hl.
Qed.

(** X12.  A query with distinct keys and no [id] of its own, one of whose
    keys is the marker [{ids: xs}] with [xs] an array of scalars (and
    holes), is normalised to the same query without the marker and with
    [id: {$in: ys}] at the end, [ys] being the truthy elements of [xs] in
    order; and the caller's params object reads after the call as it read
    before. *)
Theorem makeQuery_of_an_ids_marker (ps1 ps2 : list (string * value)) (xs : list value) :
  NoDup (ps1 ++ ps2).*1 → "$$" ∉ (ps1 ++ ps2).*1 → "id" ∉ (ps1 ++ ps2).*1 →
  Forall (fun x => is_scalar x = true ∨ x = VUndef) xs →
  let q := VObj (ps1 ++ ("$$", VObj [("ids", VArr xs)]) :: ps2) in
  let q' := VObj (ps1 ++ ps2 ++ [("id", VObj [("$in", VArr (JS.compact xs))])]) in
  Tenge.makeQuery q = Ok q'
  ∧ Fixtures.around_makeQuery q =
      (VObj [("query", q)], Ok (VObj [("query", q')], VObj [("query", q)])).
Proof.
  intros Hd Hm Hid Hxs q q'.
  rewrite makeQuery_from_params. unfold Fixtures.around_makeQuery.
  destruct (store_value_ok (VObj [("query", q)]) []) as (r0 & ext & S0 & Hl0).
  rewrite S0. simpl app in *.
  assert (Hps1 : Forall (fun kv => stored_ok kv.2) ps1).
  { apply Forall_forall. intros; apply store_value_ok. }
  assert (Hps2 : Forall (fun kv => stored_ok kv.2) ps2).
  { apply Forall_forall. intros; apply store_value_ok. }
  destruct (store_props_ok ps1 Hps1 []) as (rs1 & e1 & Hs1 & Hk1 & Hl1).
  destruct (store_flat_items xs e1 Hxs) as (rxs & Hsx & Hax & Hlx).
  set (A := CArr rxs).
  set (M := CObj [("ids", RRef (length e1))]).
  destruct (store_props_ok ps2 Hps2 (e1 ++ [A; M])) as (rs2 & e2 & Hs2 & Hk2 & Hl2).
  set (e := e1 ++ [A; M] ++ e2).
  set (Q := CObj (rs1 ++ ("$$", RRef (length e1 + 1)) :: rs2)).
  set (P := CObj [("query", RRef (length e))]).
  assert (S1 : r0 = RRef (length e + 1) ∧ ext = e ++ [Q; P]).
  { revert S0. subst q. cbn [store_value store_props fst snd].
    rewrite store_props_app, Hs1. simpl app at 1.
    cbn [store_props store_value fst snd]. rewrite Hsx. unfold alloc. fold A.
    rewrite <- !app_assoc. simpl app. rewrite !length_app. simpl length. fold M.
    replace (e1 ++ [A; M]) with (e1 ++ A :: [M]) in Hs2 by done.
    rewrite <- app_assoc in Hs2. simpl app in Hs2. rewrite Hs2.
    rewrite <- !app_assoc. simpl app.
    intros [= <- <-]. split.
    - f_equal. unfold e. repeat (rewrite ?length_app; simpl). lia.
    - subst Q P. unfold e. rewrite <- !app_assoc. simpl app. repeat f_equal. }
  destruct S1 as [-> ->].
  assert (Hd' : NoDup (rs1 ++ rs2).*1) by (by rewrite fmap_app, Hk1, Hk2, <- fmap_app).
  assert (Hm' : "$$" ∉ (rs1 ++ rs2).*1) by (by rewrite fmap_app, Hk1, Hk2, <- fmap_app).
  assert (Hid' : "id" ∉ (rs1 ++ rs2).*1) by (by rewrite fmap_app, Hk1, Hk2, <- fmap_app).
  set (H := e ++ [Q; P]).
  assert (Ee : length e = (length e1 + 2 + length e2)%nat).
  { unfold e. rewrite !length_app. simpl. lia. }
  assert (EH : length H = (length e + 2)%nat) by (unfold H; rewrite length_app; simpl; lia).
  assert (LQ : H !! length e = Some Q) by (by apply list_lookup_middle).
  assert (LP : H !! (length e + 1)%nat = Some P).
  { unfold H. rewrite lookup_app_r by lia.
    by replace (length e + 1 - length e)%nat with 1%nat by lia. }
  assert (LA : H !! length e1 = Some A).
  { unfold H, e. rewrite <- !app_assoc. by apply list_lookup_middle. }
  assert (LM : H !! (length e1 + 1)%nat = Some M).
  { unfold H, e. rewrite <- !app_assoc. rewrite lookup_app_r by lia.
    by replace (length e1 + 1 - length e1)%nat with 1%nat by lia. }
  assert (I : "id" ∉ (rs1 ++ ("$$", RRef (length e1 + 1)) :: rs2).*1).
  { rewrite fmap_app in *. simpl. apply not_elem_of_app in Hid' as [I1 I2].
    apply not_elem_of_app. split; [exact I1|]. apply not_elem_of_cons. by split. }
  rewrite (makeQuery_ids_adds_a_membership H (length e + 1) (length e) (length e1 + 1)
             [("query", RRef (length e))] (rs1 ++ ("$$", RRef (length e1 + 1)) :: rs2)
             [("ids", RRef (length e1))]
             LP eq_refl LQ (assoc_marker _ _ _ Hm') LM (length e1) rxs
             (NoDup_marker _ _ _ Hd' Hm') I eq_refl LA Hax).
  cbn [mbind result_bind]. rewrite (filter_marker _ _ _ Hm'), EH.
  set (cx := List.filter rtruthy rxs) in *.
  set (N8 := [CObj []; CObj ((rs1 ++ rs2) ++ [("id", RRef (length e + 2 + 5))]); CArr cx;
              CObj [("$in", RRef (length e + 2 + 2))]; CObj [("id", RRef (length e + 2 + 3))];
              CObj [("$in", RRef (length e + 2 + 6))]; CArr cx;
              CObj [("query", RRef (length e + 2 + 1))]]).
  assert (L : ∀ i, (H ++ N8) !! (length e + 2 + i)%nat = N8 !! i).
  { intros i. unfold heap in *. rewrite lookup_app_r by lia. f_equal. lia. }
  assert (E8 : length (H ++ N8) = S (S (S (S (length e + 6))))).
  { rewrite length_app, EH. simpl. lia. }
  assert (Hq : ∀ f, (length e ≤ S (S f))%nat →
            load_value (S (S (S f))) (H ++ N8) (RRef (length e + 2 + 1)) = q').
  { intros f Hf.
    rewrite (load_obj _ _ _ _ (L 1%nat)). unfold q'. f_equal.
    rewrite (app_assoc ps1 ps2). rewrite !fmap_app. f_equal; [f_equal|].
    - specialize (Hl1 (([A; M] ++ e2) ++ [Q; P] ++ N8) (S (S f))). simpl in Hl1.
      unfold H, e. rewrite <- !app_assoc. simpl. apply Hl1. lia.
    - specialize (Hl2 ([Q; P] ++ N8) (S (S f))).
      unfold H, e. rewrite <- !app_assoc in *. apply Hl2. lia.
    - cbn [fmap list_fmap fst snd]. rewrite (load_obj _ _ _ _ (L 5%nat)).
      cbn [fmap list_fmap fst snd]. rewrite (load_arr _ _ _ _ (L 6%nat)).
      repeat f_equal. apply Hlx. }
  split.
  - unfold rget. unfold heap in *. rewrite (L 7%nat). simpl.
    unfold snapshot. rewrite E8. apply f_equal, Hq. lia.
  - f_equal; [|f_equal; f_equal].
    + unfold snapshot. specialize (Hl0 [] (length H)).
      rewrite app_nil_r in Hl0. apply Hl0. unfold H. lia.
    + unfold snapshot. rewrite E8. rewrite (load_obj _ _ _ _ (L 7%nat)).
      cbn [fmap list_fmap fst snd]. do 3 f_equal. apply Hq. lia.
    + unfold snapshot. apply Hl0. rewrite E8. fold H. rewrite EH. lia.
Qed.

End Trees.

(** ** Equality of values *)

Section ValueEq.
Import JS.

Lemma value_eqb_eq (a b : value) : value_eqb a b = true ↔ a = b.
Proof.
  revert b. induction a as [| |x|x|x|x|xs IH|ps IH] using value_ind';
    intros [| |y|y|y|y|ys|qs]; simpl; try (split; [discriminate|congruence]); try done.
  - rewrite Bool.eqb_true_iff. split; congruence.
  - rewrite Z.eqb_eq. split; congruence.
  - rewrite String.eqb_eq. split; congruence.
  - rewrite String.eqb_eq. split; congruence.
  - revert ys. induction IH as [|x xs Hx _ IHxs]; intros [|y ys]; try (split; [discriminate|congruence]); [done|].
    rewrite andb_true_iff, Hx, IHxs. split; [intros [-> [= ->]]; done|intros [= -> ->]; done].
  - revert qs. induction IH as [|[k x] ps Hx _ IHps]; intros [|[l y] qs]; try (split; [discriminate|congruence]); [done|].
    rewrite !andb_true_iff, String.eqb_eq. simpl in Hx. rewrite Hx, IHps.
    split; [intros [[-> ->] [= ->]]; done|intros [= -> -> ->]; done].
Qed.
End ValueEq.

(** ** The identifiers the layer gives out *)

Section Ids.
Import JS Hooks.

Lemma assoc_assign_eq {A} k (v : A) ps : assoc k (assign k v ps) = Some v.
Proof.
  induction ps as [|[l x] ps IH]; simpl.
  - by rewrite String.eqb_refl.
  - destruct (String.eqb_spec k l) as [->|Hne]; simpl.
    + by rewrite String.eqb_refl.
    + destruct (String.eqb_spec k l); [done|exact IH].
Qed.

(** The documents of a list that have no truthy [id]. *)
Definition without_id (ds : list value) : list value :=
  List.filter (fun d => negb (truthy (prop d "id"))) ds.

Lemma makeID_inj a b : (makeID a).1 = (makeID b).1 → a = b.
Proof.
  unfold makeID. simpl. intros [= H]. by apply (inj pretty).
Qed.

Lemma without_id_take_le i (ds : list value) :
  (length (without_id (take i ds)) ≤ length (without_id ds))%nat.
Proof.
  revert i. induction ds as [|d ds IH]; intros [|i]; simpl; try lia.
  specialize (IH i). destruct (negb (truthy (prop d "id"))); simpl; lia.
Qed.

Lemma without_id_take_lt i j d (ds : list value) :
  (i < j)%nat → ds !! i = Some d → truthy (prop d "id") = false →
  (length (without_id (take i ds)) < length (without_id (take j ds)))%nat.
Proof.
  revert i j. induction ds as [|x ds IH]; intros i j Hij Hi Hd; [done|].
  destruct j as [|j]; [lia|]. destruct i as [|i]; simpl in *.
  - simplify_eq. rewrite Hd. simpl. lia.
  - assert (H : (length (without_id (take i ds)) < length (without_id (take j ds)))%nat)
      by (apply IH; [lia|done|done]).
    destruct (negb (truthy (prop x "id"))); simpl; lia.
Qed.

(** X2.  The handler [_initCollection] registers before insert leaves every
    document with a truthy [id], and does not fail on documents.  A document
    that has an [id] keeps it and is left as it was.  A document without one
    gets the next identifier of [makeID] and is otherwise left
    as it was: the documents without [id] take the identifiers in the order
    of the list, one call of [makeID] each, so that no two of them get the
    same one, and the generator has moved on by their number. *)
Theorem default_hook_gives_every_document_an_id (ds : list value) (n : nat) :
  Forall (fun d => ∃ ps, d = VObj ps) ds →
  let r := assign_ids ds n in
  let drawn i := length (without_id (take i ds)) in
  r.2 = None
  ∧ r.1.2 = (n + length (without_id ds))%nat
  ∧ length r.1.1 = length ds
  ∧ (∀ i d, ds !! i = Some d →
       ∃ d', r.1.1 !! i = Some d' ∧ truthy (prop d' "id") = true
         ∧ (truthy (prop d "id") = true → d' = d)
         ∧ (truthy (prop d "id") = false →
            ∃ ps, d = VObj ps ∧ d' = VObj (assign "id" (makeID (n + drawn i)).1 ps)
                  ∧ prop d' "id" = (makeID (n + drawn i)).1))
  ∧ (∀ i j d1 d2, i ≠ j → ds !! i = Some d1 → ds !! j = Some d2 →
       truthy (prop d1 "id") = false → truthy (prop d2 "id") = false →
       (makeID (n + drawn i)).1 ≠ (makeID (n + drawn j)).1).
Proof.
  intros H r drawn. subst r drawn. cbv beta.
  assert (G : (assign_ids ds n).2 = None
    ∧ (assign_ids ds n).1.2 = (n + length (without_id ds))%nat
    ∧ length (assign_ids ds n).1.1 = length ds
    ∧ (∀ i d, ds !! i = Some d →
       ∃ d', (assign_ids ds n).1.1 !! i = Some d' ∧ truthy (prop d' "id") = true
         ∧ (truthy (prop d "id") = true → d' = d)
         ∧ (truthy (prop d "id") = false →
            ∃ ps, d = VObj ps
              ∧ d' = VObj (assign "id" (makeID (n + length (without_id (take i ds)))).1 ps)
              ∧ prop d' "id" = (makeID (n + length (without_id (take i ds)))).1))).
  { revert n. induction H as [|d ds [ps ->] _ IH]; intros n.
    - simpl. split_and!; [done|lia|done|]. intros i d Hi. done.
    - cbn [assign_ids]. cbn [prop].
      destruct (truthy (default VUndef (assoc "id" ps))) eqn:Hid.
      + specialize (IH n). destruct (assign_ids ds n) as [[rest s2] e].
        cbn [fst snd] in *. destruct IH as (-> & -> & Hlen & IH).
        split_and!; [done| |simpl; by rewrite Hlen|].
        { unfold without_id. cbn [List.filter prop]. rewrite Hid. done. }
        intros [|i] d Hi.
        * simpl in Hi. simplify_eq. exists (VObj ps). cbn [prop]. rewrite Hid.
          split_and!; [done|done|done|done].
        * simpl in Hi. destruct (IH i d Hi) as (d' & Hd' & Ht & Hk & Hf).
          exists d'. split_and!; [done|done|done|].
          intros Hno. destruct (Hf Hno) as (qs & -> & -> & Hp).
          exists qs. unfold without_id in *. cbn [take List.filter prop]. rewrite Hid.
          cbn [negb]. done.
      + cbn [makeID fst snd].
        specialize (IH (S n)). destruct (assign_ids ds (S n)) as [[rest s2] e].
        cbn [fst snd] in *. destruct IH as (-> & -> & Hlen & IH).
        split_and!; [done| |simpl; by rewrite Hlen|].
        { unfold without_id. cbn [List.filter prop]. rewrite Hid. simpl. lia. }
        intros [|i] d Hi.
        * simpl in Hi. simplify_eq. eexists. split; [reflexivity|].
          cbn [prop]. rewrite assoc_assign_eq. cbn [default].
          split_and!; [done|by rewrite Hid| ].
          intros _. exists ps. cbn [take without_id List.filter length].
          rewrite Nat.add_0_r. done.
        * simpl in Hi. destruct (IH i d Hi) as (d' & Hd' & Ht & Hk & Hf).
          exists d'. split_and!; [done|done|done|].
          intros Hno. destruct (Hf Hno) as (qs & -> & -> & Hp).
          exists qs. unfold without_id in *. cbn [take List.filter prop]. rewrite Hid.
          cbn [negb length].
          replace (n + S (length (List.filter (fun d => negb (truthy (prop d "id")))
                                              (take i ds))))%nat
            with (S n + length (List.filter (fun d => negb (truthy (prop d "id")))
                                            (take i ds)))%nat by lia.
          done. }
  destruct G as (G1 & G2 & G3 & G4). split_and!; [done|done|done|done|].
  intros i j d1 d2 Hij Hi Hj H1 H2 E. apply makeID_inj in E.
  destruct (decide (i < j)%nat).
  - pose proof (without_id_take_lt i j d1 ds ltac:(lia) Hi H1). lia.
  - pose proof (without_id_take_lt j i d2 ds ltac:(lia) Hj H2). lia.
Qed.

End Ids.

(** ** The operations, step by step *)

Section World.
Import JS Hooks Driver Tenge.
Context (st : store).
Implicit Types (w : world st).

Ltac unfold_m :=
  unfold mbind, M_bind, mret, M_ret, lift, attempt, gets, emit, set_self,
         read_store, call_store, slot in *.

(** What setting up the collection and reading from it leave as they were:
    the collection's name, the handlers other than those before insert, the
    identifier generator, the calls that write, the calls of handlers, and
    the validity of the collection. *)
Record keeps (w w1 : world st) : Prop := Keeps {
  k_name : collection (self w1) = collection (self w);
  k_seed : seed w1 = seed w;
  k_before_remove : before_remove (hooks (self w1)) = before_remove (hooks (self w));
  k_after_insert : after_insert (hooks (self w1)) = after_insert (hooks (self w));
  k_after_update : after_update (hooks (self w1)) = after_update (hooks (self w));
  k_after_upsert : after_upsert (hooks (self w1)) = after_upsert (hooks (self w));
  k_after_remove : after_remove (hooks (self w1)) = after_remove (hooks (self w));
  k_writes : List.filter is_write (log w1) = List.filter is_write (log w);
  k_hooks : List.filter is_hook (log w1) = List.filter is_hook (log w);
  k_valid : ∀ L : lawful st, valid st L (data w) → valid st L (data w1)
}.

Lemma keeps_refl w : keeps w w.
Proof. by constructor. Qed.

Lemma keeps_trans w w1 w2 : keeps w w1 → keeps w1 w2 → keeps w w2.
Proof. intros [] []. constructor; try congruence. auto. Qed.

Lemma keeps_logged w c t : keeps w (logged w [Find c t]).
Proof.
  constructor; simpl; try done; rewrite List.filter_app, app_nil_r; done.
Qed.

Lemma collection_begin_ready w :
  ready w → _collection_begin st w = (Ok Ready, w).
Proof.
  intros [Hc Hn]. unfold _collection_begin, _assert. unfold_m. by rewrite Hn, Hc.
Qed.

Lemma collection_ready w : ready w → _collection st w = (Ok tt, w).
Proof.
  intros H. unfold _collection. unfold mbind, M_bind.
  by rewrite (collection_begin_ready w H).
Qed.

Lemma collection_begin_keeps w p w1 :
  _collection_begin st w = (Ok p, w1) →
  keeps w w1 ∧ truthy (collection (self w)) = true.
Proof.
  unfold _collection_begin, _assert. unfold_m.
  destruct w as [[name hs c] d n l]. simpl.
  destruct (truthy name) eqn:Hn; [|discriminate]. destruct c.
  - intros [= <- <-]. split; [apply keeps_refl|done].
  - simpl. destruct (col_ensureIndex st d) as [r d'] eqn:He. intros [= <- <-].
    split; [|done]. constructor; simpl; try done.
    + by rewrite List.filter_app, app_nil_r.
    + by rewrite List.filter_app, app_nil_r.
    + intros L. by apply (ensureIndex_valid st L d r d').
Qed.

Lemma collection_end_keeps p w w1 :
  _collection_end st p w = (Ok tt, w1) →
  keeps w w1 ∧ data w1 = data w ∧ log w1 = log w ∧
  (truthy (collection (self w)) = true → p ≠ Ready → ready w1) ∧
  (ready w → ready w1).
Proof.
  unfold _collection_end, before. unfold_m.
  destruct w as [[name hs c] d n l]. destruct p as [|[[]|e]]; simpl.
  - intros [= <-]. split_and!; try done.
  - intros [= <-]. split_and!; try done. by intros [_ ?].
  - discriminate.
Qed.

Lemma collection_keeps w w1 :
  _collection st w = (Ok tt, w1) → keeps w w1 ∧ ready w1.
Proof.
  unfold _collection. unfold mbind, M_bind.
  destruct (_collection_begin st w) as [[p|e] wa] eqn:Hb; [|discriminate].
  intros He. destruct (collection_begin_keeps _ _ _ Hb) as [K1 Hn].
  destruct (collection_end_keeps _ _ _ He) as (K2 & _ & _ & Hr1 & Hr2).
  split; [by eapply keeps_trans|].
  destruct p as [|r].
  - apply Hr2. revert Hb. unfold _collection_begin, _assert. unfold_m.
    rewrite Hn. destruct (col (self w)) eqn:Hc; [|simpl; destruct (col_ensureIndex st (data w)); discriminate].
    intros [= <-]. done.
  - apply Hr1; [|done]. by rewrite (k_name _ _ K1).
Qed.

Lemma find_ok p w ds w1 :
  find st p w = (Ok ds, w1) →
  ∃ q w0, makeQuery (query p) = Ok q ∧ _collection st w = (Ok tt, w0) ∧
          toArray st (cursor_of q p) (data w0) = Ok ds ∧
          w1 = logged w0 [Find (cursor_of q p) ToArray].
Proof.
  unfold find, _findCursor. unfold_m.
  destruct (makeQuery (query p)) as [q|e]; [|discriminate].
  destruct (_collection st w) as [[[]|e] w0]; [|discriminate]. simpl.
  destruct (toArray st (cursor_of q p) (data w0)) as [xs|e] eqn:Ht; [|discriminate].
  intros [= <- <-]. exists q, w0. by rewrite Ht.
Qed.

Lemma find_keeps p w ds w1 :
  find st p w = (Ok ds, w1) → keeps w w1 ∧ ready w1.
Proof.
  intros H. destruct (find_ok _ _ _ _ H) as (q & w0 & _ & Hc & _ & ->).
  destruct (collection_keeps _ _ Hc) as [K R]. split; [|exact R].
  eapply keeps_trans; [exact K|apply keeps_logged].
Qed.

Lemma find_ready p w q :
  ready w → makeQuery (query p) = Ok q →
  find st p w = (toArray st (cursor_of q p) (data w),
                 logged w [Find (cursor_of q p) ToArray]).
Proof.
  intros Hr Hq. unfold find, _findCursor. unfold_m.
  rewrite Hq, (collection_ready w Hr). done.
Qed.

Lemma runHooks_eq hs ds w :
  runHooks st hs ds w =
  (Ok (cs_docs (_runHooks hs ds (seed w)).1, (_runHooks hs ds (seed w)).2),
   World (self w) (data w) (cs_seed (_runHooks hs ds (seed w)).1)
         (log w ++ hook_events (_runHooks hs ds (seed w)).1)).
Proof. unfold runHooks. by destruct (_runHooks hs ds (seed w)). Qed.

Lemma toArray_unwindowed q flds srt d :
  toArray st {| c_query := q; c_fields := flds; c_sort := srt;
                c_skip := None; c_limit := VNull |} d =
  (xs ← col_select st q srt d; Ok (map (col_project st flds) xs)).
Proof.
  unfold toArray, yield, skipped, limited. simpl.
  by destruct (col_select st q srt d).
Qed.

(** What the cursor yields for a [skip] and a [limit] that read as numbers. *)
Lemma toArray_window q flds srt sk li s l d :
  reads_as sk s → reads_as li l →
  toArray st {| c_query := q; c_fields := flds; c_sort := srt;
                c_skip := if truthy sk then Some sk else None;
                c_limit := if truthy li then li else VNull |} d =
  (xs ← col_select st q srt d; Ok (map (col_project st flds) (window s l xs))).
Proof.
  intros Hsk Hli. unfold toArray, yield, skipped, limited, window. simpl.
  destruct (col_select st q srt d) as [xs|e]; [|reflexivity]. simpl.
  destruct Hsk as [[-> Hs0]|[Hf ->]], Hli as [[-> Hl0]|[Hg ->]]; simpl.
  - destruct (Z.eqb_spec s 0); [lia|]. destruct (Z.eqb_spec l 0); [lia|]. simpl.
    destruct (Z.leb_spec 0 s); [|lia]. simpl.
    destruct (Z.leb_spec 0 l); [|lia].
    destruct (Z.to_nat l) eqn:El; [lia|]. reflexivity.
  - destruct (Z.eqb_spec s 0); [lia|]. simpl. rewrite Hg. simpl.
    destruct (Z.leb_spec 0 s); [|lia]. reflexivity.
  - rewrite Hf. simpl. destruct (Z.eqb_spec l 0); [lia|]. simpl.
    destruct (Z.leb_spec 0 l); [|lia].
    destruct (Z.to_nat l) eqn:El; [lia|]. reflexivity.
  - rewrite Hf, Hg. reflexivity.
Qed.

(** The first step of [updateAll] when it succeeds. *)
Lemma updateAll_snapshot_ok q srt sk li s l snap w w1 :
  reads_as sk s → reads_as li l →
  updateAll_snapshot st q srt sk li w = (Ok snap, w1) →
  keeps w w1 ∧ ready w1 ∧
  ∃ q' sel, makeQuery q = Ok q' ∧
    col_select st q' (if truthy srt then Some srt else None) (data w1) = Ok sel ∧
    snap = map (col_project st key_only) (window s l sel).
Proof.
  intros Hsk Hli. unfold updateAll_snapshot. unfold mbind at 1. unfold M_bind.
  destruct (_collection_begin st w) as [[pend|e] wa] eqn:Hb; [|discriminate].
  unfold mbind at 1. unfold M_bind. unfold attempt at 1.
  destruct (find st _ wa) as [[ds|e] wb] eqn:Hf.
  2: { unfold_m. destruct (_collection_end st pend wb) as [[[]|?] ?]; discriminate. }
  unfold_m. destruct (_collection_end st pend wb) as [[[]|?] wc] eqn:He; [|discriminate].
  intros [= <- <-].
  destruct (collection_begin_keeps _ _ _ Hb) as [K1 _].
  destruct (find_keeps _ _ _ _ Hf) as [K2 R2].
  destruct (collection_end_keeps _ _ _ He) as (K3 & Hd & _ & _ & R3).
  split; [eauto using keeps_trans|]. split; [auto|].
  destruct (find_ok _ _ _ _ Hf) as (q' & w0 & Hq & Hc & Ht & ->). simpl in Hq.
  unfold cursor_of in Ht. cbn [fields sort skip limit query] in Ht.
  rewrite (toArray_window _ _ _ _ _ _ _ _ Hsk Hli) in Ht.
  destruct (col_select st q' (if truthy srt then Some srt else None) (data w0)) as [sel|] eqn:Hs;
    [|discriminate]. simpl in Ht. injection Ht as <-.
  exists q', sel. rewrite Hd. done.
Qed.

Lemma collection_named_ready w : ready w → _collection_named st w = (Ok tt, w).
Proof. intros [Hc Hn]. unfold _collection_named, _assert. unfold_m. by rewrite Hn. Qed.

Lemma collection_send_ready w : ready w → _collection_send st w = (Ok Ready, w).
Proof. intros [Hc Hn]. unfold _collection_send. unfold_m. by rewrite Hc. Qed.

(** [remove], from the snapshot on. *)
Lemma remove_run
    (p : find_params) (w w1 : world st) (q : value) (snap : list value) :
  makeQuery (query p) = Ok q →
  find st (with_query p q) w = (Ok snap, w1) →
  let b := _runHooks (before_remove (hooks (self w1))) snap (seed w1) in
  let kept := cs_docs b.1 in
  let w2 := World (self w1) (data w1) (cs_seed b.1) (log w1 ++ hook_events b.1) in
  let filter := by_ids (pluck (VArr kept) "_id") in
  let deleted := col_remove st filter (data w1) in
  let w3 := if nonempty kept
            then World (self w1) deleted.2 (seed w2) (log w2 ++ [Remove filter])
            else w2 in
  let a := _runHooks (after_remove (hooks (self w1))) kept (seed w2) in
  let w4 := World (self w1) (data w3) (cs_seed a.1) (log w3 ++ hook_events a.1) in
  remove st p w =
    match b.2 with
    | Some e => (Err e, w2)
    | None =>
        match (if nonempty kept then deleted.1 else Ok VUndef) with
        | Err e => (Err e, w3)
        | Ok _ => (match a.2 with Some e => Err e | None => Ok (cs_docs a.1) end, w4)
        end
    end
  ∧ List.filter is_write (log (remove st p w).2) =
    List.filter is_write (log w) ++
    match b.2 with
    | None => if nonempty kept then [Remove filter] else []
    | Some _ => []
    end.
Proof.
  intros Hq Hf. cbv zeta.
  destruct (find_keeps _ _ _ _ Hf) as [K R].
  assert (Hh : ∀ s, List.filter is_write (hook_events s) = []).
  { intros s. unfold hook_events. induction (cs_trace s); simpl; auto. }
  match goal with |- ?A = ?B ∧ _ => assert (E : A = B) end.
  { unfold remove. unfold mbind at 1. unfold M_bind, lift at 1. rewrite Hq.
    unfold mbind at 1. unfold M_bind. fold (with_query p q). rewrite Hf.
    unfold mbind at 1. unfold M_bind. rewrite (collection_named_ready _ R).
    unfold mbind at 1. unfold M_bind, gets at 1.
    unfold mbind at 1. unfold M_bind. rewrite runHooks_eq.
    destruct (_runHooks (before_remove (hooks (self w1))) snap (seed w1)) as [sb ob].
    cbn [fst snd self data seed log].
    unfold mbind at 1. unfold M_bind.
    rewrite (collection_send_ready (World (self w1) (data w1) (cs_seed sb)
                                          (log w1 ++ hook_events sb)) R).
    unfold mbind at 1. unfold M_bind, attempt at 1, _collection_end, mret at 1, M_ret.
    unfold mbind at 1. unfold M_bind, slot at 1.
    destruct ob as [e|]; [reflexivity|].
    unfold mret at 1. unfold M_ret.
    unfold mbind at 1. unfold M_bind, lift at 1.
    unfold mbind at 1. unfold M_bind.
    destruct (nonempty (cs_docs sb)).
    - unfold call_store. cbn [fst snd self data seed log].
      destruct (col_remove st (by_ids (pluck (VArr (cs_docs sb)) "_id")) (data w1))
        as [[r|e] d3]; cbn [fst snd self data seed log]; [|reflexivity].
      unfold mbind at 1. unfold M_bind, gets at 1. cbn [fst snd self data seed log].
      unfold mbind at 1. unfold M_bind. rewrite runHooks_eq.
      cbn [fst snd self data seed log].
      by destruct (_runHooks (after_remove (hooks (self w1))) (cs_docs sb) (cs_seed sb))
        as [sa [e|]].
    - unfold mret at 1. unfold M_ret.
      unfold mbind at 1. unfold M_bind, gets at 1. cbn [fst snd self data seed log].
      unfold mbind at 1. unfold M_bind. rewrite runHooks_eq.
      cbn [fst snd self data seed log].
      by destruct (_runHooks (after_remove (hooks (self w1))) (cs_docs sb) (cs_seed sb))
        as [sa [e|]]. }
  split; [exact E|]. rewrite E. clear E.
  destruct (_runHooks (before_remove (hooks (self w1))) snap (seed w1)) as [sb [e|]];
    cbn [fst snd self data seed log].
  { by rewrite List.filter_app, Hh, !app_nil_r, (k_writes _ _ K). }
  destruct (nonempty (cs_docs sb)).
  - destruct (col_remove st (by_ids (pluck (VArr (cs_docs sb)) "_id")) (data w1))
      as [[r|e] d3]; cbn [fst snd self data seed log];
      rewrite !List.filter_app, !Hh, !app_nil_r; simpl; by rewrite (k_writes _ _ K).
  - cbn [fst snd self data seed log].
    rewrite !List.filter_app, !Hh, !app_nil_r; by rewrite (k_writes _ _ K).
Qed.

(** The [find] of an operation, once the query is normalised and the
    collection at hand: the documents the store selects for the query, in the
    order of [sort], through the window of [skip] and [limit], each
    projected on [fields]. *)
Lemma find_selects p w w0 q sel s l :
  makeQuery (query p) = Ok q →
  _collection st w = (Ok tt, w0) →
  reads_as (skip p) s → reads_as (limit p) l →
  col_select st q (if truthy (sort p) then Some (sort p) else None) (data w0) = Ok sel →
  find st p w =
    (Ok (map (col_project st (match fields p with VUndef => VObj [] | f => f end))
             (window s l sel)),
     World (self w0) (data w0) (seed w0)
           (log w0 ++ [Find {| c_query := q;
                               c_fields := match fields p with VUndef => VObj [] | f => f end;
                               c_sort := if truthy (sort p) then Some (sort p) else None;
                               c_skip := if truthy (skip p) then Some (skip p) else None;
                               c_limit := if truthy (limit p) then limit p else VNull |}
                            ToArray])).
Proof.
  intros Hq Hc Hsk Hli Hs. unfold find, _findCursor. unfold_m. rewrite Hq, Hc.
  unfold cursor_of. rewrite (toArray_window _ _ _ _ _ _ _ _ Hsk Hli), Hs. reflexivity.
Qed.

(** C5.  [remove] first takes a snapshot of the documents the query matches:
    by a [find] with the normalised query and the caller's sort, skip and
    limit, that is the documents [sel] the store selects for the query, in
    the order of [sort], through the window of [skip] and [limit], projected
    on [fields].  The hooks before remove are run on that snapshot and leave
    the list [kept].  The only write the store sees is one [remove]
    restricted to the [_id]s of [kept], not of the snapshot (and none at all
    when [kept] is empty or a hook failed).  The hooks after remove are then
    run on [kept], and what they leave is handed to the callback. *)
Theorem remove_deletes_what_the_before_hooks_left
    (p : find_params) (w w0 : world st) (q q' : value) (sel : list value) (s l : Z) :
  makeQuery (query p) = Ok q →
  makeQuery q = Ok q' →
  _collection st w = (Ok tt, w0) →
  reads_as (skip p) s → reads_as (limit p) l →
  let srt := if truthy (sort p) then Some (sort p) else None in
  let flds := match fields p with VUndef => VObj [] | f => f end in
  col_select st q' srt (data w0) = Ok sel →
  let snap := map (col_project st flds) (window s l sel) in
  let c := {| c_query := q'; c_fields := flds; c_sort := srt;
              c_skip := if truthy (skip p) then Some (skip p) else None;
              c_limit := if truthy (limit p) then limit p else VNull |} in
  let w1 := World (self w0) (data w0) (seed w0) (log w0 ++ [Find c ToArray]) in
  let b := _runHooks (before_remove (hooks (self w1))) snap (seed w1) in
  let kept := cs_docs b.1 in
  let w2 := World (self w1) (data w1) (cs_seed b.1) (log w1 ++ hook_events b.1) in
  let filter := by_ids (pluck (VArr kept) "_id") in
  let deleted := col_remove st filter (data w1) in
  let w3 := if nonempty kept
            then World (self w1) deleted.2 (seed w2) (log w2 ++ [Remove filter])
            else w2 in
  let a := _runHooks (after_remove (hooks (self w1))) kept (seed w2) in
  let w4 := World (self w1) (data w3) (cs_seed a.1) (log w3 ++ hook_events a.1) in
  remove st p w =
    match b.2 with
    | Some e => (Err e, w2)
    | None =>
        match (if nonempty kept then deleted.1 else Ok VUndef) with
        | Err e => (Err e, w3)
        | Ok _ => (match a.2 with Some e => Err e | None => Ok (cs_docs a.1) end, w4)
        end
    end
  ∧ List.filter is_write (log (remove st p w).2) =
    List.filter is_write (log w) ++
    match b.2 with
    | None => if nonempty kept then [Remove filter] else []
    | Some _ => []
    end.
Proof.
  intros Hq Hq' Hc Hsk Hli srt flds Hs snap c w1.
  apply (remove_run p w w1 q snap Hq).
  exact (find_selects (with_query p q) w w0 q' sel s l Hq' Hc Hsk Hli Hs).
Qed.

Ltac step := unfold mbind at 1; unfold M_bind.

(** C3.  [updateOne] asks the store for one [findAndModify] with [new: true].
    When the store reports no document, the operation fails: with
    "Upsert failed" when [params.upsert] was set and with
    "Document does not exist" otherwise.  When it reports a document, exactly
    one chain is run on it, chosen by the store's report: the hooks after
    upsert when [lastErrorObject.upserted] is truthy and the hooks after
    update otherwise; the events added to the log are those of that chain
    alone.  The callback gets the document the store reported as the
    handlers of that chain have left it, what they wrote into it included,
    and after it the [params.docs] of the chain. *)
Theorem updateOne_fails_or_runs_one_chain
    (p : update_params) (w w1 : world st) (q doc leo : value) (d2 : db st) :
  makeQuery (u_query p) = Ok q →
  _collection st w = (Ok tt, w1) →
  let params := {| fam_query := q; fam_update := u_update p; fam_fields := u_fields p;
                   fam_sort := u_sort p; fam_upsert := u_upsert p; fam_new := true |} in
  col_findAndModify st params (data w1) = (Ok (doc, leo), d2) →
  let w2 := World (self w1) d2 (seed w1) (log w1 ++ [FindAndModify params]) in
  if truthy doc then
    ∀ upserted, member leo "upserted" = Ok upserted →
      let chain := if truthy upserted then after_upsert (hooks (self w1))
                   else after_update (hooks (self w1)) in
      let a := _runHooks chain [doc] (seed w1) in
      updateOne st p w =
        (match a.2 with
         | Some e => Err e
         | None => Ok (edited chain doc [doc] (seed w1) true, cs_docs a.1)
         end,
         World (self w1) d2 (cs_seed a.1) (log w2 ++ hook_events a.1))
  else
    updateOne st p w =
      (Err (Error (if truthy (u_upsert p) then "Tenge: Upsert failed"
                   else "Tenge: Document does not exist")), w2).
Proof.
  intros Hq Hc params Hf w2.
  destruct (truthy doc) eqn:Hd.
  - intros upserted Hm chain a.
    unfold updateOne. step. unfold lift at 1. rewrite Hq. step. rewrite Hc.
    step. unfold call_store at 1. fold params. rewrite Hf.
    step. unfold lift at 1, _assert. rewrite Hd.
    step. unfold lift at 1. rewrite Hm.
    step. unfold gets at 1. cbn [self]. fold chain.
    step. unfold gets at 1. cbn [seed].
    step. rewrite runHooks_eq. cbn [fst snd self data seed log]. fold a.
    unfold slot, lift, mret, M_ret, mbind, M_bind. by destruct a.2.
  - unfold updateOne. step. unfold lift at 1. rewrite Hq. step. rewrite Hc.
    step. unfold call_store at 1. fold params. rewrite Hf.
    step. unfold lift at 1, _assert. rewrite Hd.
    by destruct (truthy (u_upsert p)).
Qed.

Lemma makeQuery_by_ids ids : makeQuery (by_ids ids) = Ok (by_ids ids).
Proof.
  apply makeQuery_plain; simpl.
  - apply NoDup_singleton.
  - intros H. apply list_elem_of_singleton in H. discriminate.
Qed.

Lemma pluck_projected (L : lawful st) sel :
  pluck (VArr (map (col_project st key_only) sel)) "_id" = pluck (VArr sel) "_id".
Proof.
  unfold pluck. rewrite map_map. apply map_ext. intros d. apply (project_key st L).
Qed.

Lemma nonempty_map {A B} (f : A → B) xs : nonempty (map f xs) = nonempty xs.
Proof. by destruct xs. Qed.

Lemma nonempty_perm {A} (xs ys : list A) : xs ≡ₚ ys → nonempty xs = nonempty ys.
Proof.
  intros H. destruct xs, ys; try done.
  - by apply Permutation_nil_cons in H.
  - symmetry in H. by apply Permutation_nil_cons in H.
Qed.

Lemma window_sublist s l (xs : list value) : window s l xs `sublist_of` xs.
Proof.
  unfold window. destruct (l =? 0).
  - apply sublist_drop.
  - etrans; [apply sublist_take|apply sublist_drop].
Qed.

Lemma window_all l (xs : list value) :
  l = 0 ∨ Z.of_nat (length xs) ≤ l → window 0 l xs = xs.
Proof.
  intros H. unfold window. simpl. rewrite drop_0.
  destruct (Z.eqb_spec l 0) as [|Hl]; [done|].
  apply take_ge. lia.
Qed.

Lemma window_length_le l (xs : list value) :
  0 < l → Z.of_nat (length (window 0 l xs)) ≤ l.
Proof.
  intros H. unfold window. simpl. rewrite drop_0.
  destruct (Z.eqb_spec l 0); [lia|]. rewrite length_take. lia.
Qed.

Lemma pluck_sublist xs ys k :
  xs `sublist_of` ys → pluck (VArr xs) k `sublist_of` pluck (VArr ys) k.
Proof. intros H. unfold pluck. by apply (fmap_sublist (fun d => prop d k)). Qed.

(** The keys a re-fetch by the snapshot's keys yields, after the update. *)
Lemma refetch_keys (L : lawful st) q srt srt' d1 sel0 s l f u r d2 sel :
  valid st L d1 →
  col_select st q srt d1 = Ok sel0 →
  col_update st f u multi d1 = (Ok r, d2) →
  col_select st (by_ids (pluck (VArr (window s l sel0)) "_id")) srt' d2 = Ok sel →
  pluck (VArr sel) "_id" ≡ₚ pluck (VArr (window s l sel0)) "_id".
Proof.
  intros Hv Hs0 Hu Hs.
  destruct (select_keys st L _ _ _ _ Hv Hs0) as [Hnd0 Hin0].
  destruct (update_keys st L _ _ _ _ _ Hv Hu) as [Hv2 Hk].
  destruct (select_keys st L _ _ _ _ Hv2 Hs) as [Hnd _].
  pose proof (pluck_sublist _ _ "_id" (window_sublist s l sel0)) as Hsub.
  apply NoDup_Permutation; [done|exact (sublist_NoDup _ _ Hnd0 Hsub)|]. intros k.
  rewrite (select_by_ids st L _ _ _ _ Hv2 Hs k). rewrite Hk. split; [tauto|].
  intros Hin. split; [done|]. apply Hin0. exact (elem_of_sublist _ _ _ Hin Hsub).
Qed.

(** C1, as it holds.  When the snapshot [find] of [updateAll] returns at
    least one document: the snapshot is the store's selection for the
    normalised query, in the order of [sort] (by key when none is given),
    through the window of the caller's [skip] and [limit], projected on
    [{_id: true}]; taking it has run no hook and written nothing; the update
    sent to the store is [{_id: {$in: ids}}] with [{multi: true}], where
    [ids] are the keys of the snapshot and not the caller's query; the
    documents are fetched again by [{_id: {$in: ids}}], the store's
    selection [sel] for it has the keys of the snapshot (up to order), and the
    second [find] hands on [sel] through the same window, projected on the
    caller's [fields]; the chain registered after update is run on these
    documents when there is one, and what it leaves is handed to the
    callback.  Without a skip these are all of [sel]; their keys are then the
    keys of the snapshot when the projection keeps the key, and they are
    what the callback gets when no handler is registered after update. *)
Theorem updateAll_updates_the_snapshot_by_key
    (L : lawful st) (p : update_params) (w w1 : world st) (q : value) (snap : list value)
    (s l : Z) :
  valid st L (data w) →
  makeQuery (u_query p) = Ok q →
  reads_as (u_skip p) s → reads_as (u_limit p) l →
  let srt := match u_sort p with VUndef => by_key | s => s end in
  let order := if truthy srt then Some srt else None in
  updateAll_snapshot st q srt (u_skip p) (u_limit p) w = (Ok snap, w1) →
  let ids := pluck (VArr snap) "_id" in
  nonempty ids = true →
  let flds := match u_fields p with VUndef => VObj [] | f => f end in
  let upd := col_update st (by_ids ids) (u_update p) multi (data w1) in
  let w2 := World (self w1) upd.2 (seed w1)
                  (log w1 ++ [Update (by_ids ids) (u_update p) multi]) in
  let c := {| c_query := by_ids ids; c_fields := flds; c_sort := order;
              c_skip := if truthy (u_skip p) then Some (u_skip p) else None;
              c_limit := if truthy (u_limit p) then u_limit p else VNull |} in
  let w3 := logged w2 [Find c ToArray] in
  (List.filter is_hook (log w1) = List.filter is_hook (log w)
   ∧ List.filter is_write (log w1) = List.filter is_write (log w)) ∧
  (∃ q' sel0, makeQuery q = Ok q' ∧ col_select st q' order (data w1) = Ok sel0 ∧
              snap = map (col_project st key_only) (window s l sel0)) ∧
  match upd.1 with
  | Err e => updateAll st p w = (Err e, w2)
  | Ok _ =>
      match col_select st (by_ids ids) order upd.2 with
      | Err e => updateAll st p w = (Err e, w3)
      | Ok sel =>
          let given := map (col_project st flds) (window s l sel) in
          let a := _runHooks (after_update (hooks (self w))) given (seed w) in
          pluck (VArr sel) "_id" ≡ₚ ids ∧
          (s = 0 → given = map (col_project st flds) sel ∧ nonempty given = true) ∧
          (s = 0 → (∀ d, prop (col_project st flds d) "_id" = prop d "_id") →
           pluck (VArr given) "_id" ≡ₚ ids) ∧
          (s = 0 → after_update (hooks (self w)) = [] →
           (updateAll st p w).1 = Ok (map (col_project st flds) sel)) ∧
          updateAll st p w =
            if nonempty given
            then (match a.2 with Some e => Err e | None => Ok (cs_docs a.1) end,
                  World (self w1) upd.2 (cs_seed a.1) (log w3 ++ hook_events a.1))
            else (Ok [], w3)
      end
  end.
Proof.
  intros Hv Hq Hsk Hli srt order Hsnap ids Hne. cbv zeta.
  destruct (updateAll_snapshot_ok _ _ _ _ _ _ _ _ _ Hsk Hli Hsnap)
    as (K & R & q' & sel0 & Hq' & Hs0 & Hsn).
  split; [split; [exact (k_hooks _ _ K)|exact (k_writes _ _ K)]|].
  split; [by exists q', sel0|].
  set (flds := match u_fields p with VUndef => VObj [] | f => f end).
  set (c := {| c_query := by_ids ids; c_fields := flds; c_sort := order;
               c_skip := if truthy (u_skip p) then Some (u_skip p) else None;
               c_limit := if truthy (u_limit p) then u_limit p else VNull |}).
  assert (E : updateAll st p w =
    match col_update st (by_ids ids) (u_update p) multi (data w1) with
    | (Err e, d2) =>
        (Err e, World (self w1) d2 (seed w1)
                      (log w1 ++ [Update (by_ids ids) (u_update p) multi]))
    | (Ok _, d2) =>
        let w2 := World (self w1) d2 (seed w1)
                        (log w1 ++ [Update (by_ids ids) (u_update p) multi]) in
        match col_select st (by_ids ids) order d2 with
        | Err e => (Err e, logged w2 [Find c ToArray])
        | Ok sel =>
            let ds := map (col_project st flds) (window s l sel) in
            if nonempty ds then
              let a := _runHooks (after_update (hooks (self w1))) ds (seed w1) in
              (match a.2 with Some e => Err e | None => Ok (cs_docs a.1) end,
               World (self w1) d2 (cs_seed a.1)
                     (log (logged w2 [Find c ToArray]) ++ hook_events a.1))
            else (Ok [], logged w2 [Find c ToArray])
        end
    end).
  { unfold updateAll. step. unfold lift at 1. rewrite Hq. fold srt.
    step. rewrite Hsnap. fold ids. rewrite Hne. cbn [negb andb].
    step. unfold call_store at 1.
    destruct (col_update st (by_ids ids) (u_update p) multi (data w1)) as [[r|e] d2];
      [|reflexivity].
    step. rewrite ?Hne. unfold mret at 1, M_ret. step. rewrite ?Hne.
    rewrite (find_ready _ _ (by_ids ids)); [|exact R|apply makeQuery_by_ids].
    cbn [self data seed log]. cbv zeta.
    unfold cursor_of. cbn [fields sort skip limit]. fold flds order c.
    unfold c at 1. rewrite (toArray_window _ _ _ _ _ _ _ _ Hsk Hli).
    destruct (col_select st (by_ids ids) order d2) as [sel|e]; [|reflexivity].
    cbn [mbind result_bind].
    destruct (nonempty (map _ (window s l sel))); cbn [negb]; [|reflexivity].
    step. unfold gets at 1. step. rewrite runHooks_eq.
    cbn [fst snd self data seed log logged].
    unfold slot, lift, mret, M_ret.
    by destruct (_runHooks _ _ _) as [sa [e|]]. }
  rewrite E. clear E.
  destruct (col_update st (by_ids ids) (u_update p) multi (data w1)) as [[r|e] d2] eqn:Hu;
    cbn [fst snd]; [|reflexivity].
  cbv zeta.
  destruct (col_select st (by_ids ids) order d2) as [sel|e] eqn:Hs; [|reflexivity].
  assert (Hp : pluck (VArr sel) "_id" ≡ₚ ids).
  { subst ids. rewrite Hsn, (pluck_projected L) in *.
    eapply (refetch_keys L); [apply (k_valid _ _ K L Hv)|exact Hs0|exact Hu|exact Hs]. }
  assert (Hall : s = 0 → window s l sel = sel).
  { intros ->. apply window_all.
    destruct Hli as [[_ Hl]|[_ ->]]; [right|by left].
    assert (length sel = length (window 0 l sel0)) as ->.
    { apply Permutation_length in Hp. subst ids. rewrite Hsn in Hp.
      unfold pluck in Hp. by rewrite !length_map in Hp. }
    by apply window_length_le. }
  assert (Hsel : nonempty sel = true).
  { rewrite <- Hne. unfold pluck in Hp.
    rewrite <- (nonempty_map (fun d => prop d "_id") sel). by apply nonempty_perm. }
  rewrite (k_after_update _ _ K), (k_seed _ _ K).
  split; [exact Hp|]. split; [|split; [|split]].
  - intros H0. rewrite (Hall H0). split; [done|]. by rewrite nonempty_map.
  - intros H0 Hkey. rewrite (Hall H0). etrans; [|exact Hp].
    unfold pluck. rewrite map_map.
    erewrite map_ext; [reflexivity|]. intros d. apply Hkey.
  - intros H0 Hno. rewrite (Hall H0), Hno, nonempty_map, Hsel. reflexivity.
  - reflexivity.
Qed.

(** C2, as it holds.  When the snapshot [find] of [updateAll] returns no
    document, taking it has run no hook and written nothing, and it is the
    store's selection for the normalised query through the window of the
    caller's [skip] and [limit]; without a skip the query matches no
    document.  Without [params.upsert] the operation hands an empty list to
    the callback and the log gains no hook event.  With [params.upsert] the
    update is sent with the caller's query and
    [{upsert: true, multi: true}], the keys are read from the report's
    [upserted], the documents with these keys are fetched through the same
    window of [skip] and [limit], and the only chain run is the one
    registered after upsert, on the documents the window has let through:
    all of them without a skip and with a limit, if any, that they do not
    exceed.  When the window has let none through, an empty list is handed
    to the callback and no handler is called. *)
Theorem updateAll_without_matches
    (L : lawful st) (p : update_params) (w w1 : world st) (q : value) (snap : list value)
    (s l : Z) :
  makeQuery (u_query p) = Ok q →
  reads_as (u_skip p) s → reads_as (u_limit p) l →
  let srt := match u_sort p with VUndef => by_key | s => s end in
  let order := if truthy srt then Some srt else None in
  updateAll_snapshot st q srt (u_skip p) (u_limit p) w = (Ok snap, w1) →
  pluck (VArr snap) "_id" = [] →
  let flds := match u_fields p with VUndef => VObj [] | f => f end in
  (List.filter is_hook (log w1) = List.filter is_hook (log w)
   ∧ List.filter is_write (log w1) = List.filter is_write (log w)) ∧
  (∃ q' sel0, makeQuery q = Ok q' ∧ col_select st q' order (data w1) = Ok sel0 ∧
              window s l sel0 = [] ∧ (s = 0 → sel0 = [])) ∧
  if truthy (u_upsert p) then
    let upd := col_update st q (u_update p) upsert_multi (data w1) in
    let w2 := World (self w1) upd.2 (seed w1)
                    (log w1 ++ [Update q (u_update p) upsert_multi]) in
    match upd.1 with
    | Err e => updateAll st p w = (Err e, w2)
    | Ok r =>
        match member r "upserted" with
        | Err e => updateAll st p w = (Err e, w2)
        | Ok ups =>
            let ids := pluck ups "_id" in
            let c := {| c_query := by_ids ids; c_fields := flds; c_sort := order;
                        c_skip := if truthy (u_skip p) then Some (u_skip p) else None;
                        c_limit := if truthy (u_limit p) then u_limit p else VNull |} in
            let w3 := logged w2 [Find c ToArray] in
            if nonempty ids then
              match col_select st (by_ids ids) order upd.2 with
              | Err e => updateAll st p w = (Err e, w3)
              | Ok sel =>
                  let given := map (col_project st flds) (window s l sel) in
                  let a := _runHooks (after_upsert (hooks (self w))) given (seed w) in
                  (s = 0 → l = 0 ∨ Z.of_nat (length sel) ≤ l →
                   given = map (col_project st flds) sel) ∧
                  updateAll st p w =
                    if nonempty given
                    then (match a.2 with Some e => Err e | None => Ok (cs_docs a.1) end,
                          World (self w1) upd.2 (cs_seed a.1) (log w3 ++ hook_events a.1))
                    else (Ok [], w3)
              end
            else updateAll st p w = (Ok [], w2)
        end
    end
  else
    let upd := col_update st (by_ids []) (u_update p) multi (data w1) in
    let w2 := World (self w1) upd.2 (seed w1)
                    (log w1 ++ [Update (by_ids []) (u_update p) multi]) in
    match upd.1 with
    | Err e => updateAll st p w = (Err e, w2)
    | Ok _ => updateAll st p w = (Ok [], w2)
    end.
Proof.
  intros Hq Hsk Hli srt order Hsnap Hids flds.
  destruct (updateAll_snapshot_ok _ _ _ _ _ _ _ _ _ Hsk Hli Hsnap)
    as (K & R & q' & sel0 & Hq' & Hs0 & Hsn).
  split; [split; [exact (k_hooks _ _ K)|exact (k_writes _ _ K)]|].
  split.
  { assert (Hw : window s l sel0 = []).
    { rewrite Hsn in Hids. unfold pluck in Hids. rewrite map_map in Hids.
      by destruct (window s l sel0). }
    exists q', sel0. split_and!; [done|done|done|].
    intros ->. revert Hw. unfold window. simpl. rewrite drop_0.
    destruct Hli as [[_ Hl]|[_ ->]]; [|done].
    destruct (Z.eqb_spec l 0); [lia|].
    destruct (Z.to_nat l) eqn:El; [lia|]. by destruct sel0. }
  destruct (truthy (u_upsert p)) eqn:Hup; cbv zeta.
  - destruct (col_update st q (u_update p) upsert_multi (data w1)) as [[r|e] d2] eqn:Hu;
      cbn [fst snd].
    2: { unfold updateAll. step. unfold lift at 1. rewrite Hq. fold srt.
         step. rewrite Hsnap, Hids, Hup. cbn [nonempty negb andb].
         step. unfold call_store at 1. by rewrite Hu. }
    destruct (member r "upserted") as [ups|e] eqn:Hm.
    2: { unfold updateAll. step. unfold lift at 1. rewrite Hq. fold srt.
         step. rewrite Hsnap, Hids, Hup. cbn [nonempty negb andb].
         step. unfold call_store at 1. rewrite Hu.
         step. step. unfold lift at 1. by rewrite Hm. }
    destruct (nonempty (pluck ups "_id")) eqn:Hne.
    + destruct (col_select st (by_ids (pluck ups "_id")) order d2) as [sel|e] eqn:Hs.
      * split; [intros -> Hl; by rewrite window_all by exact Hl|].
        unfold updateAll. step. unfold lift at 1. rewrite Hq. fold srt.
        step. rewrite Hsnap, Hids, Hup. cbn [nonempty negb andb].
        step. unfold call_store at 1. rewrite Hu.
        step. step. unfold lift at 1. rewrite Hm.
        unfold mret at 1, M_ret. rewrite Hne.
        step. rewrite (find_ready _ _ (by_ids (pluck ups "_id")));
          [|exact R|apply makeQuery_by_ids].
        cbn [self data seed log].
        unfold cursor_of. cbn [fields sort skip limit]. fold flds order.
        rewrite (toArray_window _ _ _ _ _ _ _ _ Hsk Hli), Hs.
        cbn [mbind result_bind].
        destruct (nonempty (map _ (window s l sel))); cbn [negb]; [|reflexivity].
        step. unfold gets at 1. step. rewrite runHooks_eq.
        cbn [fst snd self data seed log logged].
        rewrite (k_after_upsert _ _ K), (k_seed _ _ K).
        unfold slot, lift, mret, M_ret. by destruct (_runHooks _ _ _) as [sa [e|]].
      * unfold updateAll. step. unfold lift at 1. rewrite Hq. fold srt.
        step. rewrite Hsnap, Hids, Hup. cbn [nonempty negb andb].
        step. unfold call_store at 1. rewrite Hu.
        step. step. unfold lift at 1. rewrite Hm.
        unfold mret at 1, M_ret. rewrite Hne.
        step. rewrite (find_ready _ _ (by_ids (pluck ups "_id")));
          [|exact R|apply makeQuery_by_ids].
        cbn [self data seed log].
        unfold cursor_of. cbn [fields sort skip limit]. fold flds order.
        by rewrite (toArray_window _ _ _ _ _ _ _ _ Hsk Hli), Hs.
    + unfold updateAll. step. unfold lift at 1. rewrite Hq. fold srt.
      step. rewrite Hsnap, Hids, Hup. cbn [nonempty negb andb].
      step. unfold call_store at 1. rewrite Hu.
      step. step. unfold lift at 1. rewrite Hm.
      unfold mret at 1, M_ret. by rewrite Hne.
  - destruct (col_update st (by_ids []) (u_update p) multi (data w1)) as [[r|e] d2] eqn:Hu;
      cbn [fst snd].
    + destruct (update_report st L _ _ _ _ _ Hu) as (ups & Hm & Hno).
      unfold updateAll. step. unfold lift at 1. rewrite Hq. fold srt.
      step. rewrite Hsnap, Hids, Hup. cbn [nonempty negb andb].
      step. unfold call_store at 1. rewrite Hu.
      step. step. unfold lift at 1. rewrite Hm.
      unfold mret at 1, M_ret. by rewrite Hno.
    + unfold updateAll. step. unfold lift at 1. rewrite Hq. fold srt.
      step. rewrite Hsnap, Hids, Hup. cbn [nonempty negb andb].
      step. unfold call_store at 1. by rewrite Hu.
Qed.

(** *** Counting *)

Lemma findCursor_inv p w c w' :
  _findCursor st p w = (Ok c, w') →
  ∃ q, makeQuery (query p) = Ok q ∧ _collection st w = (Ok tt, w') ∧
       c = cursor_of q p.
Proof.
  unfold _findCursor, mbind, M_bind, lift, mret, M_ret. intros H.
  destruct (makeQuery (query p)) as [q|e]; [|discriminate].
  destruct (_collection st w) as [[[]|e] w1]; [|discriminate].
  simplify_eq. eauto.
Qed.

Lemma findCursor_window p w c w' sk li :
  _findCursor st p w = (Ok c, w') →
  _findCursor st (with_window p sk li) w =
    (Ok {| c_query := c_query c; c_fields := c_fields c; c_sort := c_sort c;
           c_skip := if truthy sk then Some sk else None;
           c_limit := if truthy li then li else VNull |}, w').
Proof.
  intros H. destruct (findCursor_inv _ _ _ _ H) as (q & Hq & Hc & ->).
  unfold _findCursor, mbind, M_bind, lift, mret, M_ret. simpl.
  rewrite Hq, Hc. reflexivity.
Qed.

Lemma window_length (xs : list value) (s l : nat) :
  Z.of_nat (length (take l (drop s xs))) =
  Z.min (Z.of_nat l) (Z.max 0 (Z.of_nat (length xs) - Z.of_nat s)).
Proof. rewrite length_take, length_drop. lia. Qed.

(** [count] and [size] under other windows, from one [count]. *)
Lemma count_window
    (p : find_params) (w : world st) (n : Z) :
  (count st p w).1 = Ok (VNum n) →
  (∀ sk li, (count st (with_window p sk li) w).1 = Ok (VNum n))
  ∧ (∀ sk li s l, reads_as sk s → reads_as li l →
       (size st (with_window p sk li) w).1 =
       Ok (VNum (if l =? 0 then Z.max 0 (n - s) else Z.min l (Z.max 0 (n - s))))).
Proof.
  intros H. unfold count in H. unfold mbind, M_bind in H.
  destruct (_findCursor st p w) as [[c|e] w'] eqn:Hc; [|discriminate].
  unfold read_store, call_store, Driver.count, mbind, result_bind in H. simpl in H.
  destruct (col_select st (c_query c) (c_sort c) (data w')) as [xs|e] eqn:Hs; [|discriminate].
  simpl in H. injection H as <-.
  split.
  - intros sk li. unfold count, mbind, M_bind.
    rewrite (findCursor_window _ _ _ _ sk li Hc).
    unfold read_store, call_store, Driver.count, mbind, result_bind. simpl. rewrite Hs. reflexivity.
  - intros sk li s l Hsk Hli. unfold size, mbind, M_bind.
    rewrite (findCursor_window _ _ _ _ sk li Hc).
    unfold read_store, call_store, Driver.size, yield, skipped, limited, mbind, result_bind. simpl.
    rewrite Hs.
    destruct Hsk as [[-> Hs0]|[Hf ->]], Hli as [[-> Hl0]|[Hg ->]]; simpl.
    + destruct (Z.eqb_spec s 0); [lia|]. destruct (Z.eqb_spec l 0); [lia|]. simpl.
      destruct (Z.leb_spec 0 s); [|lia]. simpl.
      destruct (Z.leb_spec 0 l); [|lia]. 
      destruct (Z.to_nat l) eqn:El; [lia|]. rewrite <- El. simpl.
      rewrite window_length. do 2 f_equal. lia.
    + destruct (Z.eqb_spec s 0); [lia|]. simpl. rewrite Hg. simpl.
      destruct (Z.leb_spec 0 s); [|lia]. simpl. rewrite length_drop. do 2 f_equal. lia.
    + rewrite Hf. simpl. destruct (Z.eqb_spec l 0); [lia|]. simpl.
      destruct (Z.leb_spec 0 l); [|lia].
      destruct (Z.to_nat l) eqn:El; [lia|]. rewrite <- El. simpl.
      rewrite <- (drop_0 xs) at 1. rewrite window_length. do 2 f_equal. lia.
    + rewrite Hf, Hg. simpl. do 2 f_equal. lia.
Qed.

(** C9.  On a fixed state of the collection, let [n] be the number of
    documents the store selects for the normalised query.  Then [count] is
    [n], and it is [n] whatever [skip] and [limit] are given; and [size]
    with a skip read as [s] and a limit read as [l] is
    [min l (max 0 (n - s))], or [max 0 (n - s)] when the limit is falsy
    ([l = 0]). *)
Theorem count_ignores_the_window_size_applies_it
    (p : find_params) (w w1 : world st) (q : value) (sel : list value) :
  makeQuery (query p) = Ok q →
  _collection st w = (Ok tt, w1) →
  col_select st q (if truthy (sort p) then Some (sort p) else None) (data w1) = Ok sel →
  let n := Z.of_nat (length sel) in
  (count st p w).1 = Ok (VNum n)
  ∧ (∀ sk li, (count st (with_window p sk li) w).1 = Ok (VNum n))
  ∧ (∀ sk li s l, reads_as sk s → reads_as li l →
       (size st (with_window p sk li) w).1 =
       Ok (VNum (if l =? 0 then Z.max 0 (n - s) else Z.min l (Z.max 0 (n - s))))).
Proof.
  intros Hq Hc Hs n.
  assert (H : (count st p w).1 = Ok (VNum n)).
  { unfold count, _findCursor. unfold_m. rewrite Hq, Hc.
    unfold Driver.count, cursor_of. cbn [c_query c_sort]. rewrite Hs. reflexivity. }
  split; [exact H|]. exact (count_window p w n H).
Qed.

(** *** Registering handlers, and inserting *)

(** X3.  [before] and [after] put the handler at the end of the list of its
    action and leave the five other lists, the collection and the rest of
    the instance as they were, so that handlers run in the order they were
    registered: [before] for [insert] and [remove], [after] for [insert],
    [update], [upsert] and [remove].  An action that has no list is
    refused and nothing is registered. *)
Theorem before_and_after_register_last_or_reject (action : string) (h : handler) (w : world st) :
  let registered bi br ai au ap ar :=
    (Ok tt,
     World {| collection := collection (self w);
              hooks := {| before_insert := bi; before_remove := br; after_insert := ai;
                          after_update := au; after_upsert := ap; after_remove := ar |};
              col := col (self w) |}
           (data w) (seed w) (log w)) in
  let r := hooks (self w) in
  before st "insert" h w =
    registered (before_insert r ++ [h]) (before_remove r) (after_insert r)
               (after_update r) (after_upsert r) (after_remove r)
  ∧ before st "remove" h w =
    registered (before_insert r) (before_remove r ++ [h]) (after_insert r)
               (after_update r) (after_upsert r) (after_remove r)
  ∧ after st "insert" h w =
    registered (before_insert r) (before_remove r) (after_insert r ++ [h])
               (after_update r) (after_upsert r) (after_remove r)
  ∧ after st "update" h w =
    registered (before_insert r) (before_remove r) (after_insert r)
               (after_update r ++ [h]) (after_upsert r) (after_remove r)
  ∧ after st "upsert" h w =
    registered (before_insert r) (before_remove r) (after_insert r)
               (after_update r) (after_upsert r ++ [h]) (after_remove r)
  ∧ after st "remove" h w =
    registered (before_insert r) (before_remove r) (after_insert r)
               (after_update r) (after_upsert r) (after_remove r ++ [h])
  ∧ (action ∉ ["insert"; "remove"] ++ inherited →
     before st action h w =
       (Err (Error ("Tenge: Before-hook for action not supported: " +:+ action)), w))
  ∧ (action ∉ ["insert"; "update"; "upsert"; "remove"] ++ inherited →
     after st action h w =
       (Err (Error ("Tenge: After-hook for action not supported: " +:+ action)), w)).
Proof.
  cbv zeta. split_and!; try reflexivity.
  - intros Hn. unfold before. step. unfold gets at 1.
    rewrite !not_elem_of_app, !not_elem_of_cons in Hn. destruct Hn as [(Hi & Hr & _) Hh].
    destruct (String.eqb_spec action "insert"); [done|].
    destruct (String.eqb_spec action "remove"); [done|].
    destruct (existsb (String.eqb action) inherited) eqn:E; [|reflexivity].
    exfalso. apply Hh. apply existsb_exists in E as (x & Hx & Hex).
    apply String.eqb_eq in Hex as ->. by apply list_elem_of_In.
  - intros Hn. unfold after. step. unfold gets at 1.
    rewrite !not_elem_of_app, !not_elem_of_cons in Hn.
    destruct Hn as [(Hi & Hu & Hp & Hr & _) Hh].
    destruct (String.eqb_spec action "insert"); [done|].
    destruct (String.eqb_spec action "update"); [done|].
    destruct (String.eqb_spec action "upsert"); [done|].
    destruct (String.eqb_spec action "remove"); [done|].
    destruct (existsb (String.eqb action) inherited) eqn:E; [|reflexivity].
    exfalso. apply Hh. apply existsb_exists in E as (x & Hx & Hex).
    apply String.eqb_eq in Hex as ->. by apply list_elem_of_In.
Qed.

(** X4.  Once the collection is set up, [insert] runs the handlers before insert
    on the compacted documents, hands the store the documents as these
    handlers left them, runs the handlers after insert on what the store
    answered, and hands the callback what they left.  A failing handler
    before insert keeps the documents from the store. *)
Theorem insert_stores_what_the_before_hooks_left (p : insert_params) (w : world st) :
  ready w →
  let ds := compact (spread (doc p) ++ spread (docs p)) in
  let b := _runHooks (before_insert (hooks (self w))) ds (seed w) in
  let w1 := World (self w) (data w) (cs_seed b.1) (log w ++ hook_events b.1) in
  let ins := col_insert st (cs_docs b.1) (data w) in
  let w2 := World (self w) ins.2 (cs_seed b.1) (log w1 ++ [Insert (cs_docs b.1)]) in
  insert st p w =
    match b.2 with
    | Some e => (Err e, w1)
    | None =>
        match ins.1 with
        | Err e => (Err e, w2)
        | Ok stored =>
            let a := _runHooks (after_insert (hooks (self w))) stored (cs_seed b.1) in
            (match a.2 with Some e => Err e | None => Ok (cs_docs a.1) end,
             World (self w) ins.2 (cs_seed a.1) (log w2 ++ hook_events a.1))
        end
    end.
Proof.
  intros R. cbv zeta. unfold insert.
  step. rewrite (collection_named_ready _ R).
  step. unfold lift at 1, _assert. cbn [truthy].
  step. unfold gets at 1.
  step. rewrite runHooks_eq.
  destruct (_runHooks (before_insert (hooks (self w))) _ (seed w)) as [sb ob].
  cbn [fst snd self data seed log].
  step. rewrite (collection_send_ready (World (self w) (data w) (cs_seed sb)
                                              (log w ++ hook_events sb)) R).
  step. unfold attempt at 1, _collection_end, mret at 1, M_ret.
  step. unfold slot at 1.
  destruct ob as [e|]; [reflexivity|].
  unfold mret at 1. unfold M_ret.
  step. unfold lift at 1.
  step. unfold call_store at 1. cbn [fst snd self data seed log].
  destruct (col_insert st (cs_docs sb) (data w)) as [[stored|e] d2];
    cbn [fst snd self data seed log]; [|reflexivity].
  step. unfold gets at 1. cbn [fst snd self data seed log].
  step. rewrite runHooks_eq. cbn [fst snd self data seed log].
  by destruct (_runHooks (after_insert (hooks (self w))) stored (cs_seed sb)) as [sa [e|]].
Qed.

(** *** Setting up the collection *)

(** X5.  The first [_collection] of an instance whose [_col] is not set asks the
    store for the index once, registers the handler that gives out [id]s
    at the end of the handlers before insert, and sets [_col]; after that
    [_collection] changes nothing: the index is not asked for again and no
    handler is registered again. *)
Theorem collection_is_set_up_once (w w1 : world st) :
  col (self w) = false →
  _collection st w = (Ok tt, w1) →
  log w1 = log w ++ [EnsureIndex]
  ∧ before_insert (hooks (self w1)) = before_insert (hooks (self w)) ++ [default_id_hook]
  ∧ col (self w1) = true
  ∧ _collection st w1 = (Ok tt, w1).
Proof.
  intros Hc H.
  assert (R : ready w1) by (by destruct (collection_keeps _ _ H)).
  assert (E : ∃ d', w1 = World {| collection := collection (self w);
                                  hooks := push_before_insert default_id_hook (hooks (self w));
                                  col := true |} d' (seed w) (log w ++ [EnsureIndex])).
  { clear R. revert H.
    unfold _collection, _collection_begin, _collection_end, before, _assert. unfold_m.
    destruct w as [[name hs c] d n l]. simpl in *. subst c.
    destruct (truthy name) eqn:Hn; [|discriminate]. simpl.
    destruct (col_ensureIndex st d) as [[[]|e] d'] eqn:He; [|discriminate].
    simpl. intros [= <-]. by exists d'. }
  destruct E as [d' ->]. simpl. split_and!; try done.
  by apply collection_ready.
Qed.

(** X6.  [_collection] fails with "No collection name provided" before anything
    else when the instance has no collection name.  When [ensureIndex] fails,
    its error is handed on and the instance is left as it was: [_col] stays
    unset and no handler is registered, so the next call starts over. *)
Theorem collection_fails_without_a_name_or_an_index (w : world st) :
  (truthy (collection (self w)) = false →
   _collection st w = (Err (Error "Tenge: No collection name provided"), w))
  ∧ (∀ e d, truthy (collection (self w)) = true → col (self w) = false →
       col_ensureIndex st (data w) = (Err e, d) →
       _collection st w = (Err e, World (self w) d (seed w) (log w ++ [EnsureIndex]))).
Proof.
  split.
  - intros Hn. unfold _collection, _collection_begin, _assert. unfold_m. by rewrite Hn.
  - intros e d Hn Hc He.
    unfold _collection, _collection_begin, _collection_end, _assert. unfold_m.
    rewrite Hn, Hc. simpl. by rewrite He.
Qed.

(** *** Reading is silent *)

Lemma collection_any w : silent w (_collection st w).2.
Proof.
  unfold _collection, _collection_begin, _collection_end, before, _assert. unfold_m.
  destruct w as [[name hs c] d n l]. simpl.
  destruct (truthy name); [|by unfold silent].
  destruct c; simpl; [by unfold silent|].
  destruct (col_ensureIndex st d) as [[[]|e] d']; simpl;
    (split_and!; simpl; [by rewrite List.filter_app, app_nil_r|by rewrite List.filter_app, app_nil_r|done]).
Qed.

Lemma findCursor_any p w : silent w (_findCursor st p w).2.
Proof.
  unfold _findCursor. step. unfold lift at 1.
  destruct (makeQuery (query p)) as [q|e]; [|by unfold silent].
  step. pose proof (collection_any w) as H.
  destruct (_collection st w) as [[[]|e] w1]; exact H.
Qed.

Lemma read_any {A} (f : cursor → M st A) p w :
  (∀ c w0, ∃ e r, f c w0 = (r, logged w0 [Find c e])) →
  silent w (M_bind st _ _ f (_findCursor st p) w).2.
Proof.
  intros Hf. unfold M_bind. pose proof (findCursor_any p w) as (Hw & Hh & Hd).
  destruct (_findCursor st p w) as [[c|e] w1]; [|by unfold silent].
  destruct (Hf c w1) as (t & r & ->). unfold silent, logged. simpl. split_and!.
  - by rewrite List.filter_app, app_nil_r.
  - by rewrite List.filter_app, app_nil_r.
  - exact Hd.
Qed.

(** X7.  [find], [findOne], [count] and [size] write nothing to the store and
    call no handler, whatever their outcome; once the collection is set up
    they leave the instance and the collection as they were. *)
Theorem reading_neither_writes_nor_runs_hooks (p : find_params) (w : world st) :
  silent w (find st p w).2 ∧ silent w (findOne st p w).2
  ∧ silent w (count st p w).2 ∧ silent w (size st p w).2.
Proof.
  split_and!; apply read_any; intros c w0; unfold read_store, call_store, logged;
    eexists _, _; reflexivity.
Qed.

(** *** A query that cannot be normalised *)

(** X8.  [_makeQuery] runs before the first asynchronous step of an operation:
    when it throws, [find], [findOne], [count], [size], [remove],
    [updateOne] and [updateAll] fail with what it threw, and nothing has
    happened: no call to the store, no handler, no set-up of the
    collection. *)
Theorem a_query_that_cannot_be_normalised_stops_the_operation
    (p : find_params) (u : update_params) (w : world st) (e : error) :
  makeQuery (query p) = Err e → u_query u = query p →
  find st p w = (Err e, w) ∧ findOne st p w = (Err e, w)
  ∧ count st p w = (Err e, w) ∧ size st p w = (Err e, w)
  ∧ remove st p w = (Err e, w)
  ∧ updateOne st u w = (Err e, w) ∧ updateAll st u w = (Err e, w).
Proof.
  intros Hq Hu.
  unfold find, findOne, count, size, remove, updateOne, updateAll, _findCursor.
  rewrite Hu. unfold_m. rewrite Hq. done.
Qed.

(** *** One document or many *)

(** X9.  [insert] takes [params.doc] and [params.docs] as one list, [doc] first:
    a document given as [doc] is inserted as if it were the first of [docs],
    and the falsy elements of [docs] are dropped. *)
Theorem insert_takes_doc_and_docs_as_one_list (d : value) (ds : list value) (w : world st) :
  (∀ xs, d ≠ VArr xs) →
  insert st {| doc := d; docs := VArr ds |} w
    = insert st {| doc := VUndef; docs := VArr (d :: ds) |} w
  ∧ insert st {| doc := VUndef; docs := VArr ds |} w
    = insert st {| doc := VUndef; docs := VArr (compact ds) |} w.
Proof.
  intros Hd. split.
  - unfold insert. cbn [doc docs].
    replace (compact (spread d ++ spread (VArr ds)))
      with (compact (spread VUndef ++ spread (VArr (d :: ds)))); [done|].
    destruct d as [| |b|n|s|x|xs|qs]; try done. exfalso. exact (Hd xs eq_refl).
  - unfold insert. cbn [doc docs].
    replace (compact (spread VUndef ++ spread (VArr (compact ds))))
      with (compact (spread VUndef ++ spread (VArr ds))); [done|].
    simpl. unfold compact. induction ds as [|x xs IH]; simpl; [done|].
    destruct (truthy x) eqn:Hx; simpl; [rewrite Hx; f_equal; exact IH|exact IH].
Qed.

(** *** A snapshot that fails *)

Lemma silent_refl (w : world st) : silent w w.
Proof. by unfold silent. Qed.

Lemma find_any p (w : world st) : silent w (find st p w).2.
Proof.
  apply read_any. intros c w0. unfold read_store, call_store, logged.
  eexists _, _. reflexivity.
Qed.

Lemma collection_begin_any (w : world st) :
  silent w (_collection_begin st w).2
  ∧ (col (self w) = true → col (self (_collection_begin st w).2) = true).
Proof.
  unfold _collection_begin, _assert. unfold_m.
  destruct w as [[name hs c] d n l]. simpl.
  destruct (truthy name); [|split; [apply silent_refl|done]].
  destruct c; simpl; [split; [apply silent_refl|done]|].
  destruct (col_ensureIndex st d) as [r d']. simpl. split; [|done].
  split_and!; simpl; [by rewrite List.filter_app, app_nil_r|by rewrite List.filter_app, app_nil_r|done].
Qed.

Lemma collection_end_logs pend (w : world st) : log (_collection_end st pend w).2 = log w.
Proof.
  unfold _collection_end, before. unfold_m.
  destruct w as [[name hs c] d n l]. by destruct pend as [|[[]|e]].
Qed.

Lemma collection_end_ready (w : world st) : _collection_end st Ready w = (Ok tt, w).
Proof. reflexivity. Qed.

Lemma find_keeps_col p (w : world st) : col (self w) = true → col (self (find st p w).2) = true.
Proof.
  intros Hc. destruct (find_any p w) as (_ & _ & H). destruct (H Hc) as [-> _]. exact Hc.
Qed.

Lemma updateAll_snapshot_any q srt sk li (w : world st) :
  silent w (updateAll_snapshot st q srt sk li w).2.
Proof.
  unfold updateAll_snapshot. step.
  destruct (collection_begin_any w) as [S1 C1].
  destruct (_collection_begin st w) as [[pend|e] w1] eqn:Hb; [|exact S1]. simpl in S1, C1.
  assert (Hp : col (self w) = true → pend = Ready).
  { intros Hc. revert Hb. unfold _collection_begin, _assert. unfold_m. rewrite Hc.
    destruct (truthy (collection (self w))); [|discriminate]. by intros [= <- _]. }
  step. unfold attempt at 1.
  pose proof (find_any {| query := q; fields := key_only; sort := srt;
                          skip := sk; limit := li |} w1) as S2.
  pose proof (find_keeps_col {| query := q; fields := key_only; sort := srt;
                                skip := sk; limit := li |} w1) as C2.
  destruct (find st _ w1) as [found w2]. simpl in S2, C2.
  step. unfold attempt at 1.
  pose proof (collection_end_logs pend w2) as L3.
  assert (S : silent w (_collection_end st pend w2).2).
  { destruct S1 as (A1 & B1 & D1), S2 as (A2 & B2 & D2). split_and!.
    - by rewrite L3, A2.
    - by rewrite L3, B2.
    - intros Hc. rewrite (Hp Hc). simpl.
      destruct (D1 Hc) as [E1 E2]. destruct (D2 (C1 Hc)) as [E3 E4]. split; congruence. }
  destruct (_collection_end st pend w2) as [fin w3]. simpl in S.
  unfold_m. destruct fin as [[]|e]; [|exact S]. by destruct found.
Qed.

(** X14.  When the [find] that takes the snapshot fails, [remove] and [updateAll]
    fail with its error, and nothing was written to the store and no
    handler was called. *)
Theorem a_failing_snapshot_stops_remove_and_updateAll
    (p : find_params) (u : update_params) (w : world st) (q : value) (e : error) :
  (makeQuery (query p) = Ok q → (find st (with_query p q) w).1 = Err e →
   (remove st p w).1 = Err e ∧ silent w (remove st p w).2)
  ∧ (makeQuery (u_query u) = Ok q →
     (updateAll_snapshot st q (match u_sort u with VUndef => by_key | s => s end)
                         (u_skip u) (u_limit u) w).1 = Err e →
     (updateAll st u w).1 = Err e ∧ silent w (updateAll st u w).2).
Proof.
  split.
  - intros Hq Hf.
    assert (E : remove st p w = (Err e, (find st (with_query p q) w).2)).
    { unfold remove. step. unfold lift at 1. rewrite Hq. step. fold (with_query p q).
      destruct (find st (with_query p q) w) as [r w1]. simpl in Hf. by subst r. }
    rewrite E. split; [done|apply find_any].
  - intros Hq Hf.
    assert (E : updateAll st u w =
                (Err e, (updateAll_snapshot st q
                           (match u_sort u with VUndef => by_key | s => s end)
                           (u_skip u) (u_limit u) w).2)).
    { unfold updateAll. step. unfold lift at 1. rewrite Hq. step.
      destruct (updateAll_snapshot st q _ _ _ w) as [r w1]. simpl in Hf. by subst r. }
    rewrite E. split; [done|apply updateAll_snapshot_any].
Qed.

End World.

(** ** The store in memory keeps the contract *)

Section MemLaws.
Import JS Driver Tenge MemStore.

Definition mem_keys (s : state) : list value := pluck (VArr (items s)) "_id".
Definition mem_valid (s : state) : Prop := NoDup (mem_keys s).

Lemma place_perm leb d ds : place leb d ds ≡ₚ d :: ds.
Proof.
  induction ds as [|e ds IH]; simpl; [done|].
  destruct (leb d e); [done|]. rewrite IH. apply perm_swap.
Qed.

Lemma sorted_by_perm srt ds : sorted_by srt ds ≡ₚ ds.
Proof.
  unfold sorted_by. destruct srt as [[| | | | | | |[|[k [| | |dir| | | |]] ?]]|]; try done.
  induction ds as [|d ds IH]; simpl; [done|]. by rewrite place_perm, IH.
Qed.

Lemma pluck_perm xs ys k : xs ≡ₚ ys → pluck (VArr xs) k ≡ₚ pluck (VArr ys) k.
Proof. intros H. unfold pluck. by apply Permutation_map. Qed.

Lemma filter_sublist {A} (f : A → bool) xs : List.filter f xs `sublist_of` xs.
Proof.
  induction xs as [|x xs IH]; simpl; [done|].
  destruct (f x); by constructor.
Qed.

Lemma mem_select_keys q srt s xs :
  mem_valid s → select q srt s = Ok xs →
  NoDup (pluck (VArr xs) "_id") ∧ ∀ k, k ∈ pluck (VArr xs) "_id" → k ∈ mem_keys s.
Proof.
  intros Hv [= <-].
  assert (Hsub : pluck (VArr (List.filter (matches q) (items s))) "_id" `sublist_of` mem_keys s).
  { unfold mem_keys, pluck. apply (fmap_sublist (fun d => prop d "_id")), filter_sublist. }
  pose proof (pluck_perm _ _ "_id" (sorted_by_perm srt (List.filter (matches q) (items s)))) as Hp.
  split.
  - rewrite Hp. exact (sublist_NoDup _ _ Hv Hsub).
  - intros k Hk. rewrite Hp in Hk. exact (elem_of_sublist _ _ _ Hk Hsub).
Qed.

Lemma matches_by_ids ids d :
  matches (by_ids ids) d = existsb (value_eqb (prop d "_id")) ids.
Proof. unfold matches, by_ids. simpl. by rewrite !andb_true_r. Qed.

Lemma existsb_eqb v ids : existsb (value_eqb v) ids = true ↔ v ∈ ids.
Proof.
  rewrite existsb_exists. split.
  - intros (x & Hin & He). apply value_eqb_eq in He as ->. by apply list_elem_of_In.
  - intros Hin. exists v. split; [by apply list_elem_of_In|by apply value_eqb_eq].
Qed.

Lemma mem_select_by_ids ids srt s xs :
  select (by_ids ids) srt s = Ok xs →
  ∀ k, k ∈ pluck (VArr xs) "_id" ↔ k ∈ ids ∧ k ∈ mem_keys s.
Proof.
  intros [= <-] k.
  rewrite (pluck_perm _ _ "_id" (sorted_by_perm srt _)).
  unfold mem_keys, pluck. split.
  - intros Hk. apply list_elem_of_In, in_map_iff in Hk as (d & <- & Hd).
    apply filter_In in Hd as [Hd Hm].
    rewrite matches_by_ids, existsb_eqb in Hm. split; [done|].
    apply list_elem_of_In, in_map_iff. by exists d.
  - intros [Hk Hin]. apply list_elem_of_In, in_map_iff in Hin as (d & <- & Hd).
    apply list_elem_of_In, in_map_iff. exists d. split; [done|].
    apply filter_In. split; [done|]. by rewrite matches_by_ids, existsb_eqb.
Qed.

Lemma assoc_assign_ne {A} k k' (v : A) ps :
  k ≠ k' → assoc k (assign k' v ps) = assoc k ps.
Proof.
  intros Hne. induction ps as [|[l x] ps IH]; simpl.
  - by destruct (String.eqb_spec k k').
  - destruct (String.eqb_spec k' l) as [->|]; simpl.
    + by destruct (String.eqb_spec k l).
    + destruct (String.eqb_spec k l); [done|exact IH].
Qed.

Lemma assoc_foldl_assign {A} k (fs ps : list (string * A)) :
  assoc k fs = None →
  assoc k (foldl (fun acc f => assign f.1 f.2 acc) ps fs) = assoc k ps.
Proof.
  revert ps. induction fs as [|[l v] fs IH]; intros ps; cbn [assoc foldl]; [done|].
  destruct (String.eqb_spec k l) as [->|Hne]; [discriminate|].
  intros Hn. rewrite IH by done. by apply assoc_assign_ne.
Qed.

Lemma apply_update_key u d :
  rewrites_key u = false → prop (apply_update u d) "_id" = prop d "_id".
Proof.
  unfold rewrites_key, apply_update. intros Hr.
  destruct d as [| | | | | | |ps]; try done. cbn [prop]. f_equal.
  apply bool_decide_eq_false in Hr. apply assoc_foldl_assign.
  destruct (assoc "_id" (set_fields u)); [|done]. exfalso. apply Hr. by eexists.
Qed.

Lemma mem_update_keys f u s r s' :
  mem_valid s → update f u multi s = (Ok r, s') →
  mem_valid s' ∧ ∀ k, k ∈ mem_keys s' ↔ k ∈ mem_keys s.
Proof.
  unfold update. intros Hv. destruct (rewrites_key u) eqn:Hr; [discriminate|].
  destruct (List.filter (matches f) (items s)) as [|first hit].
  - simpl. by intros [= <- <-].
  - intros [= <- <-]. unfold mem_valid, mem_keys, pluck in *. simpl.
    rewrite map_map.
    erewrite (map_ext _ (fun d => prop d "_id")); [done|].
    intros d. destruct (matches f d); [|done]. by apply apply_update_key.
Qed.

Lemma mem_update_report f u s r s' :
  update f u multi s = (Ok r, s') →
  ∃ ups, member r "upserted" = Ok ups ∧ pluck ups "_id" = [].
Proof.
  unfold update. destruct (rewrites_key u); [discriminate|].
  destruct (List.filter (matches f) (items s)) as [|first hit]; simpl;
    intros [= <- <-]; by eexists.
Qed.

Lemma assoc_filter {A} (f : string * A → bool) k ps :
  (∀ v, f (k, v) = true) → assoc k (List.filter f ps) = assoc k ps.
Proof.
  intros Hf. induction ps as [|[l x] ps IH]; simpl; [done|].
  destruct (String.eqb_spec k l) as [<-|Hne].
  - rewrite Hf. simpl. by rewrite String.eqb_refl.
  - destruct (f (l, x)); simpl; [|exact IH].
    by destruct (String.eqb_spec k l).
Qed.

Lemma mem_project_key d : prop (project key_only d) "_id" = prop d "_id".
Proof.
  destruct d as [| | | | | | |ps]; try done. unfold project, key_only. simpl.
  f_equal. by apply assoc_filter.
Qed.

Definition mem_lawful : lawful mem :=
  {| valid := mem_valid : db mem → Prop;
     keys := mem_keys : db mem → list value;
     ensureIndex_valid := fun d r d' H Hv => ltac:(by injection H as _ <-);
     select_keys := mem_select_keys;
     select_by_ids := fun ids srt d xs _ => mem_select_by_ids ids srt d xs;
     update_keys := mem_update_keys;
     update_report := mem_update_report;
     project_key := mem_project_key |}.
End MemLaws.

(** ** Where the code departs from what is said of it *)

Section Departures.
Import JS Hooks Driver Tenge Fixtures.

(** C1 does not hold of the code.  [updateAll] hands the caller's [skip] to
    both of its [find]s.  Four friends are under 20.  With [skip: 1] the
    snapshot holds the keys of Alice, Chris and Paul, and the three of them
    are updated.  The re-fetch by these three keys skips one again: Chris
    and Paul come back, and the handler after update is called with the two
    of them.  Alice has the hobby in the store, but she is not among the
    documents returned and no handler has seen her. *)
Lemma updateAll_with_a_skip_returns_fewer_than_it_updated :
  let r := Tenge.updateAll MemStore.mem chess_after_one world0 in
  (Tenge.count MemStore.mem (find_where minors) world0).1 = Ok (VNum 4)
  ∧ List.filter is_write (log r.2) =
      [Update (by_ids [VOid "oid-1"; VOid "oid-2"; VOid "oid-3"]) (set_hobby "chess") multi]
  ∧ r.1 = Ok [player "Chris" 17 "sid-2" "oid-2"; player "Paul" 16 "sid-3" "oid-3"]
  ∧ List.filter is_hook (log r.2) =
      [Hook "after update"
         [ VObj [("name", VStr "Chris"); ("age", VNum 17); ("id", VStr "sid-2");
                 ("_id", VOid "oid-2"); ("hobby", VStr "chess")];
           VObj [("name", VStr "Paul"); ("age", VNum 16); ("id", VStr "sid-3");
                 ("_id", VOid "oid-3"); ("hobby", VStr "chess")] ]]
  ∧ MemStore.items (data r.2) !! 1%nat =
      Some (VObj [("name", VStr "Alice"); ("age", VNum 17); ("id", VStr "sid-1");
                  ("_id", VOid "oid-1"); ("hobby", VStr "chess")]).
Proof. vm_compute. repeat split. Qed.

(** C2 does not hold of the code.  Nobody is 150.  With [upsert] and
    [skip: 1] the update is sent with the caller's query and
    [{upsert: true, multi: true}] and the store creates a document; the
    re-fetch by its key skips one document, the only one: the callback gets
    an empty list, and the handler after upsert is not called. *)
Lemma updateAll_upsert_with_a_skip_returns_nothing :
  let r := Tenge.updateAll MemStore.mem levitate_or_create_after_one world0 in
  (Tenge.count MemStore.mem (find_where (VObj [("age", VNum 150)])) world0).1 = Ok (VNum 0)
  ∧ List.filter is_write (log r.2) =
      [Update (VObj [("age", VNum 150)]) (set_hobby "levitate") upsert_multi]
  ∧ MemStore.items (data r.2) !! 5%nat =
      Some (VObj [("age", VNum 150); ("_id", VOid "oid-5"); ("hobby", VStr "levitate")])
  ∧ r.1 = Ok []
  ∧ List.filter is_hook (log r.2) = [].
Proof. vm_compute. repeat split. Qed.

(** C4 does not hold of the code.  [insert] with neither [doc] nor [docs]:
    [_.compact([].concat(undefined, undefined))] is the empty array, which is
    truthy, so [_assert] lets it through.  The chain before insert runs on no
    document, the store is asked to insert the empty sequence, and the
    callback gets an empty list and no error. *)
Lemma insert_of_nothing_reaches_the_store :
  compact (spread (doc nothing) ++ spread (docs nothing)) = []
  ∧ _assert (VArr []) "no doc or docs specified for insert operation" = Ok tt
  ∧ (Tenge.insert MemStore.mem nothing world0).1 = Ok []
  ∧ log (Tenge.insert MemStore.mem nothing world0).2 = [Hook "makeID" []; Insert []].
Proof. vm_compute. repeat split. Qed.

(** C8 does not hold of the code.  The transformers [id] and [ids] do what is
    said of them and the marker is gone from the result.  The transformer
    [_id] calls [Tenge.makeOID], which the constructor does not have (only
    the prototype has [makeOID]): the call throws.  The transformer [_ids]
    hands the same missing function to [_.map], which then maps with the
    identity: the keys stay the strings they were and are not turned into
    object ids. *)
Lemma makeQuery_by_store_key_throws :
  makeQuery (VObj [("name", VStr "Bob"); ("$$", VObj [("id", VStr "c")])])
    = Ok (VObj [("name", VStr "Bob"); ("id", VStr "c")])
  ∧ makeQuery (VObj [("$$", VObj [("ids", VArr [VStr "a"; VNull; VStr "b"])])])
    = Ok (VObj [("id", VObj [("$in", VArr [VStr "a"; VStr "b"])])])
  ∧ makeQuery (VObj [("$$", VObj [("_id", VStr "55694ef8a8d8596e1b0d8830")])])
    = Err (TypeError "Tenge.makeOID is not a function")
  ∧ makeQuery (VObj [("$$", VObj [("_ids", VArr [VStr "55694ef8a8d8596e1b0d8830"])])])
    = Ok (VObj [("_id", VObj [("$in", VArr [VStr "55694ef8a8d8596e1b0d8830"])])]).
Proof. vm_compute. repeat split. Qed.

(** C10 does not hold of the code.  [_.omit] copies the query one level deep, so
    the object under [id] in the copy is the caller's own, and [_.merge]
    writes the transformer's [$in] into it: after the call the caller's
    [params.query.id] has gained [$in]. *)
Lemma makeQuery_writes_into_the_callers_query :
  around_makeQuery shared_query =
    (VObj [("query", VObj [("id", VObj [("$ne", VStr "x")]);
                           ("$$", VObj [("ids", VArr [VStr "a"])])])],
     Ok (VObj [("query", VObj [("id", VObj [("$ne", VStr "x"); ("$in", VArr [VStr "a"])])])],
         VObj [("query", VObj [("id", VObj [("$ne", VStr "x"); ("$in", VArr [VStr "a"])]);
                               ("$$", VObj [("ids", VArr [VStr "a"])])])])).
Proof. vm_compute. reflexivity. Qed.

End Departures.

(** ** The theorems on Bob and his friends *)

Section Examples.
Import JS Hooks Driver Tenge Fixtures.

Ltac distinct_values :=
  repeat (apply NoDup_cons_2;
          [ let H := fresh in
            intros H;
            repeat (apply elem_of_cons in H as [H|H]; [discriminate H|]);
            by apply elem_of_nil in H
          | ]);
  apply NoDup_nil_2.

(** From an equation [H] on a whole run to what the run shows through [f]. *)
Ltac observe H f := eapply eq_trans; [exact (f_equal f H)|vm_compute; reflexivity].

Lemma friends_valid : valid MemStore.mem mem_lawful friends.
Proof. unfold valid, mem_lawful, mem_valid, mem_keys. simpl. distinct_values. Qed.

(** A query without marker comes back as it was. *)
Lemma makeQuery_of_seventeen :
  makeQuery (VObj [("age", VNum 17)]) = Ok (VObj [("age", VNum 17)]).
Proof.
  apply (makeQuery_keeps_a_query_without_marker [("age", VNum 17)]); simpl.
  - distinct_values.
  - intros H. apply list_elem_of_singleton in H. discriminate H.
Defined.

(** Three of the five friends are 17: [count] is 3 with or without a
    window, and [size] follows the window. *)
Lemma count_and_size_on_the_friends :
  (count MemStore.mem seventeen world0).1 = Ok (VNum 3)
  ∧ (count MemStore.mem (with_window seventeen (VNum 2) (VNum 1)) world0).1 = Ok (VNum 3)
  ∧ (size MemStore.mem (with_window seventeen (VNum 1) (VNum 5)) world0).1 = Ok (VNum 2)
  ∧ (size MemStore.mem (with_window seventeen (VNum 1) (VNum 1)) world0).1 = Ok (VNum 1)
  ∧ (size MemStore.mem (with_window seventeen (VNum 4) (VNum 3)) world0).1 = Ok (VNum 0)
  ∧ (size MemStore.mem (with_window seventeen (VNum 2) VUndef) world0).1 = Ok (VNum 1).
Proof.
  destruct (count_ignores_the_window_size_applies_it MemStore.mem seventeen world0 world0
              (VObj [("age", VNum 17)])
              [ person "Bob" 17 "sid-0" "oid-0"; person "Alice" 17 "sid-1" "oid-1";
                person "Chris" 17 "sid-2" "oid-2" ]
              eq_refl eq_refl eq_refl)
    as (H0 & Hc & Hs).
  assert (Hpos : ∀ k, 0 < k → reads_as (VNum k) k) by (intros k Hk; by left).
  split_and!.
  - exact H0.
  - apply Hc.
  - apply (Hs (VNum 1) (VNum 5) 1 5); apply Hpos; lia.
  - apply (Hs (VNum 1) (VNum 1) 1 1); apply Hpos; lia.
  - apply (Hs (VNum 4) (VNum 3) 4 3); apply Hpos; lia.
  - apply (Hs (VNum 2) VUndef 2 0); [apply Hpos; lia|by right].
Defined.

(** Nobody is 150: [updateOne] fails.  Paul is 16: the chain after update
    runs on him, and no other, and he comes back with what its handler wrote
    into him.  With [upsert] a document is created and the chain after
    upsert runs on it, and no other. *)
Lemma updateOne_on_the_friends :
  (updateOne MemStore.mem levitate world0).1 = Err (Error "Tenge: Document does not exist")
  ∧ (updateOne MemStore.mem sports world0).1 =
    Ok (VObj [("name", VStr "Paul"); ("age", VNum 16); ("id", VStr "sid-3");
              ("_id", VOid "oid-3"); ("hobby", VStr "sports"); ("updated", VBool true)],
        [VObj [("name", VStr "Paul"); ("age", VNum 16); ("id", VStr "sid-3");
               ("_id", VOid "oid-3"); ("hobby", VStr "sports"); ("updated", VBool true)]])
  ∧ List.filter is_hook (log (updateOne MemStore.mem sports world0).2) =
    [Hook "after update"
       [VObj [("name", VStr "Paul"); ("age", VNum 16); ("id", VStr "sid-3");
              ("_id", VOid "oid-3"); ("hobby", VStr "sports")]]]
  ∧ (updateOne MemStore.mem levitate_or_create world0).1 =
    Ok (VObj [("age", VNum 150); ("_id", VOid "oid-5"); ("hobby", VStr "levitate");
              ("upserted", VBool true)],
        [VObj [("age", VNum 150); ("_id", VOid "oid-5"); ("hobby", VStr "levitate");
               ("upserted", VBool true)]])
  ∧ List.filter is_hook (log (updateOne MemStore.mem levitate_or_create world0).2) =
    [Hook "after upsert"
       [VObj [("age", VNum 150); ("_id", VOid "oid-5"); ("hobby", VStr "levitate")]]].
Proof.
  pose proof (updateOne_fails_or_runs_one_chain MemStore.mem levitate world0 world0
       (VObj [("age", VNum 150)]) VNull
       (VObj [("updatedExisting", VBool false); ("n", VNum 0)]) friends
       eq_refl eq_refl eq_refl) as H1.
  pose proof (updateOne_fails_or_runs_one_chain MemStore.mem sports world0 world0
       (VObj [("age", VNum 16)])
       (VObj [("name", VStr "Paul"); ("age", VNum 16); ("id", VStr "sid-3");
              ("_id", VOid "oid-3"); ("hobby", VStr "sports")])
       (VObj [("updatedExisting", VBool true); ("n", VNum 1)])
       (MemStore.findAndModify
          {| fam_query := VObj [("age", VNum 16)]; fam_update := set_hobby "sports";
             fam_fields := VUndef; fam_sort := VUndef; fam_upsert := VUndef;
             fam_new := true |} friends).2
       eq_refl eq_refl eq_refl VUndef eq_refl) as H2.
  pose proof (updateOne_fails_or_runs_one_chain MemStore.mem levitate_or_create world0 world0
       (VObj [("age", VNum 150)])
       (VObj [("age", VNum 150); ("_id", VOid "oid-5"); ("hobby", VStr "levitate")])
       (VObj [("updatedExisting", VBool false); ("n", VNum 1); ("upserted", VOid "oid-5")])
       (MemStore.findAndModify
          {| fam_query := VObj [("age", VNum 150)]; fam_update := set_hobby "levitate";
             fam_fields := VUndef; fam_sort := VUndef; fam_upsert := VBool true;
             fam_new := true |} friends).2
       eq_refl eq_refl eq_refl (VOid "oid-5") eq_refl) as H3.
  hnf in H1, H2, H3. split_and!.
  - observe H1 (@fst (result (value * list value)) (world MemStore.mem)).
  - observe H2 (@fst (result (value * list value)) (world MemStore.mem)).
  - observe H2 (fun r : result (value * list value) * world MemStore.mem =>
                  List.filter is_hook (log r.2)).
  - observe H3 (@fst (result (value * list value)) (world MemStore.mem)).
  - observe H3 (fun r : result (value * list value) * world MemStore.mem =>
                  List.filter is_hook (log r.2)).
Defined.

(** Bob, Alice, Chris and Paul are under 20: the update goes to their four
    keys, and the four of them come back with the hobby, marked by the hook
    after update.  With [skip: 1] the update goes to the keys of Alice,
    Chris and Paul, and Chris and Paul come back. *)
Lemma updateAll_of_the_minors :
  (updateAll MemStore.mem chess world0).1 =
    Ok [ player "Bob" 17 "sid-0" "oid-0"; player "Alice" 17 "sid-1" "oid-1";
         player "Chris" 17 "sid-2" "oid-2"; player "Paul" 16 "sid-3" "oid-3" ]
  ∧ List.filter is_write (log (updateAll MemStore.mem chess world0).2) =
    [Update (by_ids [VOid "oid-0"; VOid "oid-1"; VOid "oid-2"; VOid "oid-3"])
            (set_hobby "chess") multi]
  ∧ pluck (VArr [ player "Bob" 17 "sid-0" "oid-0"; player "Alice" 17 "sid-1" "oid-1";
                  player "Chris" 17 "sid-2" "oid-2"; player "Paul" 16 "sid-3" "oid-3" ]) "_id"
    ≡ₚ [VOid "oid-0"; VOid "oid-1"; VOid "oid-2"; VOid "oid-3"]
  ∧ (updateAll MemStore.mem chess_after_one world0).1 =
    Ok [ player "Chris" 17 "sid-2" "oid-2"; player "Paul" 16 "sid-3" "oid-3" ]
  ∧ List.filter is_write (log (updateAll MemStore.mem chess_after_one world0).2) =
    [Update (by_ids [VOid "oid-1"; VOid "oid-2"; VOid "oid-3"]) (set_hobby "chess") multi].
Proof.
  pose proof (updateAll_updates_the_snapshot_by_key MemStore.mem mem_lawful chess world0
                (updateAll_snapshot MemStore.mem minors by_key VUndef VUndef world0).2 minors
                [keyed "oid-0"; keyed "oid-1"; keyed "oid-2"; keyed "oid-3"] 0 0
                friends_valid eq_refl (or_intror (conj eq_refl eq_refl))
                (or_intror (conj eq_refl eq_refl)) eq_refl eq_refl) as (_ & _ & H).
  pose proof (updateAll_updates_the_snapshot_by_key MemStore.mem mem_lawful chess_after_one
                world0
                (updateAll_snapshot MemStore.mem minors by_key (VNum 1) VUndef world0).2 minors
                [keyed "oid-1"; keyed "oid-2"; keyed "oid-3"] 1 0
                friends_valid eq_refl (or_introl (conj eq_refl eq_refl))
                (or_intror (conj eq_refl eq_refl)) eq_refl eq_refl) as (_ & _ & H').
  hnf in H, H'. destruct H as (_ & _ & Hk & _ & H), H' as (_ & _ & _ & _ & H').
  split_and!.
  - observe H (@fst (result (list value)) (world MemStore.mem)).
  - observe H (fun r : result (list value) * world MemStore.mem =>
                 List.filter is_write (log r.2)).
  - exact (Hk eq_refl (fun d => eq_refl)).
  - observe H' (@fst (result (list value)) (world MemStore.mem)).
  - observe H' (fun r : result (list value) * world MemStore.mem =>
                  List.filter is_write (log r.2)).
Defined.

(** Nobody is 150: without [upsert] nothing comes back and no hook runs; with
    [upsert] the created document comes back, marked by the hook after
    upsert; with [upsert] and [skip: 1] nothing comes back and no hook
    runs. *)
Lemma updateAll_of_nobody :
  (updateAll MemStore.mem levitate world0).1 = Ok []
  ∧ List.filter is_hook (log (updateAll MemStore.mem levitate world0).2) = []
  ∧ (updateAll MemStore.mem levitate_or_create world0).1 =
      Ok [VObj [("age", VNum 150); ("_id", VOid "oid-5"); ("hobby", VStr "levitate");
                ("upserted", VBool true)]]
  ∧ List.filter is_hook (log (updateAll MemStore.mem levitate_or_create world0).2) =
      [Hook "after upsert"
         [VObj [("age", VNum 150); ("_id", VOid "oid-5"); ("hobby", VStr "levitate")]]]
  ∧ List.filter is_write (log (updateAll MemStore.mem levitate_or_create world0).2) =
      [Update (VObj [("age", VNum 150)]) (set_hobby "levitate") upsert_multi]
  ∧ (updateAll MemStore.mem levitate_or_create_after_one world0).1 = Ok []
  ∧ List.filter is_hook (log (updateAll MemStore.mem levitate_or_create_after_one world0).2)
    = [].
Proof.
  pose proof (updateAll_without_matches MemStore.mem mem_lawful levitate world0
                (updateAll_snapshot MemStore.mem (VObj [("age", VNum 150)]) by_key
                                    VUndef VUndef world0).2
                (VObj [("age", VNum 150)]) [] 0 0 eq_refl
                (or_intror (conj eq_refl eq_refl)) (or_intror (conj eq_refl eq_refl))
                eq_refl eq_refl) as (_ & _ & H1).
  pose proof (updateAll_without_matches MemStore.mem mem_lawful levitate_or_create world0
                (updateAll_snapshot MemStore.mem (VObj [("age", VNum 150)]) by_key
                                    VUndef VUndef world0).2
                (VObj [("age", VNum 150)]) [] 0 0 eq_refl
                (or_intror (conj eq_refl eq_refl)) (or_intror (conj eq_refl eq_refl))
                eq_refl eq_refl) as (_ & _ & H2).
  pose proof (updateAll_without_matches MemStore.mem mem_lawful levitate_or_create_after_one
                world0
                (updateAll_snapshot MemStore.mem (VObj [("age", VNum 150)]) by_key
                                    (VNum 1) VUndef world0).2
                (VObj [("age", VNum 150)]) [] 1 0 eq_refl
                (or_introl (conj eq_refl eq_refl)) (or_intror (conj eq_refl eq_refl))
                eq_refl eq_refl) as (_ & _ & H3).
  hnf in H1, H2, H3. destruct H2 as [_ H2], H3 as [_ H3]. split_and!.
  - observe H1 (@fst (result (list value)) (world MemStore.mem)).
  - observe H1 (fun r : result (list value) * world MemStore.mem =>
                  List.filter is_hook (log r.2)).
  - observe H2 (@fst (result (list value)) (world MemStore.mem)).
  - observe H2 (fun r : result (list value) * world MemStore.mem =>
                  List.filter is_hook (log r.2)).
  - observe H2 (fun r : result (list value) * world MemStore.mem =>
                  List.filter is_write (log r.2)).
  - observe H3 (@fst (result (list value)) (world MemStore.mem)).
  - observe H3 (fun r : result (list value) * world MemStore.mem =>
                  List.filter is_hook (log r.2)).
Defined.

(** Of the four friends under 20, taken by name, the one after the first
    and the two after him are Bob, Chris and Paul; the hook before remove
    keeps the first two: Bob and Chris are deleted and handed back, Paul
    stays, and so do Alice and Waldo. *)
Lemma remove_with_a_truncating_hook :
  (Tenge.remove MemStore.mem minors_by_name guarded_world).1 =
    Ok [ VObj [("name", VStr "Bob"); ("age", VNum 17); ("id", VStr "sid-0");
               ("_id", VOid "oid-0"); ("removed", VBool true)];
         VObj [("name", VStr "Chris"); ("age", VNum 17); ("id", VStr "sid-2");
               ("_id", VOid "oid-2"); ("removed", VBool true)] ]
  ∧ List.filter is_write (log (Tenge.remove MemStore.mem minors_by_name guarded_world).2) =
    [Remove (by_ids [VOid "oid-0"; VOid "oid-2"])]
  ∧ List.filter is_hook (log (Tenge.remove MemStore.mem minors_by_name guarded_world).2) =
    [Hook "keep two" [ person "Bob" 17 "sid-0" "oid-0"; person "Chris" 17 "sid-2" "oid-2";
                       person "Paul" 16 "sid-3" "oid-3" ];
     Hook "after remove" [ person "Bob" 17 "sid-0" "oid-0"; person "Chris" 17 "sid-2" "oid-2" ]].
Proof.
  pose proof (remove_deletes_what_the_before_hooks_left MemStore.mem minors_by_name
                guarded_world guarded_world minors minors
                [ person "Alice" 17 "sid-1" "oid-1"; person "Bob" 17 "sid-0" "oid-0";
                  person "Chris" 17 "sid-2" "oid-2"; person "Paul" 16 "sid-3" "oid-3" ]
                1 3 eq_refl eq_refl eq_refl (or_introl (conj eq_refl eq_refl))
                (or_introl (conj eq_refl eq_refl)) eq_refl) as [He _].
  split_and!.
  - observe He (@fst (result (list value)) (world MemStore.mem)).
  - observe He (fun r : result (list value) * world MemStore.mem =>
                  List.filter is_write (log r.2)).
  - observe He (fun r : result (list value) * world MemStore.mem =>
                  List.filter is_hook (log r.2)).
Defined.

(** Eve and Fay have no [id] and Dan has one: Eve and Fay get the next two
    identifiers, which differ, and Dan keeps his. *)
Lemma default_hook_on_eve_dan_and_fay :
  let ds := [named "Eve"; VObj [("name", VStr "Dan"); ("id", VStr "dan")]; named "Fay"] in
  (assign_ids ds 5).2 = None
  ∧ (assign_ids ds 5).1.2 = 7%nat
  ∧ (assign_ids ds 5).1.1 !! 0%nat = Some (VObj [("name", VStr "Eve"); ("id", VStr "sid-5")])
  ∧ (assign_ids ds 5).1.1 !! 1%nat = Some (VObj [("name", VStr "Dan"); ("id", VStr "dan")])
  ∧ (assign_ids ds 5).1.1 !! 2%nat = Some (VObj [("name", VStr "Fay"); ("id", VStr "sid-6")])
  ∧ VStr "sid-5" ≠ VStr "sid-6".
Proof.
  intros ds.
  assert (H : Forall (fun d => ∃ ps, d = VObj ps) ds)
    by (repeat constructor; eauto).
  destruct (default_hook_gives_every_document_an_id ds 5 H) as (H1 & H2 & _ & H4 & H5).
  split_and!.
  - exact H1.
  - exact H2.
  - reflexivity.
  - reflexivity.
  - reflexivity.
  - exact (H5 0%nat 2%nat (named "Eve") (named "Fay") (O_S 1) eq_refl eq_refl eq_refl eq_refl).
Defined.

(** Eve is inserted into the friends' collection: she gets an [id] from the
    handler before insert and an [_id] from the store. *)
Lemma insert_of_eve :
  (Tenge.insert MemStore.mem {| doc := VObj [("name", VStr "Eve")]; docs := VUndef |} world0).1
  = Ok [VObj [("name", VStr "Eve"); ("id", VStr "sid-5"); ("_id", VOid "oid-5")]]
  ∧ log (Tenge.insert MemStore.mem
           {| doc := VObj [("name", VStr "Eve")]; docs := VUndef |} world0).2
  = [Hook "makeID" [VObj [("name", VStr "Eve")]];
     Insert [VObj [("name", VStr "Eve"); ("id", VStr "sid-5")]]].
Proof.
  pose proof (insert_stores_what_the_before_hooks_left MemStore.mem
                {| doc := VObj [("name", VStr "Eve")]; docs := VUndef |} world0
                (conj eq_refl eq_refl)) as H.
  hnf in H. split.
  - observe H (@fst (result (list value)) (world MemStore.mem)).
  - observe H (fun r : result (list value) * world MemStore.mem => log r.2).
Defined.

Ltac not_among :=
  let H := fresh in
  intros H; repeat (apply elem_of_cons in H as [H|H]; [discriminate H|]);
  by apply elem_of_nil in H.

(** A new model on an empty store: the first [_collection] asks for the
    index and registers the handler, the second does nothing. *)
Lemma collection_of_a_new_model :
  log (_collection MemStore.mem fresh).2 = [EnsureIndex]
  ∧ h_name <$> before_insert (hooks (self (_collection MemStore.mem fresh).2)) = ["makeID"]
  ∧ col (self (_collection MemStore.mem fresh).2) = true
  ∧ _collection MemStore.mem (_collection MemStore.mem fresh).2
    = (Ok tt, (_collection MemStore.mem fresh).2).
Proof.
  destruct (collection_is_set_up_once MemStore.mem fresh (_collection MemStore.mem fresh).2
              eq_refl eq_refl) as (H1 & H2 & H3 & H4).
  split_and!; [exact H1|by rewrite H2|exact H3|exact H4].
Defined.

(** A query by [$$._id] cannot be normalised: every operation fails with the
    [TypeError] and leaves the world as it was. *)
Lemma operations_on_a_query_by_store_key :
  let q := VObj [("$$", VObj [("_id", VStr "55694ef8a8d8596e1b0d8830")])] in
  let e := TypeError "Tenge.makeOID is not a function" in
  find MemStore.mem (find_where q) world0 = (Err e, world0)
  ∧ findOne MemStore.mem (find_where q) world0 = (Err e, world0)
  ∧ count MemStore.mem (find_where q) world0 = (Err e, world0)
  ∧ size MemStore.mem (find_where q) world0 = (Err e, world0)
  ∧ Tenge.remove MemStore.mem (find_where q) world0 = (Err e, world0)
  ∧ updateOne MemStore.mem (update_where q (set_hobby "chess") VUndef) world0 = (Err e, world0)
  ∧ updateAll MemStore.mem (update_where q (set_hobby "chess") VUndef) world0 = (Err e, world0).
Proof.
  intros q e.
  exact (a_query_that_cannot_be_normalised_stops_the_operation MemStore.mem
           (find_where q) (update_where q (set_hobby "chess") VUndef) world0 e eq_refl eq_refl).
Defined.

(** Eve as [doc] and Dan among [docs], after a null. *)
Lemma insert_of_eve_and_dan :
  Tenge.insert MemStore.mem
    {| doc := named "Eve"; docs := VArr [VNull; named "Dan"] |} world0
  = Tenge.insert MemStore.mem
      {| doc := VUndef; docs := VArr [named "Eve"; VNull; named "Dan"] |} world0
  ∧ Tenge.insert MemStore.mem
      {| doc := VUndef; docs := VArr [VNull; named "Dan"] |} world0
  = Tenge.insert MemStore.mem
      {| doc := VUndef; docs := VArr [named "Dan"] |} world0.
Proof.
  apply (insert_takes_doc_and_docs_as_one_list MemStore.mem (named "Eve")
           [VNull; named "Dan"] world0).
  intros xs H. discriminate H.
Defined.

(** The params [{query: {$$: {foo: 1}}}]. *)
Lemma makeQuery_of_a_marker_foo :
  Refs._makeQuery (Refs.RRef 2)
    [ Refs.CObj [("foo", Refs.RNum 1)]; Refs.CObj [("$$", Refs.RRef 0)];
      Refs.CObj [("query", Refs.RRef 1)] ]
  = Err (Error ("Tenge: No query transformer registered for "
                +:+ dquote +:+ "$$.foo" +:+ dquote)).
Proof.
  refine (proj2 (makeQuery_rejects_an_unregistered_marker_key
            [ Refs.CObj [("foo", Refs.RNum 1)]; Refs.CObj [("$$", Refs.RRef 0)];
              Refs.CObj [("query", Refs.RRef 1)] ] 2 1 0
            [("query", Refs.RRef 1)] [("$$", Refs.RRef 0)] [("foo", Refs.RNum 1)]
            eq_refl eq_refl eq_refl eq_refl eq_refl "foo" _ _ _) eq_refl).
  - apply list_elem_of_singleton. reflexivity.
  - simpl. not_among.
  - unfold inherited. not_among.
Defined.

(** Bob by [$$.id], the marker between other keys. *)
Lemma makeQuery_of_bob_by_id :
  makeQuery (VObj [("name", VStr "Bob"); ("$$", VObj [("id", VStr "c")]); ("age", VNum 17)])
  = Ok (VObj [("name", VStr "Bob"); ("age", VNum 17); ("id", VStr "c")])
  ∧ makeQuery (VObj [("$$", VObj [("id", VStr "c")]); ("id", VStr "b"); ("age", VNum 17)])
  = Ok (VObj [("id", VStr "c"); ("age", VNum 17)])
  ∧ makeQuery (VObj [("name", VStr "Bob"); ("$$", VObj [("id", VStr "c")])])
  = Ok (VObj [("name", VStr "Bob"); ("id", VStr "c")]).
Proof.
  split_and!.
  - refine (proj1 (makeQuery_of_an_id_marker [("name", VStr "Bob")] [("age", VNum 17)]
                     (VStr "c") _ _ eq_refl)).
    + simpl. distinct_values.
    + simpl. not_among.
  - refine (proj1 (makeQuery_of_an_id_marker [] [("id", VStr "b"); ("age", VNum 17)]
                     (VStr "c") _ _ eq_refl)).
    + simpl. distinct_values.
    + simpl. not_among.
  - refine (proj1 (makeQuery_of_an_id_marker [("name", VStr "Bob")] [] (VStr "c") _ _ eq_refl)).
    + simpl. distinct_values.
    + simpl. not_among.
Defined.

(** Bob by [$$.ids], a null among them, the marker before the other keys. *)
Lemma makeQuery_of_bob_by_ids :
  makeQuery (VObj [("$$", VObj [("ids", VArr [VStr "a"; VNull; VUndef; VStr "b"])]);
                   ("name", VStr "Bob"); ("age", VNum 17)])
  = Ok (VObj [("name", VStr "Bob"); ("age", VNum 17);
              ("id", VObj [("$in", VArr [VStr "a"; VStr "b"])])])
  ∧ makeQuery (VObj [("name", VStr "Bob");
                     ("$$", VObj [("ids", VArr [VStr "a"; VNull; VUndef; VStr "b"])])])
  = Ok (VObj [("name", VStr "Bob"); ("id", VObj [("$in", VArr [VStr "a"; VStr "b"])])]).
Proof.
  split.
  - refine (proj1 (makeQuery_of_an_ids_marker [] [("name", VStr "Bob"); ("age", VNum 17)]
                     [VStr "a"; VNull; VUndef; VStr "b"] _ _ _ _)).
    + simpl. distinct_values.
    + simpl. not_among.
    + simpl. not_among.
    + repeat first [apply Forall_nil_2 | apply Forall_cons_2; [first [by left | by right]|]].
  - refine (proj1 (makeQuery_of_an_ids_marker [("name", VStr "Bob")] []
                     [VStr "a"; VNull; VUndef; VStr "b"] _ _ _ _)).
    + simpl. distinct_values.
    + simpl. not_among.
    + simpl. not_among.
    + repeat first [apply Forall_nil_2 | apply Forall_cons_2; [first [by left | by right]|]].
Defined.

(** On a model without a collection name the snapshot fails, and with it
    [remove] and [updateAll]; the log stays empty. *)
Lemma remove_and_updateAll_on_a_nameless_model :
  (Tenge.remove MemStore.mem seventeen nameless).1
    = Err (Error "Tenge: No collection name provided")
  ∧ log (Tenge.remove MemStore.mem seventeen nameless).2 = []
  ∧ (updateAll MemStore.mem chess nameless).1
    = Err (Error "Tenge: No collection name provided")
  ∧ log (updateAll MemStore.mem chess nameless).2 = [].
Proof.
  destruct (proj1 (a_failing_snapshot_stops_remove_and_updateAll MemStore.mem seventeen chess
              nameless (VObj [("age", VNum 17)]) (Error "Tenge: No collection name provided"))
              eq_refl eq_refl) as [H1 _].
  destruct (proj2 (a_failing_snapshot_stops_remove_and_updateAll MemStore.mem seventeen chess
              nameless minors (Error "Tenge: No collection name provided"))
              eq_refl eq_refl) as [H2 _].
  split_and!; [exact H1|reflexivity|exact H2|reflexivity].
Defined.

End Examples.
